(** * Orlando video plugin: the batch aggregation of video conversions

    A shallow embedding of the parts of the plugin that merge per-file
    conversion results into one project
    ([video_plugin/ui/launcher.py], [video_plugin/services/dita_builder.py],
    [video_plugin/services/video_handler.py]) and the properties that the
    specification states about them, followed by the helpers around them
    (the format table of [video_plugin/services/video_processor.py], the
    item list and the seek arithmetic of
    [video_plugin/ui/video_preview_panel.py], the folder flow of the
    launcher) and further properties of the code.

    Conventions of the embedding.
    - A Python [str] is a [string]; a character is a code point below 256
      (Latin-1), classified as Python's [str] methods classify it.
    - [pathlib.Path] is the POSIX flavour, with the [name]/[stem]/[suffix]
      rules of Python 3.8 to 3.13.
    - A raised exception is a value of [exn]; a function that can raise
      returns [exn + A].
    - Python dicts that are only probed and extended are [gmap]s; dicts that
      are iterated are the list of their items, in insertion order.
    - The lxml tree that the launcher grows in place, and into which it keeps
      references, is an arena: a list of elements addressed by index. *)

From Stdlib Require Import Ascii String ZArith Lia DecimalString DecimalNat.
From stdpp Require Import gmap strings list fin_maps pretty sorting.

(* ===================================================================== *)
(** ** Python strings *)
(* ===================================================================== *)

Module Py.

Definition ord (c : ascii) : N := N_of_ascii c.

Definition in_range (lo hi : N) (c : ascii) : bool :=
  ((lo <=? ord c) && (ord c <=? hi))%N.

(** [str.isalpha] on one code point below 256. *)
Definition isalpha (c : ascii) : bool :=
  in_range 65 90 c || in_range 97 122 c
  || in_range 170 170 c || in_range 181 181 c || in_range 186 186 c
  || in_range 192 214 c || in_range 216 246 c || in_range 248 255 c.

(** [str.isalnum]: letters, decimal digits, and the Latin-1 code points
    Unicode classes as digits or numerics (superscripts and fractions). *)
Definition isalnum (c : ascii) : bool :=
  isalpha c || in_range 48 57 c
  || in_range 178 179 c || in_range 185 185 c || in_range 188 190 c.

(** [str.lower] on one code point below 256. *)
Definition lower_char (c : ascii) : ascii :=
  if in_range 65 90 c || in_range 192 214 c || in_range 216 222 c
  then ascii_of_N (ord c + 32) else c.

(** [str.upper] on an ASCII code point. *)
Definition upper_ascii (c : ascii) : ascii :=
  if in_range 97 122 c then ascii_of_N (ord c - 32) else c.

(** [str.isspace] on one code point below 256. *)
Definition isspace (c : ascii) : bool :=
  in_range 9 13 c || in_range 28 32 c || in_range 133 133 c
  || in_range 160 160 c.

Fixpoint map_str (f : ascii → ascii) (s : string) : string :=
  match s with
  | "" => ""
  | String c r => String (f c) (map_str f r)
  end.

Fixpoint forall_str (p : ascii → bool) (s : string) : bool :=
  match s with
  | "" => true
  | String c r => p c && forall_str p r
  end.

Fixpoint exists_str (p : ascii → bool) (s : string) : bool :=
  match s with
  | "" => false
  | String c r => p c || exists_str p r
  end.

Definition lower (s : string) : string := map_str lower_char s.
Definition upper (s : string) : string := map_str upper_ascii s.

(** [c in s] for a one-character [c]. *)
Definition char_in (c : ascii) (s : string) : bool :=
  exists_str (λ a, bool_decide (a = c)) s.

(** [s[:n]] and [s[n:]] for [n >= 0]. *)
Fixpoint str_take (n : nat) (s : string) : string :=
  match n, s with
  | S n', String c r => String c (str_take n' r)
  | _, _ => ""
  end.

Fixpoint str_drop (n : nat) (s : string) : string :=
  match n, s with
  | S n', String _ r => str_drop n' r
  | _, _ => s
  end.

(** [s.lstrip(chars)], [s.rstrip(chars)], [s.strip(chars)]. *)
Fixpoint lstrip (p : ascii → bool) (s : string) : string :=
  match s with
  | String c r => if p c then lstrip p r else s
  | "" => ""
  end.

Fixpoint rstrip (p : ascii → bool) (s : string) : string :=
  match s with
  | "" => ""
  | String c r =>
      let r' := rstrip p r in
      if p c && bool_decide (r' = "") then "" else String c r'
  end.

Definition strip (p : ascii → bool) (s : string) : string :=
  rstrip p (lstrip p s).

(** [s.rfind(c)]: the index of the last [c], or [-1]. *)
Fixpoint rfind_from (c : ascii) (s : string) (i : nat) (found : Z) : Z :=
  match s with
  | "" => found
  | String a r =>
      rfind_from c r (S i) (if bool_decide (a = c) then Z.of_nat i else found)
  end.

Definition rfind (c : ascii) (s : string) : Z := rfind_from c s 0 (-1).

(** [s.split(sep)] for a one-character separator. *)
Fixpoint split (sep : ascii) (s : string) : list string :=
  match s with
  | "" => [""]
  | String c r =>
      if bool_decide (c = sep) then "" :: split sep r
      else match split sep r with
           | h :: t => String c h :: t
           | [] => [String c ""]
           end
  end.

(** [sep.join(l)]. *)
Fixpoint join (sep : string) (l : list string) : string :=
  match l with
  | [] => ""
  | [x] => x
  | x :: r => x +:+ sep +:+ join sep r
  end.

(** [a or b] on strings that may be missing: the first truthy one. *)
Definition or_else (a : option string) (b : string) : string :=
  match a with
  | Some (String c r) => String c r
  | _ => b
  end.

(** Exceptions, with the text [str(e)] gives. *)
Inductive exn : Type :=
| ValueError (msg : string)
| IndexError (msg : string)
| OSError (msg : string)
| Exception (msg : string).

Definition str_exn (e : exn) : string :=
  match e with
  | ValueError m | IndexError m | OSError m | Exception m => m
  end.

Global Instance exn_eq_dec : EqDecision exn.
Proof. solve_decision. Defined.

(** [repr(s)] of a [str]: the quote is the apostrophe, unless the string
    holds one and no double quote; the quote and the backslash are escaped,
    tab, line feed and carriage return are written [\t], [\n], [\r], and
    every other code point that is not printable (the controls, the
    no-break space, the soft hyphen) is written [\xhh]. *)
Definition backslash : ascii := ascii_of_N 92.
Definition apostrophe : ascii := ascii_of_N 39.
Definition double_quote : ascii := ascii_of_N 34.

Definition hex_digit (n : N) : ascii :=
  ascii_of_N (if (n <? 10)%N then 48 + n else 87 + n).

Definition isprintable (c : ascii) : bool :=
  in_range 32 126 c || in_range 161 172 c || in_range 174 255 c.

Definition repr_char (quote c : ascii) : string :=
  if bool_decide (c = quote) || bool_decide (c = backslash)
  then String backslash (String c "")
  else if bool_decide (ord c = 9%N) then String backslash "t"
  else if bool_decide (ord c = 10%N) then String backslash "n"
  else if bool_decide (ord c = 13%N) then String backslash "r"
  else if isprintable c then String c ""
  else String backslash
         (String "x" (String (hex_digit (ord c / 16))
                        (String (hex_digit (ord c mod 16)) ""))).

Fixpoint repr_chars (quote : ascii) (s : string) : string :=
  match s with
  | "" => ""
  | String c r => repr_char quote c +:+ repr_chars quote r
  end.

Definition repr (s : string) : string :=
  let quote :=
    if exists_str (λ a, bool_decide (a = apostrophe)) s
       && negb (exists_str (λ a, bool_decide (a = double_quote)) s)
    then double_quote else apostrophe in
  String quote (repr_chars quote s +:+ String quote "").

End Py.

Import Py.

Abbreviation result A := (exn + A)%type.

(** Sequencing of calls that can raise: the first exception ends the
    computation.  Written [x ← e; k] like the option monad. *)
Global Instance result_bind : MBind (sum exn) := λ A B k x,
  match x with
  | inl e => inl e
  | inr a => k a
  end.

(* ===================================================================== *)
(** ** pathlib and os.path (POSIX) *)
(* ===================================================================== *)

(** A parsed path: the root (the empty string, one slash or two) and the
    components below it; no component is empty or a single dot. *)
Record Path : Type := mkPath { root : string; parts : list string }.

Global Instance Path_eq_dec : EqDecision Path.
Proof. solve_decision. Defined.

Definition is_slash (c : ascii) : bool := bool_decide (c = "/"%char).

(** [Path(s)]. *)
Definition PurePosixPath (s : string) : Path :=
  let stripped := lstrip is_slash s in
  let n := (String.length s - String.length stripped)%nat in
  {| root := match n with 0%nat => "" | 2%nat => "//" | _ => "/" end;
     parts := filter (λ x, x ≠ "" ∧ x ≠ ".") (split "/" stripped) |}.

(** [str(p)]. *)
Definition path_str (p : Path) : string :=
  match root p, parts p with
  | "", [] => "."
  | r, ps => r +:+ join "/" ps
  end.

(** [p.name]: the final component, if any. *)
Definition name (p : Path) : string := List.last (parts p) "".

(** The test [0 < i < len(name) - 1] shared by [suffix] and [stem]. *)
Definition suffix_index (nm : string) : option nat :=
  let i := rfind "." nm in
  if bool_decide (0 < i ∧ i < Z.of_nat (String.length nm) - 1)%Z
  then Some (Z.to_nat i) else None.

(** [p.suffix] and [p.stem]. *)
Definition suffix (p : Path) : string :=
  match suffix_index (name p) with
  | Some i => str_drop i (name p)
  | None => ""
  end.

Definition stem (p : Path) : string :=
  match suffix_index (name p) with
  | Some i => str_take i (name p)
  | None => name p
  end.

(** [p.parent] of a relative path. *)
Definition parent (p : Path) : Path :=
  {| root := root p; parts := removelast (parts p) |}.

Fixpoint strip_prefix (pre l : list string) : option (list string) :=
  match pre, l with
  | [], _ => Some l
  | a :: pre', b :: l' => if bool_decide (a = b) then strip_prefix pre' l' else None
  | _ :: _, [] => None
  end.

(** [p.relative_to(other)]: raises [ValueError] unless [other] is an ancestor
    of [p] (or [p] itself) with the same root.  The text of the exception
    is that of Python 3.9 to 3.11, which formats [other] from its parsed
    parts; other versions word it differently. *)
Definition relative_to (p other : Path) : result Path :=
  match (if bool_decide (root p = root other)
         then strip_prefix (parts other) (parts p) else None) with
  | Some rest => inr {| root := ""; parts := rest |}
  | None =>
      inl (ValueError
             (repr (path_str p) +:+ " is not in the subpath of "
              +:+ repr (root other +:+ join "/" (parts other))
              +:+ " OR one path is relative and the other is absolute."))
  end.

(** [os.path.basename(p)]: what follows the last slash. *)
Definition basename (p : string) : string :=
  str_drop (Z.to_nat (rfind "/" p + 1)) p.

(** [os.path.splitext(p)]: the extension starts at the last dot, provided
    that dot lies in the final component and some character of that component
    before it is not a dot. *)
Definition splitext (p : string) : string * string :=
  let sepIndex := rfind "/" p in
  let dotIndex := rfind "." p in
  if bool_decide (dotIndex > sepIndex)%Z
     && exists_str (λ c, negb (bool_decide (c = "."%char)))
          (str_take (Z.to_nat (dotIndex - (sepIndex + 1)))
                (str_drop (Z.to_nat (sepIndex + 1)) p))
  then (str_take (Z.to_nat dotIndex) p, str_drop (Z.to_nat dotIndex) p)
  else (p, "").

(* ===================================================================== *)
(** ** dita_builder.py: topic identifiers *)
(* ===================================================================== *)

Definition is_hyphen (c : ascii) : bool := bool_decide (c = "-"%char).

(** The loop over the characters of the lowered stem: alphanumerics are
    kept, the characters of [" -_."] become hyphens, the rest is dropped. *)
Fixpoint clean_chars (s : string) : string :=
  match s with
  | "" => ""
  | String c r =>
      if isalnum c then String c (clean_chars r)
      else if char_in c " -_." then String "-" (clean_chars r)
      else clean_chars r
  end.

(** ["--" in s]. *)
Fixpoint has_double_hyphen (s : string) : bool :=
  match s with
  | "" => false
  | String c r =>
      match r with
      | String d _ => (is_hyphen c && is_hyphen d) || has_double_hyphen r
      | "" => false
      end
  end.

(** [s.replace("--", "-")]: one pass, left to right, without overlap. *)
Fixpoint replace_double_hyphen (s : string) : string :=
  match s with
  | "" => ""
  | String c r =>
      match r with
      | String d r' =>
          if is_hyphen c && is_hyphen d
          then String "-" (replace_double_hyphen r')
          else String c (replace_double_hyphen r)
      | "" => String c ""
      end
  end.

(** [while "--" in topic_id: topic_id = topic_id.replace("--", "-")].
    Every pass that finds a pair shortens the string, so [fuel] equal to the
    length is never used up (lemma [collapse_hyphens_done]). *)
Fixpoint collapse_loop (fuel : nat) (s : string) : string :=
  if has_double_hyphen s then
    match fuel with
    | S n => collapse_loop n (replace_double_hyphen s)
    | O => s
    end
  else s.

Definition collapse_hyphens (s : string) : string :=
  collapse_loop (String.length s) s.

(** [VideoDitaBuilder._generate_topic_id]. *)
Definition _generate_topic_id (filename : string) : result string :=
  let name_without_ext := stem (PurePosixPath filename) in
  let topic_id := clean_chars (lower name_without_ext) in
  let topic_id := collapse_hyphens topic_id in
  match topic_id with
  | "" => inl (IndexError "string index out of range")
  | String c0 _ =>
      let topic_id := if isalpha c0 then topic_id else "video-" +:+ topic_id in
      let topic_id :=
        if bool_decide (50 < String.length topic_id)%nat
        then str_take 50 topic_id else topic_id in
      inr (strip is_hyphen topic_id)
  end.

(** [f"{i}"] for a non-negative integer. *)
Definition str_of_nat (i : nat) : string :=
  NilEmpty.string_of_uint (Nat.to_uint i).

(* ===================================================================== *)
(** ** launcher.py: the naming policy *)
(* ===================================================================== *)

Section dedup.
Context {A : Type}.

(** [f"{base}-{i}{ext}"]. *)
Definition candidate (base ext : string) (i : nat) : string :=
  base +:+ "-" +:+ str_of_nat i +:+ ext.

(** [while new in used: i += 1; new = f"{base}-{i}{ext}"], entered with
    [new] the candidate number [i].  The candidates are pairwise distinct,
    so at most [size used] of them are keys of [used]: with that much fuel
    the loop leaves through its test (lemma [dedup_loop_fresh]). *)
Fixpoint dedup_loop (fuel : nat) (base ext : string)
    (used : gmap string A) (i : nat) : string :=
  let new := candidate base ext i in
  match used !! new with
  | None => new
  | Some _ =>
      match fuel with
      | S n => dedup_loop n base ext used (S i)
      | O => new
      end
  end.

(** [_dedup_name], the local function of [_convert_many]. *)
Definition _dedup_name (name : string) (used : gmap string A) : string :=
  match used !! name with
  | None => name
  | Some _ =>
      let '(base, ext) := splitext name in
      dedup_loop (size used) base ext used 2
  end.
End dedup.

(* ===================================================================== *)
(** ** lxml elements *)
(* ===================================================================== *)

(** lxml refuses text and attribute values that hold a control character
    other than tab, line feed and carriage return, and names that hold a
    colon; it raises [ValueError]. *)
Definition xml_char_ok (c : ascii) : bool :=
  (32 <=? ord c)%N || bool_decide (ord c = 9%N) || bool_decide (ord c = 10%N)
  || bool_decide (ord c = 13%N).

Definition xml_compatible (s : string) : bool := forall_str xml_char_ok s.

Definition xml_name_valid (s : string) : bool :=
  negb (bool_decide (s = "")) && negb (char_in ":" s).

Definition xml_value_error : exn :=
  ValueError "All strings must be XML compatible: Unicode or ASCII, no NULL bytes or control characters".

Definition xml_name_error (name : string) : exn :=
  ValueError ("Invalid attribute name '" +:+ name +:+ "'").

Set Warnings "-register-all".

(** *** Trees that are built once and then only read

    The trees a document handler returns: topic documents and the per-file
    map. *)
Inductive xml : Type :=
| XML (tag : string) (attrib : list (string * string)) (text : option string)
      (children : list xml).

Definition xml_tag (x : xml) : string := let 'XML t _ _ _ := x in t.
Definition xml_attrib (x : xml) : list (string * string) :=
  let 'XML _ a _ _ := x in a.

Fixpoint assoc {V} (k : string) (l : list (string * V)) : option V :=
  match l with
  | [] => None
  | (k', v) :: r => if bool_decide (k' = k) then Some v else assoc k r
  end.

(** [x.get(name)]. *)
Definition xml_get (name : string) (x : xml) : option string :=
  assoc name (xml_attrib x).

(** The descendants of [x], in document order. *)
Fixpoint descendants (x : xml) : list xml :=
  match x with
  | XML _ _ _ cs =>
      (fix go (l : list xml) : list xml :=
         match l with
         | [] => []
         | c :: r => c :: descendants c ++ go r
         end) cs
  end.

(** [x.find('.//topicref[@href]')] followed by [.get('href')]. *)
Definition find_topicref_href (x : xml) : option string :=
  d ← head (filter (λ d, xml_tag d = "topicref" ∧ is_Some (xml_get "href" d))
                   (descendants x));
  xml_get "href" d.

(** The media a topic embeds, as the preview panel collects them: the [data]
    of the [object] elements whose [outputclass] mentions video, reduced to
    the final path component ([Path(data).name]). *)
Definition is_video_object (x : xml) : bool :=
  bool_decide (xml_tag x = "object")
  && match xml_get "outputclass" x with
     | Some oc => bool_decide (is_Some (String.index 0 "video" oc))
     | None => false
     end.

Definition media_refs (topic : xml) : list string :=
  omap (λ d, if is_video_object d
             then (λ data, name (PurePosixPath data)) <$> xml_get "data" d
             else None)
       (descendants topic).

(** *** The tree the launcher grows in place *)
Record element : Type := mkElement {
  tag : string;
  attrib : gmap string string;
  text : option string;
  children : list nat
}.

Module ET.

Definition new_element (t : string) : element :=
  {| tag := t; attrib := ∅; text := None; children := [] |}.

Definition add_child (child : nat) (e : element) : element :=
  {| tag := tag e; attrib := attrib e; text := text e;
     children := children e ++ [child] |}.

Definition with_attr (k v : string) (e : element) : element :=
  {| tag := tag e; attrib := <[k := v]> (attrib e); text := text e;
     children := children e |}.

Definition with_text (v : string) (e : element) : element :=
  {| tag := tag e; attrib := attrib e; text := Some v;
     children := children e |}.

(** [ET.Element(tag)]. *)
Definition Element (t : string) (σ : list element) : nat * list element :=
  (List.length σ, σ ++ [new_element t]).

(** [ET.SubElement(parent, tag)]: the new element becomes the last child
    of [parent]. *)
Definition SubElement (parent : nat) (t : string) (σ : list element)
    : nat * list element :=
  (List.length σ, alter (add_child (List.length σ)) parent σ ++ [new_element t]).

(** [el.set(name, value)]. *)
Definition set (el : nat) (name value : string) (σ : list element)
    : result (list element) :=
  if negb (xml_name_valid name) then inl (xml_name_error name)
  else if negb (xml_compatible value) then inl xml_value_error
  else inr (alter (with_attr name value) el σ).

(** [el.text = value]. *)
Definition set_text (el : nat) (value : string) (σ : list element)
    : result (list element) :=
  if negb (xml_compatible value) then inl xml_value_error
  else inr (alter (with_text value) el σ).

End ET.

(** The display label of a map node: the text of the [navtitle] inside its
    [topicmeta]. *)
Definition child_with_tag (σ : list element) (t : string) (el : nat)
    : option nat :=
  e ← σ !! el;
  head (filter (λ c, tag <$> σ !! c = Some t) (children e)).

Definition navtitle (σ : list element) (el : nat) : option string :=
  meta ← child_with_tag σ "topicmeta" el;
  nav ← child_with_tag σ "navtitle" meta;
  e ← σ !! nav;
  text e.

Definition href (σ : list element) (el : nat) : option string :=
  e ← σ !! el; attrib e !! "href".

(** The elements of the tree with a given tag. *)
Definition nodes_with_tag (σ : list element) (t : string) : list element :=
  filter (λ e, tag e = t) σ.

(* ===================================================================== *)
(** ** dita_builder.py: the single-file converter *)
(* ===================================================================== *)

(** What a document handler returns (the host's [DitaContext], as this
    plugin fills and reads it).  [video_info_map] is
    [plugin_data['orlando-video-plugin']['video_info_map']], empty when any
    level is missing.  The free-form [metadata] of a per-file result is
    never read by the launcher and is left out. *)
Record DitaContext : Type := mkDitaContext {
  topics : list (string * xml);
  images : list (string * list Byte.byte);
  videos : list (string * list Byte.byte);
  video_info_map : list (string * gmap string string);
  ditamap_root : option xml
}.

(** The plugin configuration, as far as the builder reads it:
    [config['dita_integration']['preserve_original_filenames']], true when
    missing. *)
Record Config : Type := mkConfig { preserve_original_filenames : bool }.

(** The metadata record of [VideoProcessor.extract_metadata], as far as the
    builder lets it reach its result (the technical fields only feed a
    [shortdesc] element that [build_video_topic] removes again). *)
Record video_info : Type := mkVideoInfo {
  filename : string;
  extension : string
}.

(** What [os.stat] answers for a path: the kind of the entry it finds; one
    of the failures that [Path.exists()] takes for the absence of an entry
    (the errors [ENOENT], [ENOTDIR], [EBADF] and [ELOOP], and the
    [ValueError] of a path that holds a null character); or any other
    [OSError], such as [EACCES] for a directory that may not be searched or
    [ENAMETOOLONG]. *)
Inductive entry_kind : Type := RegularFile | Directory | OtherEntry.

Inductive stat_result : Type :=
| Found (kind : entry_kind)
| NotFound
| StatError (e : exn).

(** The world outside the plugin: the file system, the video libraries, the
    host and the clock. *)
Record Env : Type := mkEnv {
  (** [os.stat(path)] *)
  stat : Path → stat_result;
  (** [ServiceRegistry.find_handler_for_file], of the host, when the
      [can_handle] of a handler raises: the exception the lookup lets
      through, if any; without one it passes the handler over *)
  lookup_error : Path → exn → option exn;
  (** [DocumentHandlerBase.validate_file_exists], of the host: the exception
      it raises, if any *)
  validate_file_exists : Path → option exn;
  (** [VideoProcessor.validate_format]: OpenCV opens the file and reads a
      frame *)
  validate_format : Path → bool;
  (** the exception [VideoProcessor.extract_metadata] raises, if any *)
  extract_metadata_error : Path → option exn;
  (** [open(path, 'rb').read()] *)
  read_bytes : Path → result (list Byte.byte);
  (** [datetime.utcnow().strftime("%Y-%m-%d")] *)
  utc_today : string
}.

(** [Path.exists()] (Python 3.8 to 3.13): [stat()] is called; the failures
    that mean no entry give [False], any other [OSError] is raised again. *)
Definition path_exists (env : Env) (p : Path) : result bool :=
  match stat env p with
  | Found _ => inr true
  | NotFound => inr false
  | StatError e => inl e
  end.

Definition is_ascii_alnum (c : ascii) : bool :=
  in_range 48 57 c || in_range 65 90 c || in_range 97 122 c.

(** [re.sub(p+, "-", s)] for a character class [p]: every maximal run of
    characters of the class becomes one hyphen. *)
Fixpoint sub_runs (p : ascii → bool) (in_run : bool) (s : string) : string :=
  match s with
  | "" => ""
  | String c r =>
      if p c then
        if in_run then sub_runs p true r else String "-" (sub_runs p true r)
      else String c (sub_runs p false r)
  end.

(** [VideoDitaBuilder._normalize_manual_reference]. *)
Definition _normalize_manual_reference (title : option string) : string :=
  match title with
  | None | Some "" => "VIDEO-LIBRARY"
  | Some title =>
      let norm := strip isspace title in
      let norm := sub_runs (λ c, negb (is_ascii_alnum c)) false norm in
      let norm := strip is_hyphen (sub_runs is_hyphen false norm) in
      or_else (Some (upper norm)) "VIDEO-LIBRARY"
  end.

(** [VideoDitaBuilder._get_video_mime_type]. *)
Definition _get_video_mime_type (extension : string) : string :=
  let extension := lstrip (λ c, bool_decide (c = "."%char)) (lower extension) in
  default "video/unknown"
    (assoc extension
       [("mp4", "video/mp4"); ("avi", "video/x-msvideo");
        ("mov", "video/quicktime"); ("wmv", "video/x-ms-wmv");
        ("webm", "video/webm"); ("mkv", "video/x-matroska")]).

(** [VideoDitaBuilder._get_video_media_filename]. *)
Definition _get_video_media_filename (cfg : Config) (original_filename : string)
    : result string :=
  if preserve_original_filenames cfg then inr original_filename
  else
    topic_id ← _generate_topic_id original_filename;
    inr (topic_id +:+ suffix (PurePosixPath original_filename)).

Section builder.
Context (env : Env) (cfg : Config) (metadata : gmap string string).

(** [VideoDitaBuilder.build_video_topic] with [_add_video_element]: a
    [concept] holding the title and, in its body, the [object] that embeds
    the media file. *)
Definition build_video_topic (topic_id : string) (vi : video_info)
    : result xml :=
  let title_text :=
    or_else (metadata !! "video_title") (stem (PurePosixPath (filename vi))) in
  if negb (xml_compatible title_text) then inl xml_value_error else
  video_filename ← _get_video_media_filename cfg (filename vi);
  let data := "../media/" +:+ video_filename in
  if negb (xml_compatible data) then inl xml_value_error else
  inr (XML "concept" [("id", topic_id)] None
         [XML "title" [] (Some title_text) [];
          XML "conbody" [] None
            [XML "object"
               [("data", data); ("outputclass", "video");
                ("type", _get_video_mime_type (extension vi))] None
               [XML "param" [("name", "controls"); ("value", "true")]
                  None []]]]).

(** [VideoDitaBuilder._create_ditamap]: title, map-level metadata and one
    [topicref] to the topic. *)
Definition _create_ditamap (topic_filename : string) (vi : video_info)
    : result xml :=
  let title_text :=
    or_else (metadata !! "manual_title")
      (or_else (metadata !! "video_title")
         (stem (PurePosixPath (filename vi)))) in
  if negb (xml_compatible title_text) then inl xml_value_error else
  let manual_ref := _normalize_manual_reference (Some title_text) in
  let revised := or_else (metadata !! "revision_date") (utc_today env) in
  if negb (xml_compatible (utc_today env) && xml_compatible revised)
  then inl xml_value_error else
  inr (XML "map" [] None
         [XML "title" [] (Some title_text) [];
          XML "topicmeta" [] None
            [XML "othermeta"
               [("name", "manual_reference"); ("content", manual_ref)]
               None [];
             XML "critdates" [] None
               [XML "created" [("date", utc_today env)] None [];
                XML "revised" [("modified", revised)] None []]];
          XML "topicref"
            [("href", "topics/" +:+ topic_filename); ("format", "dita");
             ("type", "concept")] None
            [XML "topicmeta" [] None
               [XML "navtitle" [] (Some title_text) []]]]).

(** [VideoDitaBuilder.create_dita_context]. *)
Definition create_dita_context (video_path : Path) (vi : video_info)
    : result DitaContext :=
  topic_id ← _generate_topic_id (filename vi);
  let topic_filename := topic_id +:+ ".dita" in
  topic_element ← build_video_topic topic_id vi;
  video_filename ← _get_video_media_filename cfg (filename vi);
  blob ← read_bytes env video_path;
  map_elem ← _create_ditamap topic_filename vi;
  inr {| topics := [(topic_filename, topic_element)];
         images := [];
         videos := [(video_filename, blob)];
         video_info_map := [];
         ditamap_root := Some map_elem |}.
End builder.

(* ===================================================================== *)
(** ** video_handler.py and video_processor.py *)
(* ===================================================================== *)

(** The host's [DocumentHandler] interface: the two methods the host and
    the launcher call.  Either may raise. *)
Record DocumentHandler : Type := mkHandler {
  can_handle : Path → result bool;
  convert_to_dita : Path → gmap string string → result DitaContext
}.

(** The host's [ServiceRegistry], as the launcher uses it:
    [find_handler_for_file(f)] answers with a handler or with [None], or it
    raises.  The registry is not part of this repository. *)
Record ServiceRegistry : Type := mkRegistry {
  find_handler_for_file : Path → result (option DocumentHandler)
}.

Definition _supported_extensions : list string :=
  [".mp4"; ".avi"; ".mov"; ".wmv"; ".webm"; ".mkv"].

(** [VideoProcessor.extract_metadata]. *)
Definition extract_metadata (env : Env) (video_path : Path) : result video_info :=
  match extract_metadata_error env video_path with
  | Some e => inl e
  | None => inr {| filename := name video_path;
                   extension := lower (suffix video_path) |}
  end.

(** [topic_el.find('title')]: the first child named [title], if any. *)
Definition find_title (topic : xml) : option xml :=
  let 'XML _ _ _ cs := topic in
  head (filter (λ c, xml_tag c = "title") cs).

(** The topic after the text of its first [title] child became [text]. *)
Definition retitle (text : option string) (topic : xml) : xml :=
  let 'XML t a x cs := topic in
  XML t a x
    ((fix go (l : list xml) : list xml :=
        match l with
        | [] => []
        | XML "title" a' _ cs' :: r => XML "title" a' text cs' :: r
        | c :: r => c :: go r
        end) cs).

(** The loop of [convert_to_dita] that sets every topic title to the file
    stem.  lxml's text setter removes the old text before it checks the new
    one, so an assignment that raises leaves the title without text; the
    exception ends the loop and is swallowed. *)
Fixpoint retitle_all (title : string) (items : list (string * xml))
    : list (string * xml) :=
  match items with
  | [] => []
  | (fname, topic_el) :: rest =>
      match find_title topic_el with
      | None => (fname, topic_el) :: retitle_all title rest
      | Some _ =>
          if xml_compatible title
          then (fname, retitle (Some title) topic_el) :: retitle_all title rest
          else (fname, retitle None topic_el) :: rest
      end
  end.

Section handler.
Context (env : Env) (cfg : Config).

(** [VideoDocumentHandler.can_handle].  A [Path] is always truthy, so the
    test [not file_path] never holds. *)
Definition video_can_handle (file_path : Path) : result bool :=
  found ← path_exists env file_path;
  if negb found then inr false
  else
    let extension := lower (suffix file_path) in
    inr (bool_decide (extension ∈ _supported_extensions)).

(** The [try] block of [VideoDocumentHandler.convert_to_dita]. *)
Definition convert_steps (file_path : Path) (metadata : gmap string string)
    : result DitaContext :=
  if negb (validate_format env file_path)
  then inl (ValueError ("Unsupported or corrupted video file: "
                        +:+ path_str file_path))
  else
    vi ← extract_metadata env file_path;
    context ← create_dita_context env cfg metadata file_path vi;
    let title := stem (PurePosixPath (filename vi)) in
    inr {| topics := retitle_all title (topics context);
           images := images context;
           videos := videos context;
           video_info_map := video_info_map context;
           ditamap_root := ditamap_root context |}.

(** [VideoDocumentHandler.convert_to_dita]: whatever the [try] block
    raises is raised again with the file path and the cause in its text. *)
Definition video_convert_to_dita (file_path : Path)
    (metadata : gmap string string) : result DitaContext :=
  match validate_file_exists env file_path with
  | Some e => inl e
  | None =>
      match convert_steps file_path metadata with
      | inr context => inr context
      | inl e =>
          inl (Exception ("Failed to convert video " +:+ path_str file_path
                          +:+ ": " +:+ str_exn e))
      end
  end.

Definition VideoDocumentHandler : DocumentHandler :=
  {| can_handle := video_can_handle;
     convert_to_dita := video_convert_to_dita |}.
End handler.

(** A lookup as a host makes it over its registered handlers: the first
    that accepts the file.  When [can_handle] raises, [on_error] is the
    exception the lookup lets through; without one the handler is passed
    over. *)
Fixpoint lookup_handler (on_error : exn → option exn)
    (handlers : list DocumentHandler) (f : Path)
    : result (option DocumentHandler) :=
  match handlers with
  | [] => inr None
  | h :: rest =>
      match can_handle h f with
      | inr true => inr (Some h)
      | inr false => lookup_handler on_error rest f
      | inl e =>
          match on_error e with
          | Some e' => inl e'
          | None => lookup_handler on_error rest f
          end
      end
  end.

(* ===================================================================== *)
(** ** launcher.py: the aggregation *)
(* ===================================================================== *)

(** The project under construction ([combined], the host's [DitaContext]):
    the merged dicts, the metadata bag, [plugin_data] (its [_source_plugin]
    entry and the per-video index, [None] while
    [plugin_data['orlando-video-plugin']] does not exist) and the map, an
    arena with the index of its root. *)
Record Combined : Type := mkCombined {
  c_topics : gmap string xml;
  c_images : gmap string (list Byte.byte);
  c_videos : gmap string (list Byte.byte);
  c_metadata : gmap string string;
  c_source_plugin : string;
  c_video_info_map : option (gmap string (gmap string string));
  c_elements : list element;
  c_ditamap_root : nat
}.

Definition dq : string := String (ascii_of_N 34) "".

Definition doctype_map : string :=
  "<!DOCTYPE map PUBLIC " +:+ dq +:+ "-//OASIS//DTD DITA Map//EN" +:+ dq
  +:+ " " +:+ dq +:+ "./dtd/technicalContent/dtd/map.dtd" +:+ dq +:+ ">".

Definition doctype_concept : string :=
  "<!DOCTYPE concept PUBLIC " +:+ dq +:+ "-//OASIS//DTD DITA 1.3 Concept//EN"
  +:+ dq +:+ " " +:+ dq +:+ "../dtd/technicalContent/dtd/concept.dtd" +:+ dq
  +:+ ">".

(** The loop [for tname, topic_el in ctx.topics.items()], which also fills
    [rename_map]. *)
Fixpoint merge_topics (items : list (string * xml)) (dst : gmap string xml)
    (rename_map : gmap string string) : gmap string xml * gmap string string :=
  match items with
  | [] => (dst, rename_map)
  | (tname, topic_el) :: rest =>
      let safe_name := _dedup_name tname dst in
      merge_topics rest (<[safe_name := topic_el]> dst)
        (if decide (safe_name ≠ tname) then <[tname := safe_name]> rename_map
         else rename_map)
  end.

(** The loops over [ctx.images], [ctx.videos] and the per-video index:
    every item is stored under the name [_dedup_name] gives it in the
    destination. *)
Fixpoint merge_items {V} (items : list (string * V)) (dst : gmap string V)
    : gmap string V :=
  match items with
  | [] => dst
  | (k, v) :: rest => merge_items rest (<[_dedup_name k dst := v]> dst)
  end.

(** The keys the loop of [merge_items] stores the items under, in order. *)
Fixpoint final_keys {V} (items : list (string * V)) (dst : gmap string V)
    : list string :=
  match items with
  | [] => []
  | (k, v) :: rest =>
      _dedup_name k dst :: final_keys rest (<[_dedup_name k dst := v]> dst)
  end.

(** Lines 277 to 302 of [_convert_many]: the dicts of one result are merged
    into the project. *)
Definition merge_context (combined : Combined) (ctx : DitaContext)
    : Combined * gmap string string :=
  let '(topics', rename_map) := merge_topics (topics ctx) (c_topics combined) ∅ in
  ({| c_topics := topics';
      c_images := merge_items (images ctx) (c_images combined);
      c_videos := merge_items (videos ctx) (c_videos combined);
      c_metadata := c_metadata combined;
      c_source_plugin := c_source_plugin combined;
      c_video_info_map :=
        match video_info_map ctx with
        | [] => c_video_info_map combined
        | src_map =>
            Some (merge_items src_map (default ∅ (c_video_info_map combined)))
        end;
      c_elements := c_elements combined;
      c_ditamap_root := c_ditamap_root combined |},
   rename_map).

(** [VideoWorkflowLauncher._ensure_folder_nodes]: the loop over the parts. *)
Fixpoint ensure_loop (parts path_accum : list string) (parent : nat)
    (σ : list element) (cache : gmap string nat)
    : result (nat * list element * gmap string nat) :=
  match parts with
  | [] => inr (parent, σ, cache)
  | part :: rest =>
      let path_accum := path_accum ++ [part] in
      let key := join "/" path_accum in
      match cache !! key with
      | Some node => ensure_loop rest path_accum node σ cache
      | None =>
          let '(head, σ) := ET.SubElement parent "topichead" σ in
          let '(meta, σ) := ET.SubElement head "topicmeta" σ in
          let '(nav, σ) := ET.SubElement meta "navtitle" σ in
          σ ← ET.set_text nav part σ;
          ensure_loop rest path_accum head σ (<[key := head]> cache)
      end
  end.

(** [VideoWorkflowLauncher._ensure_folder_nodes]. *)
Definition _ensure_folder_nodes (map_el : nat) (cache : gmap string nat)
    (rel_key : string) (σ : list element)
    : result (nat * list element * gmap string nat) :=
  match cache !! rel_key with
  | Some node => inr (node, σ, cache)
  | None =>
      ensure_loop (filter (λ p, p ≠ "") (split "/" rel_key)) [] map_el σ cache
  end.

(** Lines 304 to 314: the reference of the per-file map, or else the first
    topic of the result. *)
Definition child_href (ctx : DitaContext) : option string :=
  let href := tref ← ditamap_root ctx; find_topicref_href tref in
  match href with
  | Some (String c r) => href
  | _ =>
      match topics ctx with
      | (tname, _) :: _ => Some ("topics/" +:+ tname)
      | [] => href
      end
  end.

(** Lines 325 to 336: the reference node is appended to [parent]; its target
    is the final name of the topic, its label the stem of the file.  When a
    call in the [try] block raises, the target is set to [href] as found. *)
Definition append_topicref (f : Path) (href : string)
    (rename_map : gmap string string) (parent : nat) (σ : list element)
    : result (list element) :=
  let '(tref, σ) := ET.SubElement parent "topicref" σ in
  let base := basename href in
  let new_base := default base (rename_map !! base) in
  match ET.set tref "href" ("topics/" +:+ new_base) σ with
  | inl _ => ET.set tref "href" href σ
  | inr σ =>
      let '(topicmeta, σ) := ET.SubElement tref "topicmeta" σ in
      let '(nav, σ) := ET.SubElement topicmeta "navtitle" σ in
      match ET.set_text nav (stem f) σ with
      | inl _ => ET.set tref "href" href σ
      | inr σ => inr σ
      end
  end.

(** Lines 317 to 323: the node under which the reference of [f] goes.
    [os.sep] is the slash, so [str(rel).replace(os.sep, '/')] is [str(rel)]. *)
Definition target_node (root_folder : option Path) (f : Path) (map_el : nat)
    (σ : list element) (folder_nodes : gmap string nat)
    : result (nat * list element * gmap string nat) :=
  match root_folder with
  | None => inr (map_el, σ, folder_nodes)
  | Some root_folder =>
      rel ← relative_to f root_folder;
      let rel := parent rel in
      let rel_key :=
        if bool_decide (path_str rel ≠ ".") then path_str rel else "" in
      if bool_decide (rel_key ≠ "")
      then _ensure_folder_nodes map_el folder_nodes rel_key σ
      else inr (map_el, σ, folder_nodes)
  end.

Definition with_elements (combined : Combined) (σ : list element) : Combined :=
  {| c_topics := c_topics combined;
     c_images := c_images combined;
     c_videos := c_videos combined;
     c_metadata := c_metadata combined;
     c_source_plugin := c_source_plugin combined;
     c_video_info_map := c_video_info_map combined;
     c_elements := σ;
     c_ditamap_root := c_ditamap_root combined |}.

Section convert_many.
Context (service_registry : ServiceRegistry).
Context (root_folder : option Path).

(** The part of the loop body that follows the conversion of [f]. *)
Definition merge_file (combined : Combined) (folder_nodes : gmap string nat)
    (f : Path) (ctx : DitaContext) : result (Combined * gmap string nat) :=
  let '(combined, rename_map) := merge_context combined ctx in
  match child_href ctx with
  | Some (String c r) =>
      let href := String c r in
      '(parent, σ, folder_nodes) ←
        target_node root_folder f (c_ditamap_root combined)
          (c_elements combined) folder_nodes;
      σ ← append_topicref f href rename_map parent σ;
      inr (with_elements combined σ, folder_nodes)
  | _ => inr (combined, folder_nodes)
  end.

(** The body of [for f in files]. *)
Definition convert_file (combined : Combined)
    (folder_nodes : gmap string nat) (f : Path)
    : result (Combined * gmap string nat) :=
  handler ← find_handler_for_file service_registry f;
  match handler with
  | None => inr (combined, folder_nodes)
  | Some handler =>
      let md : gmap string string :=
        {[ "manual_title" :=
             default "Videos" (c_metadata combined !! "manual_title") ]} in
      ctx ← convert_to_dita handler f md;
      merge_file combined folder_nodes f ctx
  end.

Fixpoint convert_files (files : list Path) (combined : Combined)
    (folder_nodes : gmap string nat) : result (Combined * gmap string nat) :=
  match files with
  | [] => inr (combined, folder_nodes)
  | f :: rest =>
      '(combined, folder_nodes) ← convert_file combined folder_nodes f;
      convert_files rest combined folder_nodes
  end.

(** The project before the first file: metadata defaults, the provenance
    tag and the root [map] element.  [map_el.set('xml:lang', 'en-US')]
    raises (the name holds a colon) and the exception is swallowed. *)
Definition initial_combined (plugin_id today : string) : Combined :=
  let '(map_el, σ) := ET.Element "map" [] in
  let σ := match ET.set map_el "xml:lang" "en-US" σ with
           | inr σ' => σ'
           | inl _ => σ
           end in
  {| c_topics := ∅;
     c_images := ∅;
     c_videos := ∅;
     c_metadata :=
       <["doctype_concept" := doctype_concept]>
         (<["doctype_map" := doctype_map]>
            (<["revision_date" := today]>
               {[ "manual_title" := "VIDEO-LIBRARY" ]}));
     c_source_plugin := plugin_id;
     c_video_info_map := None;
     c_elements := σ;
     c_ditamap_root := map_el |}.

(** [VideoWorkflowLauncher._convert_many]. *)
Definition _convert_many (plugin_id today : string) (files : list Path)
    : result Combined :=
  '(combined, _) ← convert_files files (initial_combined plugin_id today) ∅;
  inr combined.
End convert_many.

(* ===================================================================== *)
(** ** video_preview_panel.py: clock labels and seeking *)
(* ===================================================================== *)

(** [f"{n:02d}"] for [n >= 0]: the decimal digits, behind a zero when there
    is only one. *)
Definition fmt_02d (n : Z) : string :=
  let s := str_of_nat (Z.to_nat n) in
  if bool_decide (String.length s < 2)%nat then "0" +:+ s else s.

(** [VideoPreviewPanel._format_ms].  On an [int] no call of the [try] block
    raises, so the handler that answers [00:00] is never entered. *)
Definition _format_ms (ms : Z) : string :=
  let s := Z.max 0 (ms / 1000) in
  let '(m, s) := (s / 60, s mod 60)%Z in
  let '(h, m) := (m / 60, m mod 60)%Z in
  if bool_decide (h ≠ 0%Z)
  then fmt_02d h +:+ ":" +:+ fmt_02d m +:+ ":" +:+ fmt_02d s
  else fmt_02d m +:+ ":" +:+ fmt_02d s.

(** The VLC player, as the panel queries it: [get_length()] and
    [get_time()] answer with a number of milliseconds or with [None], or
    they raise.  The answers do not change within one handler. *)
Record Player : Type := mkPlayer {
  get_length : result (option Z);
  get_time : result (option Z)
}.

(** [VideoPreviewPanel._get_length_ms]. *)
Definition _get_length_ms (_vlc_player : option Player) : Z :=
  match _vlc_player with
  | Some p =>
      match get_length p with
      | inr length => Z.max 0 (default 0%Z length)
      | inl _ => 0
      end
  | None => 0
  end.

(** [VideoPreviewPanel._clamp_time]. *)
Definition _clamp_time (_vlc_player : option Player) (ms : Z) : Z :=
  let length := _get_length_ms _vlc_player in
  if bool_decide (length ≤ 0)%Z then Z.max 0 ms
  else Z.min (Z.max 0 ms) length.

(** [_seek_ms] (and [_safe_set_time]), [_nudge] and [_jump_to_end]: the time
    each hands to [set_time], if it makes the call. *)
Definition _seek_ms (_vlc_player : option Player) (ms : Z) : option Z :=
  match _vlc_player with
  | None => None
  | Some _ => Some (_clamp_time _vlc_player ms)
  end.

Definition _nudge (_vlc_player : option Player) (delta_ms : Z) : option Z :=
  match _vlc_player with
  | None => None
  | Some p =>
      match get_time p with
      | inr cur => Some (_clamp_time _vlc_player (default 0 cur + delta_ms)%Z)
      | inl _ => None
      end
  end.

Definition _jump_to_end (_vlc_player : option Player) : option Z :=
  let length := _get_length_ms _vlc_player in
  if bool_decide (0 < length)%Z
  then Some (_clamp_time _vlc_player (length - 200)%Z)
  else None.

(* ===================================================================== *)
(** ** video_preview_panel.py: the videos of a topic *)
(* ===================================================================== *)

Module Panel.
(** An entry of [VideoPreviewPanel._items]. *)
Record item : Type := mkItem {
  display : string;
  filename : string;
  href : string
}.
End Panel.

(** [VideoPreviewPanel._strip_media]. *)
Definition _strip_media (href : string) : string :=
  if String.prefix "media/" href then str_drop 6 href else href.

(** The body of the loop [for v in vids] of [_populate_items]: the item a
    video element gives, if it gives one. *)
Definition panel_item (v : xml) : option Panel.item :=
  let href :=
    if bool_decide (lower (xml_tag v) = "video")
    then or_else (xml_get "href" v) ""
    else
      let data := or_else (xml_get "data" v) (or_else (xml_get "href" v) "") in
      let name_only :=
        if bool_decide (data = "") then "" else name (PurePosixPath data) in
      if bool_decide (name_only = "") then "" else "media/" +:+ name_only in
  if bool_decide (href = "") then None
  else
    let name := name (PurePosixPath href) in
    Some {| Panel.display := stem (PurePosixPath name);
            Panel.filename := name;
            Panel.href := href |}.

(** [VideoPreviewPanel._populate_items]: the items of the elements that
    [.//video] and [.//object[contains(@outputclass, "video")]] select in
    the topic, in that order; none without a topic. *)
Definition _populate_items (_topic : option xml) : list Panel.item :=
  match _topic with
  | None => []
  | Some topic =>
      omap panel_item
        (filter (λ d, xml_tag d = "video") (descendants topic)
         ++ filter (λ d, is_video_object d = true) (descendants topic))
  end.

(** The lookup of [_on_select]: the key is the [href] of the item without
    its [media/] prefix.  The file name and its bytes are what is written
    to the temporary file; without a blob, or with an empty one, the status
    becomes [Media not found in context]. *)
Definition selected_media (_videos : gmap string (list Byte.byte))
    (item : Panel.item) : option (string * list Byte.byte) :=
  let filename := _strip_media (Panel.href item) in
  match _videos !! filename with
  | Some (b :: data) => Some (filename, b :: data)
  | _ => None
  end.

(* ===================================================================== *)
(** ** video_processor.py: the format table *)
(* ===================================================================== *)

Record format_info : Type := mkFormatInfo {
  fi_name : string;
  fi_description : string;
  fi_mime_type : string;
  fi_common_codecs : list string
}.

(** The table of [VideoProcessor.get_format_info]. *)
Definition format_info_table : list (string * format_info) :=
  [(".mp4", {| fi_name := "MP4"; fi_description := "MPEG-4 Part 14";
               fi_mime_type := "video/mp4";
               fi_common_codecs := ["H.264"; "H.265"] |});
   (".avi", {| fi_name := "AVI"; fi_description := "Audio Video Interleave";
               fi_mime_type := "video/x-msvideo";
               fi_common_codecs := ["MPEG-4"; "DivX"; "Xvid"] |});
   (".mov", {| fi_name := "MOV"; fi_description := "QuickTime Movie";
               fi_mime_type := "video/quicktime";
               fi_common_codecs := ["H.264"; "ProRes"] |});
   (".wmv", {| fi_name := "WMV"; fi_description := "Windows Media Video";
               fi_mime_type := "video/x-ms-wmv";
               fi_common_codecs := ["WMV"; "VC-1"] |});
   (".webm", {| fi_name := "WebM"; fi_description := "WebM Video";
                fi_mime_type := "video/webm";
                fi_common_codecs := ["VP8"; "VP9"] |});
   (".mkv", {| fi_name := "MKV"; fi_description := "Matroska Video";
               fi_mime_type := "video/x-matroska";
               fi_common_codecs := ["H.264"; "H.265"; "VP9"] |})].

(** [VideoProcessor.get_format_info]: the entry of the table for the lowered
    suffix.  Where the table has none, the method answers with a dict it
    makes from the upper-cased extension, whose [mime_type] is
    [video/unknown]; [format_mime_type] is the [mime_type] of the answer in
    both cases. *)
Definition known_format (video_path : Path) : option format_info :=
  let extension := lower (suffix video_path) in
  assoc extension format_info_table.

Definition format_mime_type (video_path : Path) : string :=
  match known_format video_path with
  | Some info => fi_mime_type info
  | None => "video/unknown"
  end.

(* ===================================================================== *)
(** ** launcher.py: the files of a batch *)
(* ===================================================================== *)

(** An entry of the plugin metadata's [supported_formats], as the launcher
    reads it: something that is no dict, or a dict with the value of its
    [extension] key, if it has one. *)
Inductive format_entry : Type :=
| NotADict
| FormatDict (extension : option string).

(** The host, as the launcher questions it about extensions. *)
Record Host : Type := mkHost {
  (** [app_context.plugin_manager.get_plugin_metadata(plugin_id)
      .supported_formats]: the list, [None] when the attribute is empty, or
      the exception raised on the way *)
  supported_formats : string → result (option (list format_entry));
  (** [service_registry.get_document_handlers()], when the registry has the
      method: for every handler the answer of [get_plugin_for_handler] and
      the answer of its [get_supported_extensions()] *)
  document_handlers :
    option (result (list (result (option string) * result (list string))))
}.

(** [f.get('extension')] of an entry that passes the test
    [isinstance(f, dict) and f.get('extension')]. *)
Definition truthy_extension (f : format_entry) : option string :=
  match f with
  | FormatDict (Some (String c r)) => Some (String c r)
  | _ => None
  end.

(** The loop over the registered handlers: an exception of
    [get_plugin_for_handler] ends it, one of [get_supported_extensions] is
    passed over. *)
Fixpoint handler_extensions (plugin_id : string)
    (handlers : list (result (option string) * result (list string)))
    (exts : list string) : result (list string) :=
  match handlers with
  | [] => inr exts
  | (pid, h_exts) :: rest =>
      pid ← pid;
      if bool_decide (pid = Some plugin_id)
      then handler_extensions plugin_id rest
             match h_exts with
             | inr l => exts ++ l
             | inl _ => exts
             end
      else handler_extensions plugin_id rest exts
  end.

(** [sorted(s)] for a set of strings [s], given by a list of its elements:
    strings are ordered by their code points. *)
Definition str_le (a b : string) : Prop := String.leb a b = true.

Global Instance str_le_dec (a b : string) : Decision (str_le a b) :=
  decide (String.leb a b = true).

Global Instance str_le_total : Total str_le.
Proof. intros a b. apply String.leb_total. Qed.

Definition sorted_set (l : list string) : list string :=
  merge_sort str_le (remove_dups l).

(** [VideoWorkflowLauncher._get_supported_extensions_for_plugin]. *)
Definition _get_supported_extensions_for_plugin (host : Host)
    (plugin_id : string) : list string :=
  let answer : result (list string) :=
    formats ← supported_formats host plugin_id;
    let exts := omap truthy_extension (default [] formats) in
    exts ← match exts, document_handlers host with
           | [], Some handlers =>
               handlers ← handlers;
               handler_extensions plugin_id handlers []
           | _, _ => inr exts
           end;
    inr (sorted_set (lower <$> filter (λ e, e ≠ "") exts)) in
  match answer with
  | inr exts => exts
  | inl _ => []
  end.

(** [Path(dirpath) / name]: a name that begins with a slash replaces the
    path, any other is parsed and appended. *)
Definition joinpath (p : Path) (s : string) : Path :=
  let q := PurePosixPath s in
  if bool_decide (root q ≠ "") then q
  else {| root := root p; parts := parts p ++ parts q |}.

(** The files that [_start_folder_flow] hands to the conversion: [walk] is
    what [os.walk(root)] yields, for every directory its path and the names
    of its files. *)
Definition folder_flow_files (walk : list (string * list string))
    (exts : list string) : list Path :=
  '(dirpath, filenames) ← walk;
  name ← filenames;
  let p := joinpath (PurePosixPath dirpath) name in
  if bool_decide (lower (suffix p) ∈ exts) then [p] else [].

(* ===================================================================== *)
(** ** Vocabulary of the properties *)
(* ===================================================================== *)

(** The last character of a string. *)
Fixpoint last_char (s : string) : option ascii :=
  match s with
  | "" => None
  | String c r =>
      match r with
      | "" => Some c
      | String _ _ => last_char r
      end
  end.

(** [a] is a hyphen or a character of the lowered stem. *)
Definition from_stem (st : string) (a : ascii) : bool :=
  is_hyphen a || char_in a (lower st).

(** The characters of [s] that satisfy [p], in their order. *)
Fixpoint keep (p : ascii → bool) (s : string) : string :=
  match s with
  | "" => ""
  | String c r => if p c then String c (keep p r) else keep p r
  end.

(** The first character of [s] satisfies [p]. *)
Definition starts_with (p : ascii → bool) (s : string) : bool :=
  match s with
  | String c _ => p c
  | "" => false
  end.

(** The cleaned stem of [_generate_topic_id]: what the loop over the
    characters of the lowered stem and the removal of doubled hyphens leave
    of the stem [st]. *)
Definition cleaned_stem (st : string) : string :=
  collapse_hyphens (clean_chars (lower st)).

(** No character of [st] survives the cleaning loop of
    [_generate_topic_id]. *)
Definition no_usable_char (st : string) : bool :=
  forall_str (λ a, negb (isalnum a) && negb (char_in a " -_.")) st.

(** The split the specification words for the naming policy: at the last
    dot of the name, wherever it stands. *)
Definition split_last_dot (name : string) : string * string :=
  let i := rfind "." name in
  if bool_decide (i < 0)%Z then (name, "")
  else (str_take (Z.to_nat i) name, str_drop (Z.to_nat i) name).

(** A node with a display label, as [append_topicref] and
    [_ensure_folder_nodes] create it at index [n]: the node, its
    [topicmeta] and the [navtitle] that holds the label. *)
Definition labelled (t : string) (a : gmap string string) (label : string)
    (n : nat) : list element :=
  [ {| tag := t; attrib := a; text := None; children := [S n] |};
    {| tag := "topicmeta"; attrib := ∅; text := None; children := [S (S n)] |};
    {| tag := "navtitle"; attrib := ∅; text := Some label; children := [] |} ].

(** The tree after a labelled node became the last child of [parent]. *)
Definition attach (parent : nat) (t : string) (a : gmap string string)
    (label : string) (σ : list element) : list element :=
  alter (ET.add_child (List.length σ)) parent σ
  ++ labelled t a label (List.length σ).

(** The same with a [navtitle] that may have no text, as [append_topicref]
    leaves it when the assignment of the label raises. *)
Definition labelled_opt (t : string) (a : gmap string string)
    (label : option string) (n : nat) : list element :=
  [ {| tag := t; attrib := a; text := None; children := [S n] |};
    {| tag := "topicmeta"; attrib := ∅; text := None; children := [S (S n)] |};
    {| tag := "navtitle"; attrib := ∅; text := label; children := [] |} ].

Definition attach_opt (parent : nat) (t : string) (a : gmap string string)
    (label : option string) (σ : list element) : list element :=
  alter (ET.add_child (List.length σ)) parent σ
  ++ labelled_opt t a label (List.length σ).

(** [σ'] is [σ] grown: the elements of [σ] are still there, with the same
    tag, attributes and text, and with their children followed by new ones. *)
Definition grows (σ σ' : list element) : Prop :=
  ∀ i e, σ !! i = Some e →
    ∃ e', σ' !! i = Some e' ∧ tag e' = tag e ∧ attrib e' = attrib e
          ∧ text e' = text e ∧ children e `prefix_of` children e'.

(** [child] is a child of the node [parent]. *)
Definition is_child (σ : list element) (parent child : nat) : Prop :=
  ∃ e, σ !! parent = Some e ∧ child ∈ children e.

(** The node [id] has tag [t], and its first child is a [topicmeta] whose
    first child is a [navtitle] with text [label]; the three stand at
    consecutive indices, as [labelled] puts them. *)
Definition labelled_at (σ : list element) (id : nat) (t label : string) : Prop :=
  ∃ e m v,
    σ !! id = Some e ∧ tag e = t ∧ head (children e) = Some (S id)
    ∧ σ !! S id = Some m ∧ tag m = "topicmeta"
    ∧ head (children m) = Some (S (S id))
    ∧ σ !! S (S id) = Some v ∧ tag v = "navtitle" ∧ text v = Some label.

(** The same for a label that may be missing. *)
Definition labelled_opt_at (σ : list element) (id : nat) (t : string)
    (label : option string) : Prop :=
  ∃ e m v,
    σ !! id = Some e ∧ tag e = t ∧ head (children e) = Some (S id)
    ∧ σ !! S id = Some m ∧ tag m = "topicmeta"
    ∧ head (children m) = Some (S (S id))
    ∧ σ !! S (S id) = Some v ∧ tag v = "navtitle" ∧ text v = label.

(** What [pathlib] guarantees of the components of a path. *)
Definition is_component (x : string) : Prop :=
  x ≠ "" ∧ x ≠ "." ∧ forall_str (λ c, negb (is_slash c)) x = true.

Definition wf_path (p : Path) : Prop := Forall is_component (parts p).

(** The registry of a host that asks the given handlers in order and lets
    every exception of [can_handle] through. *)
Definition registry_of (handlers : list DocumentHandler) : ServiceRegistry :=
  {| find_handler_for_file := lookup_handler Some handlers |}.

(** A host in which this plugin's handler is the registered one. *)
Definition video_registry (env : Env) (cfg : Config) : ServiceRegistry :=
  {| find_handler_for_file := λ f,
       lookup_handler (lookup_error env f) [VideoDocumentHandler env cfg] f |}.

(** The lookup answers [None]: the launcher passes the file over. *)
Definition passes_over (r : result (option DocumentHandler)) : bool :=
  match r with
  | inr None => true
  | _ => false
  end.

(** The files of a batch that the registry does not pass over: those for
    which the lookup answers anything but [None]. *)
Definition handled (service_registry : ServiceRegistry)
    (files : list Path) : list Path :=
  filter (λ f, passes_over (find_handler_for_file service_registry f) = false)
         files.

(** The files of a batch that the registered video handler accepts. *)
Definition accepted (env : Env) (files : list Path) : list Path :=
  filter (λ f, video_can_handle env f = inr true) files.

(** The target of a reference node exists: its [href] is [topics/] followed
    by a key of the topics. *)
Definition target_exists (topics : gmap string xml) (e : element) : Prop :=
  ∃ k, attrib e !! "href" = Some ("topics/" +:+ k) ∧ is_Some (topics !! k).

Definition folder_tags : list string := ["topichead"; "topicmeta"; "navtitle"].

(** One topic and one reference node for every accepted file so far, and
    every reference node names a topic of the project. *)
Definition counted (c : Combined) (done : list Path) : Prop :=
  size (c_topics c) = List.length done
  ∧ List.length (nodes_with_tag (c_elements c) "topicref") = List.length done
  ∧ ∀ e, e ∈ c_elements c → tag e = "topicref" → target_exists (c_topics c) e.

(** The metadata the launcher hands to the handler for every file. *)
Definition batch_metadata : gmap string string :=
  {[ "manual_title" := "VIDEO-LIBRARY" ]}.

(** The label the launcher gives the reference node of [f]: the stem of the
    file, or none when lxml refuses the stem as text. *)
Definition stored_label (f : Path) : option string :=
  if xml_compatible (stem f) then Some (stem f) else None.

(** Flat mode with any handlers: the children of the map root are
    reference nodes, one for each file of [done] in order, each with the
    label that could be stored for its file. *)
Definition flat_refs (c : Combined) (done : list Path) : Prop :=
  c_ditamap_root c = 0
  ∧ ∃ root_e,
      c_elements c !! 0 = Some root_e ∧ tag root_e = "map"
      ∧ Forall2 (λ id f,
                   labelled_opt_at (c_elements c) id "topicref" (stored_label f))
                (children root_e) done.

(** Every conversion result of the batch brings a reference: the launcher
    finds a target in the map of the result or takes its first topic, as it
    does for a converter that keeps its contract (one topic, and a map with
    one reference to it). *)
Definition brings_reference (service_registry : ServiceRegistry)
    (files : list Path) : Prop :=
  ∀ f handler ctx,
    f ∈ files →
    find_handler_for_file service_registry f = inr (Some handler) →
    convert_to_dita handler f batch_metadata = inr ctx →
    ∃ c r, child_href ctx = Some (String c r).

(** [label] is the name [nm] without its extension.  The extension is the
    last dot of the name with what follows it, unless that dot begins or
    ends the name; a name without such a dot has no extension. *)
Definition no_dot (s : string) : bool :=
  forall_str (λ x, negb (bool_decide (x = "."%char))) s.

Definition without_extension (nm label : string) : Prop :=
  (∃ ext, nm = label +:+ String "." ext
          ∧ label ≠ "" ∧ ext ≠ "" ∧ no_dot ext = true)
  ∨ (nm = label
     ∧ ∀ a ext, nm = a +:+ String "." ext → no_dot ext = true →
                a = "" ∨ ext = "").

(** The rename map never turns a name that lxml accepts into one that it
    refuses. *)
Definition renames_storable (rename_map : gmap string string) : Prop :=
  ∀ k v, rename_map !! k = Some v →
         xml_compatible k = true → xml_compatible v = true.

(** A small world for examples: nothing exists at [missing.mp4], [dir.mp4]
    is a directory, the directory of [locked.mp4] may not be searched, and
    every other path holds a readable video whose bytes tell the directory
    [b] from the others ([bad.mp4] is no video).  The host passes a handler
    over when its [can_handle] raises. *)
Definition sample_env : Env :=
  {| stat := λ p,
       if bool_decide (name p = "missing.mp4") then NotFound
       else if bool_decide (name p = "dir.mp4") then Found Directory
       else if bool_decide (name p = "locked.mp4")
       then StatError (OSError ("[Errno 13] Permission denied: "
                                +:+ repr (path_str p)))
       else Found RegularFile;
     lookup_error := λ _ _, None;
     validate_file_exists := λ _, None;
     validate_format := λ p, negb (bool_decide (name p = "bad.mp4"));
     extract_metadata_error := λ _, None;
     read_bytes := λ p, inr (if bool_decide ("b" ∈ parts p)
                             then [Byte.x02] else [Byte.x01]);
     utc_today := "2025-01-01" |}.

Definition sample_cfg : Config := {| preserve_original_filenames := true |}.

Definition sample_root : Path := PurePosixPath "/R".

Definition sample_files : list Path :=
  [PurePosixPath "/R/a/clip.mp4"; PurePosixPath "/R/notes.txt";
   PurePosixPath "/R/b/clip.mp4"].

(** The segments of a relative directory path, as [_ensure_folder_nodes]
    takes them from its key, and the cache keys of its prefixes: the
    segments so far, joined by slashes. *)
Definition is_segment (x : string) : Prop :=
  x ≠ "" ∧ forall_str (λ c, negb (is_slash c)) x = true.

Definition segments (rel_key : string) : list string :=
  filter (λ p, p ≠ "") (split "/" rel_key).

Fixpoint prefix_keys_from (path_accum parts : list string) : list string :=
  match parts with
  | [] => []
  | part :: rest =>
      join "/" (path_accum ++ [part])
      :: prefix_keys_from (path_accum ++ [part]) rest
  end.

Definition prefix_keys (parts : list string) : list string :=
  prefix_keys_from [] parts.

(** The states of the map and of the folder cache within one run: the run
    starts from the bare root and an empty cache; the resolver is called,
    and labelled reference nodes are attached below existing nodes. *)
Inductive run_state : list element → gmap string nat → Prop :=
| run_start : run_state [ET.new_element "map"] ∅
| run_resolve σ cache rel_key node σ' cache' :
    run_state σ cache →
    _ensure_folder_nodes 0 cache rel_key σ = inr (node, σ', cache') →
    run_state σ' cache'
| run_attach σ cache parent a label :
    run_state σ cache → parent < List.length σ →
    run_state (attach parent "topicref" a label σ) cache.

(** What the cache says about the tree: every cached node exists, is the
    only one for its key, is a folder node labelled with the last segment
    of its key, and hangs below the node cached for the rest of the key
    (below the root when the key has one segment); and the tree has no
    other folder nodes. *)
Definition cached_folder (σ : list element) (cache : gmap string nat)
    (key : string) (id : nat) : Prop :=
  ∃ ps p,
    key = join "/" (ps ++ [p]) ∧ Forall is_segment (ps ++ [p])
    ∧ labelled_at σ id "topichead" p
    ∧ ((ps = [] ∧ is_child σ 0 id)
       ∨ (ps ≠ [] ∧ ∃ pid, cache !! join "/" ps = Some pid ∧ is_child σ pid id)).

Definition folder_inv (σ : list element) (cache : gmap string nat) : Prop :=
  0 < List.length σ
  ∧ (∀ key id, cache !! key = Some id → id < List.length σ)
  ∧ List.length (nodes_with_tag σ "topichead") = size cache
  ∧ (∀ k1 k2 id, cache !! k1 = Some id → cache !! k2 = Some id → k1 = k2)
  ∧ (∀ key id, cache !! key = Some id → cached_folder σ cache key id).

(** A handler that reports per-video metadata for the files below the
    directory [b] only; every file yields the media name [clip.mp4]. *)
Definition sample_info : gmap string string :=
  {[ "duration_formatted" := "0:05" ]}.

Definition tooltip_handler : DocumentHandler :=
  {| can_handle := λ _, inr true;
     convert_to_dita := λ f _,
       inr {| topics := [("clip.dita", XML "concept" [("id", "clip")] None [])];
              images := [];
              videos := [("clip.mp4", if bool_decide ("b" ∈ parts f)
                                      then [Byte.x02] else [Byte.x01])];
              video_info_map :=
                if bool_decide ("b" ∈ parts f)
                then [("clip.mp4", sample_info)] else [];
              ditamap_root := None |} |}.

(** A handler of another plugin that keeps the contract of a conversion
    result: one topic, one media file and a map with one reference to the
    topic.  It accepts every file and names topic and media after the
    cleaned stem of the file. *)
Definition sanitising_handler : DocumentHandler :=
  {| can_handle := λ _, inr true;
     convert_to_dita := λ f _,
       let base := clean_chars (lower (stem f)) in
       inr {| topics := [(base +:+ ".dita",
                          XML "concept" [("id", base)] None
                            [XML "title" [] (Some base) []])];
              images := [];
              videos := [(base +:+ lower (suffix f), [Byte.x01])];
              video_info_map := [];
              ditamap_root :=
                Some (XML "map" [] None
                        [XML "topicref" [("href", "topics/" +:+ base +:+ ".dita")]
                           None []]) |} |}.

(** Two files whose stems differ in a control character only. *)
Definition control_char_files : list Path :=
  [PurePosixPath "/R/c.mp4"; PurePosixPath ("/R/c" +:+ String "001" ".mp4")].

(** The characters of a topic identifier. *)
Definition id_char (c : ascii) : bool := isalnum c || is_hyphen c.

(** Every media file that a topic of the project embeds is a key of the
    project's videos. *)
Definition media_resolve (c : Combined) : Prop :=
  ∀ k topic r,
    c_topics c !! k = Some topic → r ∈ media_refs topic →
    is_Some (c_videos c !! r).

(** Every element of the arena but the root is a child of an earlier one:
    the arena holds one tree, rooted at index 0, and nothing else. *)
Definition connected (σ : list element) : Prop :=
  ∀ i, 0 < i < List.length σ → ∃ p, p < i ∧ is_child σ p i.

(** Reading a clock label back: the fields between the colons are decimal
    numbers, the last one seconds, the one before it minutes, the one before
    that hours. *)
Definition parse_field (s : string) : option Z :=
  (λ d, Z.of_nat (Nat.of_uint d)) <$> NilEmpty.uint_of_string s.

Definition parse_clock (label : string) : option Z :=
  match split ":" label with
  | [m; s] => m ← parse_field m; s ← parse_field s; Some (m * 60 + s)%Z
  | [h; m; s] =>
      h ← parse_field h; m ← parse_field m; s ← parse_field s;
      Some (h * 3600 + m * 60 + s)%Z
  | _ => None
  end.

(** The first character of a string is a hyphen. *)
Definition starts_hyphen (s : string) : bool :=
  match s with
  | String c _ => is_hyphen c
  | "" => false
  end.

(** The characters of a manual reference: capital letters, digits and
    hyphens. *)
Definition ref_char (c : ascii) : bool :=
  in_range 65 90 c || in_range 48 57 c || is_hyphen c.

(** The MIME types of the builder's table. *)
Definition video_mime_types : list string :=
  ["video/mp4"; "video/x-msvideo"; "video/quicktime"; "video/x-ms-wmv";
   "video/webm"; "video/x-matroska"].

Definition is_dot (c : ascii) : bool := bool_decide (c = "."%char).

(** The topic document that [build_video_topic] returns, with the text of
    its title. *)
Definition video_topic (topic_id : string) (title : option string)
    (data mime : string) : xml :=
  XML "concept" [("id", topic_id)] None
    [XML "title" [] title [];
     XML "conbody" [] None
       [XML "object"
          [("data", data); ("outputclass", "video"); ("type", mime)] None
          [XML "param" [("name", "controls"); ("value", "true")] None []]]].

(** [topic.find('title').text]: the text of the first child named [title]. *)
Definition topic_title (topic : xml) : option string :=
  let 'XML _ _ _ cs := topic in
  match filter (λ c, xml_tag c = "title") cs with
  | XML _ _ text _ :: _ => text
  | [] => None
  end.

(** A player that knows the length of its media and its position. *)
Definition sample_player : Player :=
  {| get_length := inr (Some 90000%Z); get_time := inr (Some 88000%Z) |}.

(** The node [node] is reached from the root of the map through folder
    nodes labelled [dirs], one below the other. *)
Inductive reaches (σ : list element) : nat → list string → Prop :=
| reaches_root : reaches σ 0 []
| reaches_dir node dirs d child :
    reaches σ node dirs → is_child σ node child →
    labelled_at σ child "topichead" d →
    reaches σ child (dirs ++ [d]).

(** The reference node of [f] hangs below the folder nodes that spell the
    directories between [root_folder] and [f]. *)
Definition placed (root_folder : Path) (σ : list element) (f : Path) : Prop :=
  ∃ rest parent ref,
    root f = root root_folder
    ∧ parts f = parts root_folder ++ rest
    ∧ reaches σ parent (removelast rest)
    ∧ is_child σ parent ref
    ∧ labelled_at σ ref "topicref" (stem f).

(** A host whose plugin metadata names no formats and whose registry holds
    this plugin's handler. *)
Definition sample_host : Host :=
  {| supported_formats := λ _, inr None;
     document_handlers :=
       Some (inr [(inr (Some "other"), inr [".docx"]);
                  (inr (Some "orlando-video-plugin"), inr _supported_extensions)]) |}.

(** Every cached folder key spells segments that lxml accepts as text. *)
Definition storable_keys (cache : gmap string nat) : Prop :=
  ∀ key id, cache !! key = Some id →
    ∃ l, key = join "/" l ∧ l ≠ [] ∧ Forall is_segment l
         ∧ Forall (λ part, xml_compatible part = true) l.

(** The label of every reference node of the map is the title of the topic
    that the node refers to. *)
Definition labels_are_titles (c : Combined) : Prop :=
  ∀ id e, c_elements c !! id = Some e → tag e = "topicref" →
    ∃ k topic title,
      attrib e !! "href" = Some ("topics/" +:+ k)
      ∧ c_topics c !! k = Some topic
      ∧ topic_title topic = Some title
      ∧ navtitle (c_elements c) id = Some title.

(* ===================================================================== *)
(** * Properties *)
(* ===================================================================== *)

(** ** Characters and strings *)

(** Membership in an explicit list, case by case. *)
Ltac list_cases H :=
  repeat (apply elem_of_cons in H as [H|H]; [try (subst; done)|]);
  try (by apply elem_of_nil in H).

Ltac each_char c :=
  destruct c as [[] [] [] [] [] [] [] []]; vm_compute; try reflexivity;
  try discriminate; auto.

Lemma isalnum_lower_char c : isalnum (lower_char c) = isalnum c.
Proof. each_char c. Qed.

Lemma lower_char_not_alnum c : isalnum c = false → lower_char c = c.
Proof. each_char c. Qed.

Lemma isalpha_not_hyphen c : isalpha c = true → is_hyphen c = false.
Proof. each_char c. Qed.

Lemma str_app_cons c (s t : string) : String c s +:+ t = String c (s +:+ t).
Proof. reflexivity. Qed.

Lemma str_app_nil_l (t : string) : "" +:+ t = t.
Proof. reflexivity. Qed.

Ltac str_induction s :=
  induction s as [|? s ?]; rewrite ?str_app_cons, ?str_app_nil_l; simpl.

Lemma forall_str_app p s t :
  forall_str p (s +:+ t) = forall_str p s && forall_str p t.
Proof. str_induction s; [done|]. by rewrite IHs, andb_assoc. Qed.

Lemma forall_str_impl (p q : ascii → bool) s :
  (∀ c, p c = true → q c = true) → forall_str p s = true → forall_str q s = true.
Proof.
  intros Hpq. str_induction s; [done|].
  rewrite !andb_true_iff. intros [??]. auto.
Qed.

Lemma forall_str_map p f s :
  forall_str p (map_str f s) = forall_str (λ c, p (f c)) s.
Proof. str_induction s; [done|]. by rewrite IHs. Qed.

Lemma exists_str_map p f s :
  exists_str p (map_str f s) = exists_str (λ c, p (f c)) s.
Proof. str_induction s; [done|]. by rewrite IHs. Qed.

Lemma exists_str_ext (p q : ascii → bool) s :
  (∀ c, p c = q c) → exists_str p s = exists_str q s.
Proof. intros E. str_induction s; [done|]. by rewrite E, IHs. Qed.

Lemma char_in_cons c a s :
  char_in c (String a s) = bool_decide (a = c) || char_in c s.
Proof. reflexivity. Qed.

Lemma str_app_assoc (s t u : string) : (s +:+ t) +:+ u = s +:+ (t +:+ u).
Proof. str_induction s; [done|]. by rewrite IHs. Qed.

Lemma str_app_nil_r (s : string) : s +:+ "" = s.
Proof. str_induction s; [done|]. by rewrite IHs. Qed.

Lemma str_length_app (s t : string) :
  String.length (s +:+ t) = (String.length s + String.length t)%nat.
Proof. str_induction s; [done|]. by rewrite IHs. Qed.

Lemma str_take_length n s : (String.length (str_take n s) ≤ n)%nat.
Proof.
  revert s. induction n as [|n IH]; intros [|c s]; simpl; try lia.
  specialize (IH s). lia.
Qed.

Lemma str_take_drop n s : str_take n s +:+ str_drop n s = s.
Proof.
  revert s. induction n as [|n IH]; intros [|c s]; simpl; try done.
  by rewrite str_app_cons, IH.
Qed.

Lemma rstrip_prefix p s : ∃ rest, s = rstrip p s +:+ rest.
Proof.
  induction s as [|c s [rest IH]]; simpl; [by exists ""|].
  destruct (p c && bool_decide (rstrip p s = "")).
  - by eexists.
  - exists rest. by rewrite str_app_cons, <- IH.
Qed.

Lemma rstrip_split p s :
  ∃ rest, s = rstrip p s +:+ rest ∧ forall_str p rest = true.
Proof.
  induction s as [|c s (rest & IH & Hrest)]; simpl; [by exists ""|].
  destruct (p c) eqn:Hc; cbn [andb].
  - case_bool_decide as Hr.
    + exists (String c s). split; [done|]. simpl. rewrite Hc.
      rewrite Hr, str_app_nil_l in IH. by rewrite IH.
    + exists rest. by rewrite str_app_cons, <- IH.
  - exists rest. by rewrite str_app_cons, <- IH.
Qed.

Lemma str_take_exact n s :
  (n ≤ String.length s)%nat → String.length (str_take n s) = n.
Proof.
  revert s. induction n as [|n IH]; intros [|c s]; simpl; try lia.
  intros H. rewrite IH; lia.
Qed.

Lemma rstrip_length p s : (String.length (rstrip p s) ≤ String.length s)%nat.
Proof.
  destruct (rstrip_prefix p s) as [rest E]. rewrite E at 2.
  rewrite str_length_app. lia.
Qed.

Lemma rstrip_last p s c : last_char (rstrip p s) = Some c → p c = false.
Proof.
  induction s as [|a s IH]; simpl; [done|].
  destruct (p a) eqn:Hpa; simpl.
  - case_bool_decide as Hr; simpl; [done|].
    destruct (rstrip p s) eqn:E; [done|]. exact IH.
  - destruct (rstrip p s) eqn:E; simpl.
    + intros [= <-]. done.
    + exact IH.
Qed.

Lemma rstrip_cons_keep p c s :
  p c = false → rstrip p (String c s) = String c (rstrip p s).
Proof. intros H. simpl. by rewrite H. Qed.

(** ** Topic identifiers *)

Lemma clean_chars_from (q : ascii → bool) s :
  q "-"%char = true →
  (∀ c, char_in c s = true → isalnum c = true → q c = true) →
  forall_str q (clean_chars s) = true.
Proof.
  intros Hq. induction s as [|a s IH]; intros Hs; simpl; [done|].
  assert (forall_str q (clean_chars s) = true) as IH'.
  { apply IH. intros c Hc. apply Hs. rewrite char_in_cons, Hc. apply orb_true_r. }
  destruct (isalnum a) eqn:Ha; simpl.
  - rewrite IH', andb_true_r. apply Hs; [|done].
    rewrite char_in_cons, bool_decide_eq_true_2; done.
  - destruct (char_in a " -_."); simpl; [by rewrite Hq|done].
Qed.

Lemma clean_chars_alnum s :
  exists_str isalnum (clean_chars s) = exists_str isalnum s.
Proof.
  induction s as [|a s IH]; simpl; [done|].
  destruct (isalnum a) eqn:Ha; simpl; [by rewrite Ha|].
  destruct (char_in a " -_."); simpl; by rewrite IH.
Qed.

Lemma clean_chars_empty s : no_usable_char s = true → clean_chars s = "".
Proof.
  unfold no_usable_char. induction s as [|a s IH]; simpl; [done|].
  rewrite !andb_true_iff, !negb_true_iff. intros [[-> ->] ?]. auto.
Qed.

Lemma string_ind2 (P : string → Prop) :
  P "" → (∀ c, P (String c "")) →
  (∀ c d s, P s → P (String d s) → P (String c (String d s))) →
  ∀ s, P s.
Proof.
  intros H0 H1 H2 s.
  assert (P s ∧ ∀ c, P (String c s)) as [? _]; [|done].
  induction s as [|d s [IHs IHc]]; split; auto.
Qed.

Lemma replace_double_hyphen_cons2 c d s :
  replace_double_hyphen (String c (String d s)) =
  if is_hyphen c && is_hyphen d then String "-" (replace_double_hyphen s)
  else String c (replace_double_hyphen (String d s)).
Proof. reflexivity. Qed.

Lemma has_double_hyphen_cons2 c d s :
  has_double_hyphen (String c (String d s)) =
  (is_hyphen c && is_hyphen d) || has_double_hyphen (String d s).
Proof. reflexivity. Qed.

Lemma replace_double_hyphen_from (q : ascii → bool) s :
  q "-"%char = true → forall_str q s = true →
  forall_str q (replace_double_hyphen s) = true.
Proof.
  intros Hq. induction s as [|c| c d s IH1 IH2] using string_ind2; [done..|].
  rewrite replace_double_hyphen_cons2. cbn [forall_str].
  intros [Hc [Hd Hs]%andb_true_iff]%andb_true_iff.
  destruct (is_hyphen c && is_hyphen d); cbn [forall_str].
  - by rewrite Hq, IH1.
  - rewrite Hc. apply IH2. cbn [forall_str]. by rewrite Hd, Hs.
Qed.

Lemma replace_double_hyphen_alnum s :
  exists_str isalnum (replace_double_hyphen s) = exists_str isalnum s.
Proof.
  induction s as [|c| c d s IH1 IH2] using string_ind2; [done..|].
  rewrite replace_double_hyphen_cons2.
  destruct (is_hyphen c) eqn:Hc, (is_hyphen d) eqn:Hd; cbn [andb];
    cbn [exists_str]; rewrite ?IH1, ?IH2; cbn [exists_str]; try done.
  apply bool_decide_eq_true in Hc. apply bool_decide_eq_true in Hd.
  by subst.
Qed.

Lemma replace_double_hyphen_length s :
  (String.length (replace_double_hyphen s) ≤ String.length s)%nat
  ∧ (has_double_hyphen s = true →
     String.length (replace_double_hyphen s) < String.length s)%nat.
Proof.
  induction s as [|c| c d s IH1 IH2] using string_ind2; [by split..|].
  rewrite replace_double_hyphen_cons2, has_double_hyphen_cons2.
  destruct (is_hyphen c && is_hyphen d); cbn [orb String.length] in *.
  - split; intros; lia.
  - split; [lia|]. intros H. destruct IH2 as [_ IH2]. specialize (IH2 H). lia.
Qed.

Lemma collapse_loop_from (q : ascii → bool) fuel s :
  q "-"%char = true → forall_str q s = true →
  forall_str q (collapse_loop fuel s) = true.
Proof.
  intros Hq. revert s. induction fuel as [|n IH]; intros s Hs; simpl.
  - by destruct (has_double_hyphen s).
  - destruct (has_double_hyphen s); [|done].
    by apply IH, replace_double_hyphen_from.
Qed.

Lemma collapse_loop_alnum fuel s :
  exists_str isalnum (collapse_loop fuel s) = exists_str isalnum s.
Proof.
  revert s. induction fuel as [|n IH]; intros s; simpl.
  - by destruct (has_double_hyphen s).
  - destruct (has_double_hyphen s); [|done].
    by rewrite IH, replace_double_hyphen_alnum.
Qed.

(** The fuel of [collapse_hyphens] is enough: the loop ends because no pair
    of hyphens is left. *)
Lemma collapse_hyphens_done s : has_double_hyphen (collapse_hyphens s) = false.
Proof.
  unfold collapse_hyphens.
  assert (∀ fuel t, (String.length t ≤ fuel)%nat →
            has_double_hyphen (collapse_loop fuel t) = false) as H.
  { induction fuel as [|n IH]; intros t Ht; simpl.
    - destruct t; [done|simpl in Ht; lia].
    - destruct (has_double_hyphen t) eqn:E; [|done].
      apply IH. pose proof (replace_double_hyphen_length t) as [_ Hlt].
      specialize (Hlt E). lia. }
  by apply H.
Qed.

Lemma from_stem_alnum st c :
  char_in c (lower st) = true → isalnum c = true → from_stem st c = true.
Proof. unfold from_stem. intros -> _. apply orb_true_r. Qed.

Lemma keep_clean_chars s : keep isalnum (clean_chars s) = keep isalnum s.
Proof.
  induction s as [|a s IH]; simpl; [done|].
  destruct (isalnum a) eqn:Ha; simpl; [by rewrite Ha, IH|].
  destruct (char_in a " -_."); simpl; by rewrite IH.
Qed.

Lemma keep_replace_double_hyphen s :
  keep isalnum (replace_double_hyphen s) = keep isalnum s.
Proof.
  induction s as [|c| c d s IH1 IH2] using string_ind2; [done..|].
  rewrite replace_double_hyphen_cons2.
  destruct (is_hyphen c) eqn:Hc, (is_hyphen d) eqn:Hd; cbn [andb];
    cbn [keep]; rewrite ?IH1, ?IH2; cbn [keep]; try done.
  apply bool_decide_eq_true in Hc. apply bool_decide_eq_true in Hd.
  by subst.
Qed.

Lemma keep_collapse_loop fuel s :
  keep isalnum (collapse_loop fuel s) = keep isalnum s.
Proof.
  revert s. induction fuel as [|n IH]; intros s; simpl.
  - by destruct (has_double_hyphen s).
  - destruct (has_double_hyphen s); [|done].
    by rewrite IH, keep_replace_double_hyphen.
Qed.

(** The cleaned stem: hyphens and lowered characters of the stem, no two
    hyphens in a row; its alphanumeric characters are those of the lowered
    stem, in their order. *)
Lemma cleaned_stem_facts st :
  forall_str (from_stem st) (cleaned_stem st) = true
  ∧ keep isalnum (cleaned_stem st) = keep isalnum (lower st)
  ∧ has_double_hyphen (cleaned_stem st) = false
  ∧ exists_str isalnum (cleaned_stem st) = exists_str isalnum st.
Proof.
  unfold cleaned_stem. split; [|split; [|split]].
  - apply collapse_loop_from; [done|].
    apply clean_chars_from; [done|]. apply from_stem_alnum.
  - unfold collapse_hyphens. by rewrite keep_collapse_loop, keep_clean_chars.
  - apply collapse_hyphens_done.
  - unfold collapse_hyphens.
    rewrite collapse_loop_alnum, clean_chars_alnum. unfold lower.
    rewrite exists_str_map. apply exists_str_ext, isalnum_lower_char.
Qed.

(** C10, as the code has it.  The cleaned stem consists of hyphens and
    lowered characters of the stem, has no two hyphens in a row, and its
    alphanumeric characters are those of the lowered stem in their order.
    When the stem holds an alphanumeric character the identifier is
    returned, is not empty, has at most 50 characters, begins with a letter
    and does not end with a hyphen; it is the cleaned stem, behind the
    prefix [video-] exactly when the cleaned stem does not begin with a
    letter, cut after 50 characters and without the hyphens at its end.
    When no character of the stem is alphanumeric or one of space, hyphen,
    underscore and dot, the access to the first character raises
    [IndexError]. *)
Theorem generate_topic_id_safe (filename : string) :
  let st := stem (PurePosixPath filename) in
  let cleaned := cleaned_stem st in
  let prefixed :=
    if starts_with isalpha cleaned then cleaned else "video-" +:+ cleaned in
  (forall_str (from_stem st) cleaned = true
   ∧ keep isalnum cleaned = keep isalnum (lower st)
   ∧ has_double_hyphen cleaned = false)
  ∧ (exists_str isalnum st = true →
     ∃ c r hyphens cut,
       _generate_topic_id filename = inr (String c r)
       ∧ isalpha c = true
       ∧ (String.length (String c r) ≤ 50)%nat
       ∧ last_char (String c r) ≠ Some "-"%char
       ∧ prefixed = String c r +:+ hyphens +:+ cut
       ∧ forall_str is_hyphen hyphens = true
       ∧ (cut = "" ∨ String.length (String c r +:+ hyphens) = 50%nat))
  ∧ (no_usable_char st = true →
     _generate_topic_id filename = inl (IndexError "string index out of range")).
Proof.
  intros st cleaned prefixed.
  destruct (cleaned_stem_facts st) as (Hfrom & Hkeep & Hdouble & Hex).
  split; [done|].
  unfold _generate_topic_id. fold st. fold (cleaned_stem st). fold cleaned.
  split.
  - intros Hst. rewrite Hst in Hex. fold cleaned in Hex.
    unfold prefixed. clear prefixed.
    destruct cleaned as [|c0 r0] eqn:Eb; [done|]. cbn [starts_with].
    set (t := if isalpha c0 then String c0 r0 else "video-" +:+ String c0 r0).
    assert (∃ c r, t = String c r ∧ isalpha c = true) as (c & r & Et & Hc).
    { unfold t. destruct (isalpha c0) eqn:E0; [by eauto|].
      exists "v"%char. eexists. split; [reflexivity|done]. }
    set (t' := if bool_decide (50 < String.length t)%nat then str_take 50 t else t).
    assert (∃ r' cut, t' = String c r' ∧ t = t' +:+ cut
                      ∧ (String.length t' ≤ 50)%nat
                      ∧ (cut = "" ∨ String.length t' = 50%nat))
      as (r' & cut & Et' & Ett & Hlen & Hcut).
    { unfold t'. case_bool_decide as Hl.
      - exists (str_take 49 r), (str_drop 50 t). rewrite Et. split; [done|].
        rewrite <- Et. split; [by rewrite str_take_drop|].
        split; [apply str_take_length|]. right. apply str_take_exact. lia.
      - exists r, "". rewrite str_app_nil_r. split; [done|]. split; [done|].
        split; [lia|by left]. }
    pose proof (isalpha_not_hyphen c Hc) as Hnh.
    assert (strip is_hyphen t' = String c (rstrip is_hyphen r')) as Es.
    { unfold strip. rewrite Et'. cbn [lstrip]. rewrite Hnh.
      by apply rstrip_cons_keep. }
    destruct (rstrip_split is_hyphen r') as (hyphens & Er & Hhy).
    assert (String c (rstrip is_hyphen r') +:+ hyphens = t') as Ejoin.
    { by rewrite Et', str_app_cons, <- Er. }
    exists c, (rstrip is_hyphen r'), hyphens, cut.
    rewrite Es. split; [done|]. split; [done|].
    split.
    { pose proof (rstrip_length is_hyphen r'). rewrite Et' in Hlen.
      simpl in *. lia. }
    split.
    { intros Hl. rewrite <- (rstrip_cons_keep _ _ _ Hnh) in Hl.
      apply rstrip_last in Hl. done. }
    split.
    { rewrite <- str_app_assoc, Ejoin, <- Ett. done. }
    split; [done|].
    by rewrite Ejoin.
  - intros Hno. unfold cleaned, cleaned_stem, lower.
    assert (clean_chars (map_str lower_char st) = "") as ->; [|done].
    apply clean_chars_empty. unfold no_usable_char in *.
    rewrite forall_str_map. revert Hno. apply forall_str_impl.
    intros a. rewrite !andb_true_iff, !negb_true_iff. intros [Ha Hin].
    by rewrite (lower_char_not_alnum a Ha).
Qed.

Lemma generate_topic_id_safe_witness :
  (∃ c r hyphens cut,
     _generate_topic_id "My Clip_01.mp4" = inr (String c r)
     ∧ cleaned_stem "My Clip_01" = String c r +:+ hyphens +:+ cut)
  ∧ (∃ c r hyphens cut,
       _generate_topic_id "2024 - Trip.mp4" = inr (String c r)
       ∧ "video-" +:+ cleaned_stem "2024 - Trip"
         = String c r +:+ hyphens +:+ cut)
  ∧ _generate_topic_id "().mp4" = inl (IndexError "string index out of range").
Proof.
  split; [|split].
  - destruct (proj1 (proj2 (generate_topic_id_safe "My Clip_01.mp4")) eq_refl)
      as (c & r & hyphens & cut & E & _ & _ & _ & Hp & _).
    exists c, r, hyphens, cut. split; [exact E|exact Hp].
  - destruct (proj1 (proj2 (generate_topic_id_safe "2024 - Trip.mp4")) eq_refl)
      as (c & r & hyphens & cut & E & _ & _ & _ & Hp & _).
    exists c, r, hyphens, cut. split; [exact E|exact Hp].
  - exact (proj2 (proj2 (generate_topic_id_safe "().mp4")) eq_refl).
Defined.

(** C10, as stated, fails: for the file [1.mp4] the identifier is
    [video-1], whose letters are no characters of the stem [1]. *)
Lemma generate_topic_id_prefix_not_from_stem :
  exists_str isalnum (stem (PurePosixPath "1.mp4")) = true
  ∧ _generate_topic_id "1.mp4" = inr "video-1"
  ∧ forall_str (from_stem (stem (PurePosixPath "1.mp4"))) "video-1" = false.
Proof. repeat split. Qed.

(** ** The naming policy *)

Lemma str_of_nat_inj i j : str_of_nat i = str_of_nat j → i = j.
Proof.
  unfold str_of_nat. intros E.
  apply (f_equal NilEmpty.uint_of_string) in E. rewrite !NilEmpty.usu in E.
  injection E as E. apply (f_equal Nat.of_uint) in E.
  by rewrite !Unsigned.of_to in E.
Qed.

Lemma str_app_inj_r (s t u : string) : s +:+ u = t +:+ u → s = t.
Proof.
  revert t. induction s as [|c s IH]; intros [|d t] E.
  - done.
  - apply (f_equal String.length) in E.
    rewrite str_app_nil_l, str_app_cons in E. simpl in E.
    rewrite str_length_app in E. lia.
  - apply (f_equal String.length) in E.
    rewrite str_app_nil_l, str_app_cons in E. simpl in E.
    rewrite str_length_app in E. lia.
  - rewrite !str_app_cons in E. injection E as -> E. f_equal. by apply IH.
Qed.

Global Instance candidate_inj base ext : Inj (=) (=) (candidate base ext).
Proof.
  intros i j E. unfold candidate in E.
  apply (inj (String.append base)) in E.
  apply (inj (String.append "-")) in E.
  apply str_app_inj_r in E. by apply str_of_nat_inj.
Qed.

Section dedup_facts.
Context {A : Type}.
Implicit Types used : gmap string A.

(** Pigeonhole: the keys of [used] hold at most [size used] candidates. *)
Lemma candidates_in_used base ext used i0 n :
  (∀ j, i0 ≤ j < i0 + n → is_Some (used !! candidate base ext j)) →
  n ≤ size used.
Proof.
  intros Hin.
  trans (List.length (candidate base ext <$> seq i0 n)).
  { by rewrite length_fmap, length_seq. }
  rewrite <- (size_dom (D := gset string)).
  rewrite <- (size_list_to_set (C := gset string)).
  - apply subseteq_size.
    intros x [j [-> Hj]]%elem_of_list_to_set%list_elem_of_fmap.
    apply elem_of_seq in Hj. apply elem_of_dom, Hin. lia.
  - apply NoDup_fmap_2; [apply _|apply NoDup_seq].
Qed.

(** The loop stops at the first candidate that is no key of [used]. *)
Lemma dedup_loop_fresh base ext used fuel i :
  (∀ j, 2 ≤ j < i → is_Some (used !! candidate base ext j)) →
  2 ≤ i → size used ≤ fuel + (i - 2) →
  ∃ k, i ≤ k
       ∧ dedup_loop fuel base ext used i = candidate base ext k
       ∧ used !! candidate base ext k = None
       ∧ ∀ j, 2 ≤ j < k → is_Some (used !! candidate base ext j).
Proof.
  revert i. induction fuel as [|fuel IH]; intros i Hbelow Hi Hsize; simpl.
  - destruct (used !! candidate base ext i) eqn:E.
    + exfalso.
      assert (S (i - 2) ≤ size used); [|lia].
      apply (candidates_in_used base ext used 2). intros j Hj.
      destruct (decide (j = i)) as [->|]; [by rewrite E|]. apply Hbelow. lia.
    + exists i. by repeat split.
  - destruct (used !! candidate base ext i) eqn:E.
    + destruct (IH (S i)) as (k & Hk & Ek & Hfree & Hused); [|lia|lia|].
      { intros j Hj. destruct (decide (j = i)) as [->|]; [by rewrite E|].
        apply Hbelow. lia. }
      exists k. repeat split; [lia|done..].
    + exists i. by repeat split.
Qed.
End dedup_facts.

Lemma splitext_app p : (splitext p).1 +:+ (splitext p).2 = p.
Proof.
  unfold splitext. case_match; simpl; [apply str_take_drop|apply str_app_nil_r].
Qed.

(** What [_dedup_name] returns is the name itself or one of its candidates,
    and never a key. *)
Lemma dedup_name_is_candidate {A} (name : string) (used : gmap string A) :
  used !! _dedup_name name used = None
  ∧ (_dedup_name name used = name
     ∨ ∃ i, _dedup_name name used
            = candidate (splitext name).1 (splitext name).2 i).
Proof.
  unfold _dedup_name. destruct (used !! name) eqn:Hl; [|by split; [|left]].
  destruct (splitext name) as [base ext]. cbn [fst snd].
  destruct (dedup_loop_fresh base ext used (size used) 2)
    as (k & _ & -> & Hfree & _); [intros; lia|lia|lia|].
  split; [done|]. right. by exists k.
Qed.

(** C3, as the code has it: a name that is no key is returned unchanged;
    otherwise the name is split by [os.path.splitext] (the extension starts
    at the last dot only when that dot stands in the final path component
    behind a character that is not a dot, and is empty otherwise), and the
    result is the first of [base-2ext], [base-3ext], ... that is no key. *)
Theorem dedup_name_first_free {A} (name : string) (used : gmap string A) :
  let '(base, ext) := splitext name in
  base +:+ ext = name
  ∧ (used !! name = None → _dedup_name name used = name)
  ∧ (is_Some (used !! name) →
     ∃ i, 2 ≤ i
          ∧ _dedup_name name used = candidate base ext i
          ∧ used !! candidate base ext i = None
          ∧ ∀ j, 2 ≤ j < i → is_Some (used !! candidate base ext j)).
Proof.
  pose proof (splitext_app name) as Happ. unfold _dedup_name.
  destruct (splitext name) as [base ext]. split; [done|]. split.
  - by intros ->.
  - intros [x ->].
    destruct (dedup_loop_fresh base ext used (size used) 2) as (k & ? & ? & ? & ?);
      [intros; lia|lia|lia|].
    by exists k.
Qed.

Lemma dedup_name_first_free_witness :
  ∃ i, 2 ≤ i
       ∧ _dedup_name "clip.mp4" ({[ "clip.mp4" := 1 ]} : gmap string nat)
         = candidate "clip" ".mp4" i
       ∧ ({[ "clip.mp4" := 1 ]} : gmap string nat) !! candidate "clip" ".mp4" i
         = None.
Proof.
  pose proof (dedup_name_first_free "clip.mp4"
                ({[ "clip.mp4" := 1 ]} : gmap string nat)) as H.
  change (splitext "clip.mp4") with ("clip", ".mp4") in H.
  destruct H as (_ & _ & H).
  destruct H as (i & Hi & E & Hfree & _); [vm_compute; by eexists|].
  exists i. split; [exact Hi|]. split; [exact E|exact Hfree].
Defined.

(** C3, as stated, fails: for the name [..mp4], already a key, the split at
    the last dot gives the candidate [.-2.mp4], which is free, but the code
    returns [..mp4-2]. *)
Lemma dedup_name_leading_dots :
  let used : gmap string nat := {[ "..mp4" := 1 ]} in
  is_Some (used !! "..mp4")
  ∧ split_last_dot "..mp4" = (".", ".mp4")
  ∧ used !! candidate "." ".mp4" 2 = None
  ∧ _dedup_name "..mp4" used = "..mp4-2"
  ∧ _dedup_name "..mp4" used ≠ candidate "." ".mp4" 2.
Proof. vm_compute. repeat split; [by eexists|done]. Qed.

(** ** The map tree *)

Lemma SubElement_eq parent t σ :
  ET.SubElement parent t σ
  = (List.length σ,
     alter (ET.add_child (List.length σ)) parent σ ++ [ET.new_element t]).
Proof. reflexivity. Qed.

Lemma alter_at_0 {A} (f : A → A) n (l : list A) x k :
  List.length l = n → alter f n (l ++ x :: k) = l ++ f x :: k.
Proof.
  intros <-. replace (List.length l) with (List.length l + 0) by lia.
  by rewrite alter_app_r.
Qed.

Lemma alter_at_1 {A} (f : A → A) n (l : list A) x y k :
  List.length l = n → alter f (S n) (l ++ x :: y :: k) = l ++ x :: f y :: k.
Proof.
  intros <-. replace (S (List.length l)) with (List.length l + 1) by lia.
  by rewrite alter_app_r.
Qed.

Lemma alter_at_2 {A} (f : A → A) n (l : list A) x y z k :
  List.length l = n →
  alter f (S (S n)) (l ++ x :: y :: z :: k) = l ++ x :: y :: f z :: k.
Proof.
  intros <-. replace (S (S (List.length l))) with (List.length l + 2) by lia.
  by rewrite alter_app_r.
Qed.

(** A labelled node is attached by three [SubElement] calls and the
    assignments in between; it takes the indices [n], [n+1] and [n+2]. *)
Lemma attach_steps (g : element → element) parent t a label σ :
  g (ET.new_element t) = {| tag := t; attrib := a; text := None; children := [] |} →
  let n := List.length σ in
  let σ1 := (ET.SubElement parent t σ).2 in
  let σ2 := alter g n σ1 in
  let σ3 := (ET.SubElement n "topicmeta" σ2).2 in
  let σ4 := (ET.SubElement (S n) "navtitle" σ3).2 in
  (ET.SubElement parent t σ).1 = n
  ∧ (ET.SubElement n "topicmeta" σ2).1 = S n
  ∧ (ET.SubElement (S n) "navtitle" σ3).1 = S (S n)
  ∧ alter (ET.with_text label) (S (S n)) σ4 = attach parent t a label σ
  ∧ σ4 = attach_opt parent t a None σ.
Proof.
  intros Hg n σ1 σ2 σ3 σ4. subst n. set (n := List.length σ) in *.
  assert (List.length (alter (ET.add_child n) parent σ) = n) as L0.
  { by rewrite length_alter. }
  assert (σ2 = alter (ET.add_child n) parent σ
               ++ [ {| tag := t; attrib := a; text := None; children := [] |} ])
    as E2.
  { unfold σ2, σ1. rewrite SubElement_eq. cbn [snd]. fold n.
    by rewrite (alter_at_0 _ n _ _ _ L0), Hg. }
  assert (List.length σ2 = S n) as L2.
  { rewrite E2, length_app, L0. simpl. lia. }
  assert (σ3 = alter (ET.add_child n) parent σ
               ++ [ {| tag := t; attrib := a; text := None; children := [S n] |};
                    ET.new_element "topicmeta" ]) as E3.
  { unfold σ3. rewrite SubElement_eq, L2. cbn [snd]. rewrite E2.
    rewrite (alter_at_0 _ n _ _ _ L0). by rewrite <- app_assoc. }
  assert (List.length σ3 = S (S n)) as L3.
  { rewrite E3, length_app, L0. simpl. lia. }
  split; [done|]. split; [by rewrite SubElement_eq, L2|].
  split; [by rewrite SubElement_eq, L3|].
  assert (σ4 = attach_opt parent t a None σ) as E4.
  { unfold σ4. rewrite SubElement_eq, L3. cbn [snd]. rewrite E3.
    by rewrite (alter_at_1 _ n _ _ _ _ L0), <- app_assoc. }
  split; [|done]. rewrite E4. unfold attach_opt, labelled_opt. fold n.
  by rewrite (alter_at_2 _ n _ _ _ _ _ L0).
Qed.

Lemma append_topicref_attach f hrf rm parent σ :
  let target := "topics/" +:+ default (basename hrf) (rm !! basename hrf) in
  xml_compatible target = true → xml_compatible (stem f) = true →
  append_topicref f hrf rm parent σ
  = inr (attach parent "topicref" {[ "href" := target ]} (stem f) σ).
Proof.
  intros target Ht Hs. unfold append_topicref. fold target.
  pose proof (attach_steps (ET.with_attr "href" target) parent "topicref"
                {[ "href" := target ]} (stem f) σ eq_refl) as H.
  cbv zeta in H. destruct H as (E1 & E2 & E3 & E4 & _).
  destruct (ET.SubElement parent "topicref" σ) as [tref σ1] eqn:S1.
  cbn [fst snd] in *. subst tref.
  unfold ET.set at 1. rewrite Ht. cbn [negb xml_name_valid].
  change (negb (xml_name_valid "href")) with false. cbv iota.
  destruct (ET.SubElement (List.length σ) "topicmeta" _) as [meta σ3] eqn:S3.
  cbn [fst snd] in *. subst meta.
  destruct (ET.SubElement (S (List.length σ)) "navtitle" σ3) as [nav σ4] eqn:S4.
  cbn [fst snd] in *. subst nav.
  unfold ET.set_text. rewrite Hs. cbn [negb]. by rewrite E4.
Qed.

Lemma ensure_loop_miss part rest path_accum parent σ cache :
  cache !! join "/" (path_accum ++ [part]) = None →
  ensure_loop (part :: rest) path_accum parent σ cache
  = if xml_compatible part
    then ensure_loop rest (path_accum ++ [part]) (List.length σ)
           (attach parent "topichead" ∅ part σ)
           (<[join "/" (path_accum ++ [part]) := List.length σ]> cache)
    else inl xml_value_error.
Proof.
  intros Hc. cbn [ensure_loop]. rewrite Hc.
  pose proof (attach_steps id parent "topichead" ∅ part σ eq_refl) as H.
  cbv zeta in H. destruct H as (E1 & E2 & E3 & E4 & _).
  destruct (ET.SubElement parent "topichead" σ) as [head σ1] eqn:S1.
  cbn [fst snd] in *. subst head.
  assert (alter id (List.length σ) σ1 = σ1) as Eid.
  { apply list_eq. intros i. rewrite list_lookup_alter.
    case_decide as Hi; [|done]. rewrite Hi. by destruct (σ1 !! i). }
  rewrite Eid in *.
  destruct (ET.SubElement (List.length σ) "topicmeta" σ1) as [meta σ3] eqn:S3.
  cbn [fst snd] in *. subst meta.
  destruct (ET.SubElement (S (List.length σ)) "navtitle" σ3) as [nav σ4] eqn:S4.
  cbn [fst snd] in *. subst nav.
  unfold ET.set_text. destruct (xml_compatible part); cbn [negb]; [|done].
  by rewrite E4.
Qed.

Lemma ensure_loop_hit part rest path_accum parent σ cache node :
  cache !! join "/" (path_accum ++ [part]) = Some node →
  ensure_loop (part :: rest) path_accum parent σ cache
  = ensure_loop rest (path_accum ++ [part]) node σ cache.
Proof. intros Hc. cbn [ensure_loop]. by rewrite Hc. Qed.

Lemma attach_length parent t a label σ :
  List.length (attach parent t a label σ) = List.length σ + 3.
Proof. unfold attach. by rewrite length_app, length_alter. Qed.

Lemma attach_lookup_old parent t a label σ i :
  i < List.length σ →
  attach parent t a label σ !! i
  = if decide (parent = i) then ET.add_child (List.length σ) <$> σ !! i
    else σ !! i.
Proof.
  intros Hi. unfold attach.
  rewrite lookup_app_l by by rewrite length_alter.
  rewrite list_lookup_alter. by case_decide; subst.
Qed.

Lemma attach_lookup_new parent t a label σ k :
  attach parent t a label σ !! (List.length σ + k)
  = labelled t a label (List.length σ) !! k.
Proof.
  unfold attach.
  rewrite <- (length_alter (ET.add_child (List.length σ)) σ parent) at 1.
  by rewrite lookup_app_r, Nat.add_comm, Nat.add_sub by lia.
Qed.

Lemma attach_tags parent t a label σ :
  tag <$> attach parent t a label σ
  = (tag <$> σ) ++ [t; "topicmeta"; "navtitle"].
Proof.
  unfold attach. rewrite fmap_app. f_equal.
  apply list_eq. intros i. rewrite !list_lookup_fmap, list_lookup_alter.
  case_decide; subst; by destruct (σ !! _).
Qed.

Lemma nodes_with_tag_app σ σ' t :
  nodes_with_tag (σ ++ σ') t = nodes_with_tag σ t ++ nodes_with_tag σ' t.
Proof. apply filter_app. Qed.

Lemma nodes_with_tag_length σ σ' t :
  tag <$> σ = tag <$> σ' →
  List.length (nodes_with_tag σ t) = List.length (nodes_with_tag σ' t).
Proof.
  revert σ'. induction σ as [|e σ IH]; intros [|e' σ'] E; simplify_eq/=; [done|].
  unfold nodes_with_tag in *. rewrite !filter_cons.
  specialize (IH σ' H0). rewrite H.
  destruct (decide (tag e' = t)); simpl; by rewrite IH.
Qed.

(** Attaching a labelled node adds one node of its tag and, unless that is
    their tag, none of any other. *)
Lemma attach_nodes_with_tag parent t a label σ u :
  u ≠ "topicmeta" → u ≠ "navtitle" →
  List.length (nodes_with_tag (attach parent t a label σ) u)
  = List.length (nodes_with_tag σ u) + (if decide (t = u) then 1 else 0).
Proof.
  intros Hm Hn. unfold attach. rewrite nodes_with_tag_app, length_app.
  f_equal.
  - apply nodes_with_tag_length.
    apply list_eq. intros i. rewrite !list_lookup_fmap, list_lookup_alter.
    case_decide; subst; by destruct (σ !! _).
  - unfold nodes_with_tag, labelled. rewrite !filter_cons, filter_nil. simpl.
    destruct (decide (t = u)); simpl;
      repeat (case_decide; simplify_eq/=); done.
Qed.

Lemma grows_refl σ : grows σ σ.
Proof. intros i e H. exists e. by repeat split. Qed.

Lemma grows_trans σ1 σ2 σ3 : grows σ1 σ2 → grows σ2 σ3 → grows σ1 σ3.
Proof.
  intros H12 H23 i e H.
  destruct (H12 i e H) as (e2 & L2 & T2 & A2 & X2 & P2).
  destruct (H23 i e2 L2) as (e3 & L3 & T3 & A3 & X3 & P3).
  exists e3. repeat split; try congruence. by etrans.
Qed.

Lemma attach_grows parent t a label σ : grows σ (attach parent t a label σ).
Proof.
  intros i e H. rewrite attach_lookup_old by by eapply lookup_lt_Some.
  rewrite H. case_decide; simpl.
  - eexists. repeat split. simpl. by apply prefix_app_r.
  - exists e. by repeat split.
Qed.

Lemma labelled_at_grows σ σ' id t label :
  grows σ σ' → labelled_at σ id t label → labelled_at σ' id t label.
Proof.
  intros G (e & m & v & He & Ht & Hc & Hm & Htm & Hcm & Hv & Htv & Hxv).
  destruct (G _ _ He) as (e' & He' & ? & _ & _ & Pe).
  destruct (G _ _ Hm) as (m' & Hm' & ? & _ & _ & Pm).
  destruct (G _ _ Hv) as (v' & Hv' & ? & _ & ? & _).
  exists e', m', v'. repeat split; try congruence.
  - destruct Pe as [k ->]. destruct (children e); by simplify_eq/=.
  - destruct Pm as [k ->]. destruct (children m); by simplify_eq/=.
Qed.

Lemma is_child_grows σ σ' p c : grows σ σ' → is_child σ p c → is_child σ' p c.
Proof.
  intros G (e & He & Hc). destruct (G _ _ He) as (e' & He' & _ & _ & _ & Pe).
  exists e'. split; [done|]. destruct Pe as [k ->]. set_solver.
Qed.

Lemma attach_labelled_at parent t a label σ :
  labelled_at (attach parent t a label σ) (List.length σ) t label.
Proof.
  pose proof (attach_lookup_new parent t a label σ 0) as H0.
  pose proof (attach_lookup_new parent t a label σ 1) as H1.
  pose proof (attach_lookup_new parent t a label σ 2) as H2.
  rewrite Nat.add_0_r in H0.
  replace (List.length σ + 1) with (S (List.length σ)) in H1 by lia.
  replace (List.length σ + 2) with (S (S (List.length σ))) in H2 by lia.
  do 3 eexists. split; [exact H0|]. do 2 (split; [done|]).
  split; [exact H1|]. do 2 (split; [done|]). split; [exact H2|]. done.
Qed.

Lemma attach_is_child parent t a label σ :
  parent < List.length σ →
  is_child (attach parent t a label σ) parent (List.length σ).
Proof.
  intros Hp. destruct (lookup_lt_is_Some_2 σ parent Hp) as [e He].
  exists (ET.add_child (List.length σ) e). split.
  - rewrite attach_lookup_old by done. rewrite decide_True by done.
    by rewrite He.
  - simpl. set_solver.
Qed.

(** The label and the tag of a labelled node, as the tree is read. *)
Lemma labelled_at_navtitle σ id t label :
  labelled_at σ id t label →
  tag <$> σ !! id = Some t ∧ navtitle σ id = Some label.
Proof.
  intros (e & m & v & He & Ht & Hc & Hm & Htm & Hcm & Hv & Htv & Hxv).
  split; [by rewrite He; simpl; f_equal|].
  unfold navtitle, child_with_tag. rewrite He. simpl.
  destruct (children e) as [|c cs]; simplify_eq/=.
  rewrite filter_cons, decide_True by by rewrite Hm; simpl; f_equal.
  simpl. rewrite Hm. simpl.
  destruct (children m) as [|c' cs']; simplify_eq/=.
  rewrite filter_cons, decide_True by by rewrite Hv; simpl; f_equal.
  simpl. by rewrite Hv.
Qed.

(** ** Paths *)

Lemma split_no_sep sep s :
  forall_str (λ c, negb (bool_decide (c = sep))) s = true → split sep s = [s].
Proof.
  induction s as [|c s IH]; simpl; [done|].
  intros [Hc Hs]%andb_true_iff. apply negb_true_iff in Hc. rewrite Hc.
  by rewrite (IH Hs).
Qed.

Lemma PurePosixPath_component x :
  is_component x → PurePosixPath x = {| root := ""; parts := [x] |}.
Proof.
  intros (Hne & Hdot & Hsl). unfold PurePosixPath.
  assert (lstrip is_slash x = x) as ->.
  { destruct x as [|c x]; [done|]. simpl in *.
    apply andb_true_iff in Hsl as [Hc _]. apply negb_true_iff in Hc.
    by rewrite Hc. }
  rewrite Nat.sub_diag. f_equal.
  rewrite split_no_sep by done.
  rewrite filter_cons, decide_True by done. by rewrite filter_nil.
Qed.

Lemma name_of_name p : wf_path p → name (PurePosixPath (name p)) = name p.
Proof.
  unfold wf_path, name. intros Hwf.
  destruct (parts p) as [|x l _] using rev_ind; [done|].
  rewrite last_last. apply Forall_app in Hwf as [_ Hx].
  rewrite Forall_singleton in Hx. by rewrite PurePosixPath_component.
Qed.

Lemma stem_of_name p : wf_path p → stem (PurePosixPath (name p)) = stem p.
Proof. intros H. unfold stem. by rewrite name_of_name. Qed.

Lemma split_components sep s :
  Forall (λ x, forall_str (λ c, negb (bool_decide (c = sep))) x = true)
         (split sep s).
Proof.
  induction s as [|c s IH]; simpl; [by repeat constructor|].
  case_bool_decide as Hc; [by constructor|].
  destruct (split sep s) as [|h t]; [repeat constructor; simpl|].
  - by rewrite bool_decide_eq_false_2.
  - apply Forall_cons in IH as [Hh Ht]. constructor; [|done].
    simpl. by rewrite bool_decide_eq_false_2, Hh.
Qed.

Lemma split_app_no_sep s t :
  forall_str (λ c, negb (is_slash c)) s = true →
  split "/" (s +:+ "/" +:+ t) = s :: split "/" t.
Proof.
  induction s as [|c s IH]; intros Hs.
  - by rewrite str_app_nil_l.
  - simpl in Hs. apply andb_true_iff in Hs as [Hc Hs].
    rewrite str_app_cons. cbn [split]. apply negb_true_iff in Hc.
    unfold is_slash in Hc. rewrite Hc. by rewrite IH.
Qed.

(** [Path("../media/x").name] is [x]. *)
Lemma name_media_path x :
  is_component x → name (PurePosixPath ("../media/" +:+ x)) = x.
Proof.
  intros (Hne & Hdot & Hsl). unfold name, PurePosixPath.
  rewrite !str_app_cons, str_app_nil_l. cbn [lstrip is_slash parts].
  change (split "/" _) with (split "/" (".." +:+ "/" +:+ ("media" +:+ "/" +:+ x))).
  rewrite !split_app_no_sep by done. rewrite split_no_sep by done.
  rewrite !filter_cons, filter_nil. rewrite !decide_True by done. done.
Qed.

Lemma str_drop_length n s :
  String.length (str_drop n s) = (String.length s - n)%nat.
Proof. revert s. induction n as [|n IH]; intros [|c s]; simpl; auto. Qed.

Lemma forall_str_drop q n s :
  forall_str q s = true → forall_str q (str_drop n s) = true.
Proof.
  rewrite <- (str_take_drop n s) at 1.
  rewrite forall_str_app. by intros [_ ?]%andb_true_iff.
Qed.

(** A suffix, when there is one, is a dot and at least one character. *)
Lemma suffix_length p : suffix p ≠ "" → (2 ≤ String.length (suffix p))%nat.
Proof.
  unfold suffix, suffix_index. case_bool_decide as H; [|done]. intros _.
  rewrite str_drop_length. lia.
Qed.

Lemma name_component p : wf_path p → name p ≠ "" → is_component (name p).
Proof.
  unfold wf_path, name. intros Hwf.
  destruct (parts p) as [|x l _] using rev_ind; [done|].
  rewrite last_last. apply Forall_app in Hwf as [_ Hx].
  by rewrite Forall_singleton in Hx.
Qed.

Lemma suffix_name_nonempty p : suffix p ≠ "" → name p ≠ "".
Proof. intros H E. apply H. unfold suffix. by rewrite E. Qed.

(** Parsing a string gives a well-formed path. *)
Lemma PurePosixPath_wf s : wf_path (PurePosixPath s).
Proof.
  unfold wf_path, PurePosixPath. cbn [parts].
  apply Forall_forall. intros x [[Hne Hdot] Hx]%list_elem_of_filter.
  repeat split; [done..|].
  pose proof (split_components "/" (lstrip is_slash s)) as H.
  rewrite Forall_forall in H. by apply H.
Qed.

(** ** Names that the converter and the merge produce *)

Lemma forall_str_lstrip q p s :
  forall_str q s = true → forall_str q (lstrip p s) = true.
Proof.
  induction s as [|c s IH]; simpl; [done|].
  intros [Hc Hs]%andb_true_iff. destruct (p c); [auto|].
  simpl. by rewrite Hc, Hs.
Qed.

Lemma forall_str_rstrip q p s :
  forall_str q s = true → forall_str q (rstrip p s) = true.
Proof.
  destruct (rstrip_prefix p s) as [rest E]. rewrite E at 1.
  rewrite forall_str_app. by intros [? _]%andb_true_iff.
Qed.

Lemma forall_str_take q n s :
  forall_str q s = true → forall_str q (str_take n s) = true.
Proof.
  rewrite <- (str_take_drop n s) at 1.
  rewrite forall_str_app. by intros [? _]%andb_true_iff.
Qed.

(** A topic identifier consists of alphanumeric characters and hyphens. *)
Lemma generate_topic_id_chars filename tid :
  _generate_topic_id filename = inr tid → forall_str id_char tid = true.
Proof.
  unfold _generate_topic_id.
  set (body := collapse_hyphens _).
  assert (forall_str id_char body = true) as Hbody.
  { apply collapse_loop_from; [done|]. apply clean_chars_from; [done|].
    intros c _ Hc. unfold id_char. by rewrite Hc. }
  destruct body as [|c0 r0]; [done|].
  set (t := if isalpha c0 then String c0 r0 else "video-" +:+ String c0 r0).
  assert (forall_str id_char t = true) as H.
  { unfold t. destruct (isalpha c0); [done|]. by rewrite forall_str_app, Hbody. }
  intros E. assert (tid = strip is_hyphen
    (if bool_decide (50 < String.length t) then str_take 50 t else t)) as ->
    by congruence.
  apply forall_str_rstrip, forall_str_lstrip.
  case_bool_decide; [by apply forall_str_take|done].
Qed.

Lemma string_of_uint_digits d :
  forall_str (in_range 48 57) (NilEmpty.string_of_uint d) = true.
Proof. induction d; simpl; by rewrite ?IHd. Qed.

Lemma str_of_nat_digits i : forall_str (in_range 48 57) (str_of_nat i) = true.
Proof. apply string_of_uint_digits. Qed.

Lemma digit_xml_ok c : in_range 48 57 c = true → xml_char_ok c = true.
Proof. each_char c. Qed.

(** The characters of a name that [_dedup_name] returns are those of the
    name it was given, a hyphen and decimal digits. *)
Lemma dedup_name_chars {A} (q : ascii → bool) nm (used : gmap string A) :
  q "-"%char = true → (∀ c, in_range 48 57 c = true → q c = true) →
  forall_str q nm = true → forall_str q (_dedup_name nm used) = true.
Proof.
  intros Hh Hd Hnm.
  destruct (dedup_name_is_candidate nm used) as [_ [->|[i ->]]]; [done|].
  rewrite <- (splitext_app nm), forall_str_app in Hnm.
  apply andb_true_iff in Hnm as [Hb He].
  unfold candidate. rewrite !forall_str_app, Hb, He. simpl. rewrite Hh.
  simpl. rewrite andb_true_r.
  eapply forall_str_impl; [exact Hd|apply str_of_nat_digits].
Qed.

Lemma dedup_name_fresh {A} nm (used : gmap string A) :
  used !! _dedup_name nm used = None.
Proof. apply dedup_name_is_candidate. Qed.

Lemma rfind_from_absent c s i found :
  forall_str (λ a, negb (bool_decide (a = c))) s = true →
  rfind_from c s i found = found.
Proof.
  revert i found. induction s as [|a s IH]; intros i found; simpl; [done|].
  intros [Ha Hs]%andb_true_iff. apply negb_true_iff in Ha. rewrite Ha.
  by apply IH.
Qed.

Lemma basename_topics s :
  forall_str (λ c, negb (is_slash c)) s = true → basename ("topics/" +:+ s) = s.
Proof.
  intros Hs. unfold basename, rfind.
  rewrite !str_app_cons, str_app_nil_l. cbn [rfind_from].
  repeat (rewrite bool_decide_eq_false_2 by done).
  rewrite bool_decide_eq_true_2 by done.
  by rewrite (rfind_from_absent _ _ _ _ Hs).
Qed.

(** ** The last dot of a name *)

Lemma rfind_from_app c s t i found :
  rfind_from c (s +:+ t) i found
  = rfind_from c t (i + String.length s) (rfind_from c s i found).
Proof.
  revert i found. induction s as [|a s IH]; intros i found.
  - rewrite str_app_nil_l. simpl. by rewrite Nat.add_0_r.
  - rewrite str_app_cons. cbn [rfind_from String.length]. rewrite IH.
    f_equal. lia.
Qed.

(** A string without the character, or its part before the last one and the
    part after it. *)
Lemma last_occurrence c s :
  forall_str (λ a, negb (bool_decide (a = c))) s = true
  ∨ ∃ a b, s = a +:+ String c b
           ∧ forall_str (λ a, negb (bool_decide (a = c))) b = true.
Proof.
  induction s as [|x s [IH|(a & b & -> & Hb)]].
  - by left.
  - destruct (decide (x = c)) as [->|Hx].
    + right. by exists "", s.
    + left. simpl. by rewrite IH, bool_decide_eq_false_2.
  - right. by exists (String x a), b.
Qed.

Lemma rfind_last c a b :
  forall_str (λ x, negb (bool_decide (x = c))) b = true →
  rfind c (a +:+ String c b) = Z.of_nat (String.length a).
Proof.
  intros Hb. unfold rfind. rewrite rfind_from_app. cbn [rfind_from].
  rewrite bool_decide_eq_true_2 by done. by rewrite rfind_from_absent.
Qed.

Lemma rfind_absent c s :
  forall_str (λ x, negb (bool_decide (x = c))) s = true → rfind c s = (-1)%Z.
Proof. apply rfind_from_absent. Qed.

Lemma str_drop_app a t : str_drop (String.length a) (a +:+ t) = t.
Proof. induction a as [|c a IH]; [by destruct t|]. by rewrite str_app_cons. Qed.

Lemma str_take_app a t : str_take (String.length a) (a +:+ t) = a.
Proof.
  induction a as [|c a IH]; [by destruct t|].
  rewrite str_app_cons. simpl. by rewrite IH.
Qed.

(** A suffix is empty, or a dot followed by at least one character and no
    further dot; it follows a stem that is not empty. *)
Lemma suffix_shape p :
  (suffix p = "" ∧ stem p = name p)
  ∨ ∃ b, suffix p = String "." b ∧ b ≠ ""
         ∧ forall_str (λ x, negb (is_dot x)) b = true
         ∧ name p = stem p +:+ String "." b ∧ stem p ≠ "".
Proof.
  unfold suffix, stem, suffix_index.
  case_bool_decide as Hi; [|by left]. right.
  destruct (last_occurrence "." (name p)) as [Hno|(a & b & E & Hb)].
  { rewrite rfind_absent in Hi by done. lia. }
  rewrite E in *. rewrite rfind_last in * by done.
  rewrite Nat2Z.id, str_drop_app, str_take_app.
  rewrite str_length_app in Hi. cbn [String.length] in Hi.
  exists b. repeat split; try done.
  - intros ->. simpl in Hi. lia.
  - intros ->. simpl in Hi. lia.
Qed.

(** The stem is the name without its extension. *)
Lemma stem_without_extension p : without_extension (name p) (stem p).
Proof.
  destruct (suffix_shape p) as [[Hs Hst]|(b & Hs & Hb & Hnd & Hn & Hst)].
  - right. split; [done|]. intros a ext E Hext.
    revert Hs. unfold suffix, suffix_index.
    rewrite E, rfind_last by done.
    rewrite str_length_app. cbn [String.length].
    case_bool_decide as Hi.
    + rewrite Nat2Z.id, str_drop_app. done.
    + intros _. destruct a as [|x a]; [by left|]. right.
      destruct ext as [|y ext]; [done|]. exfalso. apply Hi.
      cbn [String.length]. lia.
  - left. exists b. done.
Qed.

(** ** Reference nodes whose label may be missing *)

Lemma attach_opt_lookup_old parent t a label σ i :
  i < List.length σ →
  attach_opt parent t a label σ !! i
  = if decide (parent = i) then ET.add_child (List.length σ) <$> σ !! i
    else σ !! i.
Proof.
  intros Hi. unfold attach_opt.
  rewrite lookup_app_l by by rewrite length_alter.
  rewrite list_lookup_alter. by case_decide; subst.
Qed.

Lemma attach_opt_lookup_new parent t a label σ k :
  attach_opt parent t a label σ !! (List.length σ + k)
  = labelled_opt t a label (List.length σ) !! k.
Proof.
  unfold attach_opt.
  rewrite <- (length_alter (ET.add_child (List.length σ)) σ parent) at 1.
  by rewrite lookup_app_r, Nat.add_comm, Nat.add_sub by lia.
Qed.

Lemma attach_opt_grows parent t a label σ :
  grows σ (attach_opt parent t a label σ).
Proof.
  intros i e H. rewrite attach_opt_lookup_old by by eapply lookup_lt_Some.
  rewrite H. case_decide; simpl.
  - eexists. repeat split. simpl. by apply prefix_app_r.
  - exists e. by repeat split.
Qed.

Lemma labelled_opt_at_grows σ σ' id t label :
  grows σ σ' → labelled_opt_at σ id t label → labelled_opt_at σ' id t label.
Proof.
  intros G (e & m & v & He & Ht & Hc & Hm & Htm & Hcm & Hv & Htv & Hxv).
  destruct (G _ _ He) as (e' & He' & ? & _ & _ & Pe).
  destruct (G _ _ Hm) as (m' & Hm' & ? & _ & _ & Pm).
  destruct (G _ _ Hv) as (v' & Hv' & ? & _ & ? & _).
  exists e', m', v'. repeat split; try congruence.
  - destruct Pe as [k ->]. destruct (children e); by simplify_eq/=.
  - destruct Pm as [k ->]. destruct (children m); by simplify_eq/=.
Qed.

Lemma attach_opt_labelled_at parent t a label σ :
  labelled_opt_at (attach_opt parent t a label σ) (List.length σ) t label.
Proof.
  pose proof (attach_opt_lookup_new parent t a label σ 0) as H0.
  pose proof (attach_opt_lookup_new parent t a label σ 1) as H1.
  pose proof (attach_opt_lookup_new parent t a label σ 2) as H2.
  rewrite Nat.add_0_r in H0.
  replace (List.length σ + 1) with (S (List.length σ)) in H1 by lia.
  replace (List.length σ + 2) with (S (S (List.length σ))) in H2 by lia.
  do 3 eexists. split; [exact H0|]. do 2 (split; [done|]).
  split; [exact H1|]. do 2 (split; [done|]). split; [exact H2|]. done.
Qed.

(** The label and the tag of such a node, as the tree is read. *)
Lemma labelled_opt_at_navtitle σ id t label :
  labelled_opt_at σ id t label →
  tag <$> σ !! id = Some t ∧ navtitle σ id = label.
Proof.
  intros (e & m & v & He & Ht & Hc & Hm & Htm & Hcm & Hv & Htv & Hxv).
  split; [by rewrite He; simpl; f_equal|].
  unfold navtitle, child_with_tag. rewrite He. simpl.
  destruct (children e) as [|c cs]; simplify_eq/=.
  rewrite filter_cons, decide_True by by rewrite Hm; simpl; f_equal.
  simpl. rewrite Hm. simpl.
  destruct (children m) as [|c' cs']; simplify_eq/=.
  rewrite filter_cons, decide_True by by rewrite Hv; simpl; f_equal.
  simpl. by rewrite Hv.
Qed.

(** What [append_topicref] leaves in the tree when it returns: the
    reference node below its parent, with the label of the file when lxml
    takes it and with an empty [navtitle] when it does not; in that case
    the [except] branch has set the target to the reference as it was
    found. *)
Lemma append_topicref_cases f hrf rm parent σ σ' :
  renames_storable rm →
  append_topicref f hrf rm parent σ = inr σ' →
  let target := "topics/" +:+ default (basename hrf) (rm !! basename hrf) in
  ∃ a, σ' = attach_opt parent "topicref" a (stored_label f) σ
       ∧ a !! "href" = Some (if xml_compatible (stem f) then target else hrf).
Proof.
  intros Hrm Happ target. unfold stored_label.
  destruct (xml_compatible target) eqn:Ht.
  - destruct (xml_compatible (stem f)) eqn:Hs.
    { rewrite append_topicref_attach in Happ by done. injection Happ as <-.
      exists {[ "href" := target ]}. split; [done|].
      by rewrite lookup_singleton_eq. }
    revert Happ. unfold append_topicref. fold target.
    pose proof (attach_steps (ET.with_attr "href" target) parent "topicref"
                  {[ "href" := target ]} "" σ eq_refl) as H.
    cbv zeta in H. destruct H as (E1 & E2 & E3 & _ & E5).
    destruct (ET.SubElement parent "topicref" σ) as [tref σ1] eqn:S1.
    cbn [fst snd] in *. subst tref.
    unfold ET.set at 1. rewrite Ht. cbn [negb xml_name_valid].
    change (negb (xml_name_valid "href")) with false. cbv iota.
    destruct (ET.SubElement (List.length σ) "topicmeta" _) as [meta σ3] eqn:S3.
    cbn [fst snd] in *. subst meta.
    destruct (ET.SubElement (S (List.length σ)) "navtitle" σ3) as [nav σ4] eqn:S4.
    cbn [fst snd] in *. subst nav.
    unfold ET.set_text. rewrite Hs. cbn [negb]. unfold ET.set.
    change (negb (xml_name_valid "href")) with false. cbv iota.
    destruct (xml_compatible hrf); [|done]. cbn [negb]. intros [= <-].
    exists (<["href" := hrf]> {[ "href" := target ]}).
    split; [|by rewrite lookup_insert_eq].
    rewrite E5. unfold attach_opt, labelled_opt.
    by rewrite alter_at_0 by by rewrite length_alter.
  - exfalso. revert Happ. unfold append_topicref. fold target.
    destruct (ET.SubElement parent "topicref" σ) as [tref σ1] eqn:S1.
    unfold ET.set at 1. rewrite Ht. cbn [negb xml_name_valid].
    change (negb (xml_name_valid "href")) with false. cbv iota.
    unfold ET.set. change (negb (xml_name_valid "href")) with false. cbv iota.
    destruct (xml_compatible hrf) eqn:Hh; [|done]. intros _.
    assert (xml_compatible (basename hrf) = true) as Hb.
    { unfold basename. by apply forall_str_drop. }
    assert (xml_compatible (default (basename hrf) (rm !! basename hrf)) = true)
      as Hn.
    { destruct (rm !! basename hrf) as [v|] eqn:Hv; [|done].
      by eapply Hrm. }
    unfold target, xml_compatible in Ht. rewrite forall_str_app in Ht.
    unfold xml_compatible in Hn. rewrite Hn in Ht. by vm_compute in Ht.
Qed.
(** ** The video handler *)

Lemma bind_inr {A B} (m : result A) (k : A → result B) b :
  m ≫= k = inr b → ∃ a, m = inr a ∧ k a = inr b.
Proof. destruct m as [e|a]; [done|]. intros H. by exists a. Qed.

Lemma find_handler_video env cfg f :
  find_handler_for_file (video_registry env cfg) f
  = match video_can_handle env f with
    | inr true => inr (Some (VideoDocumentHandler env cfg))
    | inr false => inr None
    | inl e =>
        match lookup_error env f e with
        | Some e' => inl e'
        | None => inr None
        end
    end.
Proof.
  cbn [find_handler_for_file video_registry lookup_handler can_handle
       VideoDocumentHandler].
  destruct (video_can_handle env f) as [e|[|]]; [|done..].
  by destruct (lookup_error env f e).
Qed.

Lemma find_handler_accepts env cfg f :
  video_can_handle env f = inr true →
  find_handler_for_file (video_registry env cfg) f
  = inr (Some (VideoDocumentHandler env cfg)).
Proof. intros H. by rewrite find_handler_video, H. Qed.

(** The handler accepts a file only when its lowered suffix is one of the
    six extensions. *)
Lemma can_handle_suffix env f :
  video_can_handle env f = inr true →
  lower (suffix f) ∈ _supported_extensions.
Proof.
  unfold video_can_handle. destruct (path_exists env f) as [e|[|]]; [done| |done].
  cbn [mbind result_bind negb]. intros [= H]. by apply bool_decide_eq_true in H.
Qed.

Lemma retitle_all_video_topic t fname tid title data mime :
  retitle_all t [(fname, video_topic tid title data mime)]
  = [(fname, video_topic tid (if xml_compatible t then Some t else None)
               data mime)].
Proof. cbn. by destruct (xml_compatible t). Qed.

(** The topic the builder returns, with the title it chose. *)
Lemma build_video_topic_shape cfg md tid vi topic :
  build_video_topic cfg md tid vi = inr topic →
  ∃ vf,
    let title :=
      or_else (md !! "video_title") (stem (PurePosixPath (filename vi))) in
    _get_video_media_filename cfg (filename vi) = inr vf
    ∧ xml_compatible title = true
    ∧ topic = video_topic tid (Some title) ("../media/" +:+ vf)
                (_get_video_mime_type (extension vi)).
Proof.
  unfold build_video_topic.
  destruct (xml_compatible (or_else _ _)) eqn:Ht; [|done]. cbn [negb].
  destruct (_get_video_media_filename cfg (filename vi)) as [e|vf]; [done|].
  cbn [mbind result_bind].
  destruct (negb (xml_compatible _)); [done|].
  intros [= <-]. by exists vf.
Qed.

Lemma create_ditamap_href env md topic_filename vi m :
  _create_ditamap env md topic_filename vi = inr m →
  find_topicref_href m = Some ("topics/" +:+ topic_filename).
Proof.
  unfold _create_ditamap.
  destruct (negb (xml_compatible _)); [done|].
  destruct (negb (_ && _)); [done|].
  by intros [= <-].
Qed.

(** What a successful conversion returns: one topic named after the topic
    identifier, one video, no image, no per-video metadata, and a map whose
    reference names the topic. *)
Lemma video_convert_shape env cfg f md ctx :
  wf_path f → md !! "video_title" = None →
  video_convert_to_dita env cfg f md = inr ctx →
  ∃ tid topic vf blob,
    _generate_topic_id (name f) = inr tid
    ∧ topics ctx = [(tid +:+ ".dita", topic)]
    ∧ images ctx = [] ∧ videos ctx = [(vf, blob)] ∧ video_info_map ctx = []
    ∧ child_href ctx = Some ("topics/" +:+ tid +:+ ".dita")
    ∧ xml_compatible (stem f) = true
    ∧ _get_video_media_filename cfg (name f) = inr vf
    ∧ read_bytes env f = inr blob
    ∧ media_refs topic = [name (PurePosixPath ("../media/" +:+ vf))].
Proof.
  intros Hwf Hvt. unfold video_convert_to_dita.
  destruct (validate_file_exists env f); [done|].
  destruct (convert_steps env cfg f md) as [|ctx'] eqn:Hsteps; [done|].
  intros [= ->]. unfold convert_steps in Hsteps.
  destruct (negb (validate_format env f)); [done|].
  apply bind_inr in Hsteps as (vi & Hvi & Hsteps).
  apply bind_inr in Hsteps as (context & Hctx & Hsteps).
  unfold extract_metadata in Hvi.
  destruct (extract_metadata_error env f); [done|]. injection Hvi as <-.
  cbn [filename extension] in *.
  unfold create_dita_context in Hctx. cbn [filename] in Hctx.
  apply bind_inr in Hctx as (tid & Htid & Hctx).
  apply bind_inr in Hctx as (topic & Htopic & Hctx).
  apply bind_inr in Hctx as (vf & Hvf & Hctx).
  apply bind_inr in Hctx as (blob & Hblob & Hctx).
  apply bind_inr in Hctx as (m & Hm & Hctx).
  injection Hctx as <-.
  assert (xml_compatible (stem f) = true) as Hstem.
  { unfold build_video_topic in Htopic. cbn [filename] in Htopic.
    rewrite Hvt, stem_of_name in Htopic by done. cbn [or_else] in Htopic.
    by destruct (xml_compatible (stem f)). }
  assert (child_href {| topics := [(tid +:+ ".dita", topic)]; images := [];
                        videos := [(vf, blob)]; video_info_map := [];
                        ditamap_root := Some m |}
          = Some ("topics/" +:+ tid +:+ ".dita")) as Hhref.
  { unfold child_href. cbn [ditamap_root mbind option_bind].
    by rewrite (create_ditamap_href _ _ _ _ _ Hm). }
  apply build_video_topic_shape in Htopic as (vf' & Hvf' & _ & ->).
  cbn [filename extension] in Hvf'.
  assert (vf' = vf) as -> by congruence.
  cbn [topics images videos video_info_map ditamap_root] in Hsteps.
  rewrite stem_of_name, retitle_all_video_topic, Hstem in Hsteps by done.
  injection Hsteps as <-.
  exists tid, (video_topic tid (Some (stem f)) ("../media/" +:+ vf)
                 (_get_video_mime_type (lower (suffix f)))), vf, blob.
  cbn [topics images videos video_info_map]. repeat split; try done.
Qed.

(** ** One step of the aggregation *)

Lemma topic_filename_chars filename tid :
  _generate_topic_id filename = inr tid →
  forall_str (λ c, id_char c || bool_decide (c = "."%char)) (tid +:+ ".dita")
  = true.
Proof.
  intros H%generate_topic_id_chars. rewrite forall_str_app.
  apply andb_true_iff. split; [|done].
  eapply forall_str_impl; [|exact H]. by intros c ->.
Qed.

Lemma name_char_xml_ok c :
  id_char c || bool_decide (c = "."%char) = true → xml_char_ok c = true.
Proof. each_char c. Qed.

Lemma name_char_not_slash c :
  id_char c || bool_decide (c = "."%char) = true → negb (is_slash c) = true.
Proof. each_char c. Qed.

(** The media file name is one path component, so that the reference
    [../media/<name>] leads back to it. *)
Lemma media_filename_component cfg f vf :
  wf_path f → suffix f ≠ "" →
  _get_video_media_filename cfg (name f) = inr vf → is_component vf.
Proof.
  intros Hwf Hsuf. pose proof (suffix_name_nonempty _ Hsuf) as Hname.
  destruct (name_component _ Hwf Hname) as (_ & _ & Hsl).
  unfold _get_video_media_filename.
  destruct (preserve_original_filenames cfg).
  { intros [= <-]. by apply name_component. }
  intros (tid & Htid & [= <-])%bind_inr.
  assert (suffix (PurePosixPath (name f)) = suffix f) as ->.
  { unfold suffix. by rewrite name_of_name. }
  pose proof (suffix_length _ Hsuf) as Hlen.
  assert (2 ≤ String.length (tid +:+ suffix f))%nat as Hlen'.
  { rewrite str_length_app. lia. }
  repeat split.
  - intros E. rewrite E in Hlen'. simpl in Hlen'. lia.
  - intros E. rewrite E in Hlen'. simpl in Hlen'. lia.
  - rewrite forall_str_app. apply andb_true_iff. split.
    + eapply forall_str_impl; [|exact (generate_topic_id_chars _ _ Htid)].
      intros c Hc. apply name_char_not_slash. by rewrite Hc.
    + revert Hsuf. unfold suffix. destruct (suffix_index (name f)); [|done].
      intros _. by apply forall_str_drop.
Qed.

Lemma convert_file_skipped env cfg root_folder c fn f c' fn' :
  video_can_handle env f ≠ inr true →
  convert_file (video_registry env cfg) root_folder c fn f = inr (c', fn') →
  c' = c ∧ fn' = fn.
Proof.
  intros H. unfold convert_file. rewrite find_handler_video.
  destruct (video_can_handle env f) as [e|[|]]; [|done|].
  - destruct (lookup_error env f e); [done|]. by intros [= <- <-].
  - by intros [= <- <-].
Qed.

(** A file the handler accepts and converts adds one topic, one video and
    one labelled reference node below its target node. *)
Lemma convert_file_accepted env cfg root_folder c fn f c' fn' :
  wf_path f → video_can_handle env f = inr true →
  convert_file (video_registry env cfg) root_folder c fn f = inr (c', fn') →
  ∃ tid topic vf blob parent σ1,
    let safe := _dedup_name (tid +:+ ".dita") (c_topics c) in
    (read_bytes env f = inr blob ∧ media_refs topic = [vf])
    ∧ _generate_topic_id (name f) = inr tid
    ∧ target_node root_folder f (c_ditamap_root c) (c_elements c) fn
      = inr (parent, σ1, fn')
    ∧ c' = {| c_topics := <[safe := topic]> (c_topics c);
              c_images := c_images c;
              c_videos := <[_dedup_name vf (c_videos c) := blob]> (c_videos c);
              c_metadata := c_metadata c;
              c_source_plugin := c_source_plugin c;
              c_video_info_map := c_video_info_map c;
              c_elements :=
                attach parent "topicref" {[ "href" := "topics/" +:+ safe ]}
                  (stem f) σ1;
              c_ditamap_root := c_ditamap_root c |}.
Proof.
  intros Hwf Hcan. unfold convert_file. rewrite find_handler_accepts by done.
  cbn [mbind result_bind convert_to_dita VideoDocumentHandler].
  intros (ctx & Hconv & Hmerge)%bind_inr.
  apply video_convert_shape in Hconv
    as (tid & topic & vf & blob & Htid & Ht & Hi & Hv & Hm & Hhref & Hstem
        & Hvf & Hblob & Hrefs);
    [|done|by rewrite lookup_singleton_ne].
  rewrite name_media_path in Hrefs.
  2:{ eapply media_filename_component; [done| |exact Hvf].
      apply can_handle_suffix in Hcan as Hext.
      intros E. rewrite E in Hext. unfold _supported_extensions in Hext.
      list_cases Hext. }
  exists tid, topic, vf, blob.
  unfold merge_file, merge_context in Hmerge.
  rewrite Ht, Hi, Hv, Hm, Hhref in Hmerge.
  cbn [merge_topics merge_items] in Hmerge.
  rewrite !str_app_cons, str_app_nil_l in Hmerge.
  cbn [c_ditamap_root c_elements] in Hmerge.
  apply bind_inr in Hmerge as ([[parent σ1] fn1] & Htarget & Hmerge).
  apply bind_inr in Hmerge as (σ2 & Happ & Hmerge).
  injection Hmerge as <- <-. exists parent, σ1. split; [done|].
  split; [done|]. split; [done|].
  pose proof (topic_filename_chars _ _ Htid) as Hchars.
  set (tname := tid +:+ ".dita") in *.
  set (safe := _dedup_name tname (c_topics c)) in *.
  assert (basename ("topics/" +:+ tname) = tname) as Hbase.
  { apply basename_topics.
    eapply forall_str_impl; [apply name_char_not_slash|exact Hchars]. }
  rewrite !str_app_cons, str_app_nil_l in Hbase.
  assert (default tname
            ((if decide (safe ≠ tname)
              then <[tname := safe]> (∅ : gmap string string) else ∅)
               !! tname) = safe) as Hdef.
  { case_decide as Hne; [by rewrite lookup_insert_eq|].
    rewrite lookup_empty. simpl. by destruct (decide (safe = tname)). }
  rewrite append_topicref_attach in Happ.
  - rewrite Hbase, Hdef in Happ. by injection Happ as <-.
  - rewrite Hbase, Hdef.
    unfold xml_compatible. rewrite forall_str_app. apply andb_true_iff.
    split; [done|].
    apply dedup_name_chars; [done|apply digit_xml_ok|].
    eapply forall_str_impl; [apply name_char_xml_ok|exact Hchars].
  - done.
Qed.

(** The rename map that the merge of the topics builds maps a name to what
    [_dedup_name] made of it. *)
Lemma merge_topics_storable items dst rm :
  renames_storable rm → renames_storable (merge_topics items dst rm).2.
Proof.
  revert dst rm. induction items as [|[tname el] items IH]; intros dst rm Hrm;
    cbn [merge_topics]; [done|].
  apply IH. case_decide; [|done].
  intros k v Hk Hc. destruct (decide (k = tname)) as [->|Hne].
  - rewrite lookup_insert_eq in Hk. injection Hk as <-.
    by apply dedup_name_chars; [|apply digit_xml_ok|].
  - rewrite lookup_insert_ne in Hk by done. by eapply Hrm.
Qed.

(** ** Folder nodes never disturb the rest of the tree *)

Lemma ensure_loop_grows parts path_accum parent σ cache node σ' cache' :
  ensure_loop parts path_accum parent σ cache = inr (node, σ', cache') →
  grows σ σ'
  ∧ ∃ k, tag <$> σ' = (tag <$> σ) ++ concat (replicate k folder_tags).
Proof.
  revert path_accum parent σ cache.
  induction parts as [|part rest IH]; intros acc parent σ cache H.
  - injection H as <- <- <-. split; [apply grows_refl|].
    exists 0. by rewrite app_nil_r.
  - destruct (cache !! join "/" (acc ++ [part])) as [hit|] eqn:Hc.
    + rewrite (ensure_loop_hit _ _ _ _ _ _ _ Hc) in H. by eapply IH.
    + rewrite (ensure_loop_miss _ _ _ _ _ _ Hc) in H.
      destruct (xml_compatible part); [|done].
      apply IH in H as [G [k Hk]]. split.
      * eapply grows_trans; [apply attach_grows|exact G].
      * exists (S k). rewrite Hk, attach_tags. by rewrite <- app_assoc.
Qed.

Lemma target_node_grows root_folder f map_el σ fn parent σ' fn' :
  target_node root_folder f map_el σ fn = inr (parent, σ', fn') →
  grows σ σ'
  ∧ ∃ k, tag <$> σ' = (tag <$> σ) ++ concat (replicate k folder_tags).
Proof.
  assert (grows σ σ ∧ ∃ k, tag <$> σ = (tag <$> σ) ++ concat (replicate k folder_tags))
    as Hsame.
  { split; [apply grows_refl|]. exists 0. by rewrite app_nil_r. }
  unfold target_node. destruct root_folder as [rf|].
  - intros (rel & _ & H)%bind_inr. case_bool_decide.
    + unfold _ensure_folder_nodes in H.
      destruct (fn !! _); [by injection H as <- <- <-|].
      by eapply ensure_loop_grows.
    + by injection H as <- <- <-.
  - by intros [= <- <- <-].
Qed.

Lemma target_node_flat f map_el σ fn :
  target_node None f map_el σ fn = inr (map_el, σ, fn).
Proof. reflexivity. Qed.

Lemma nodes_with_tag_tags σ t :
  List.length (nodes_with_tag σ t)
  = List.length (filter (λ x, x = t) (tag <$> σ)).
Proof.
  unfold nodes_with_tag. induction σ as [|e σ IH]; [done|].
  rewrite fmap_cons, !filter_cons.
  destruct (decide (tag e = t)); simpl; by rewrite IH.
Qed.

Lemma folder_tags_no_other k t :
  t ∉ folder_tags → filter (λ x, x = t) (concat (replicate k folder_tags)) = [].
Proof.
  intros Ht. induction k as [|k IH]; [done|].
  cbn [replicate concat]. rewrite filter_app, IH, app_nil_r.
  unfold folder_tags in *. rewrite !filter_cons, filter_nil.
  repeat (case_decide; [exfalso; apply Ht; subst; repeat constructor|]).
  done.
Qed.

(** Growing the tree by folder nodes keeps the nodes of any other tag. *)
Lemma grows_keeps_tagged σ σ' k t :
  grows σ σ' → tag <$> σ' = (tag <$> σ) ++ concat (replicate k folder_tags) →
  t ∉ folder_tags →
  List.length (nodes_with_tag σ' t) = List.length (nodes_with_tag σ t)
  ∧ (∀ e', e' ∈ σ' → tag e' = t →
       ∃ e, e ∈ σ ∧ tag e = t ∧ attrib e = attrib e').
Proof.
  intros G Htags Ht. split.
  - rewrite !nodes_with_tag_tags, Htags, filter_app, length_app.
    by rewrite folder_tags_no_other.
  - intros e' [i Hi]%list_elem_of_lookup He'.
    destruct (decide (i < List.length σ)) as [Hlt|Hge].
    + destruct (lookup_lt_is_Some_2 σ i Hlt) as [e He].
      destruct (G _ _ He) as (e'' & He'' & ? & ? & _).
      assert (e'' = e') as -> by congruence.
      exists e. split; [by eapply list_elem_of_lookup_2|]. split; congruence.
    + exfalso.
      assert ((tag <$> σ') !! i = Some t) as Hti.
      { by rewrite list_lookup_fmap, Hi; simpl; f_equal. }
      rewrite Htags, lookup_app_r in Hti by (rewrite length_fmap; lia).
      apply list_elem_of_lookup_2 in Hti.
      assert (t ∈ filter (λ x, x = t) (concat (replicate k folder_tags))) as Hin.
      { by apply list_elem_of_filter. }
      rewrite folder_tags_no_other in Hin by done. set_solver.
Qed.

(** ** Invariants of the loop over the files *)

Section run.
Context (env : Env) (cfg : Config) (root_folder : option Path).

(** An invariant that every accepted and converted file preserves holds
    after the loop, for the accepted files in their order. *)
Lemma convert_files_invariant
    (I : Combined → gmap string nat → list Path → Prop) :
  (∀ c fn done f c' fn',
      I c fn done → wf_path f → video_can_handle env f = inr true →
      convert_file (video_registry env cfg) root_folder c fn f = inr (c', fn') →
      I c' fn' (done ++ [f])) →
  ∀ files done c fn c' fn',
    Forall wf_path files → I c fn done →
    convert_files (video_registry env cfg) root_folder files c fn
    = inr (c', fn') →
    I c' fn' (done ++ accepted env files).
Proof.
  intros Hstep files.
  induction files as [|f files IH]; intros done c fn c' fn' Hwf HI Hrun.
  - injection Hrun as <- <-. unfold accepted. by rewrite filter_nil, app_nil_r.
  - apply Forall_cons in Hwf as [Hf Hwf]. cbn [convert_files] in Hrun.
    apply bind_inr in Hrun as ([c1 fn1] & H1 & Hrun).
    unfold accepted. rewrite filter_cons.
    destruct (decide (video_can_handle env f = inr true)) as [Hcan|Hcan].
    + replace (done ++ f :: filter _ files)
        with ((done ++ [f]) ++ accepted env files)
        by by rewrite <- app_assoc.
      eapply IH; [done| |exact Hrun]. by eapply Hstep.
    + apply convert_file_skipped in H1 as [-> ->]; [|done].
      by eapply IH.
Qed.

Lemma counted_step c fn done f c' fn' :
  counted c done → wf_path f → video_can_handle env f = inr true →
  convert_file (video_registry env cfg) root_folder c fn f = inr (c', fn') →
  counted c' (done ++ [f]).
Proof.
  intros (Hsize & Hrefs & Htargets) Hwf Hcan Hconv.
  apply convert_file_accepted in Hconv
    as (tid & topic & vf & blob & parent & σ1 & _ & _ & Htarget & ->); [|done..].
  apply target_node_grows in Htarget as [G [k Hk]].
  destruct (grows_keeps_tagged _ _ k "topicref" G Hk) as [Hlen Hold].
  { unfold folder_tags. intros H. list_cases H. }
  set (safe := _dedup_name (tid +:+ ".dita") (c_topics c)) in *.
  pose proof (dedup_name_fresh (tid +:+ ".dita") (c_topics c)) as Hfresh.
  fold safe in Hfresh.
  unfold counted. cbn [c_topics c_elements]. rewrite length_app. simpl.
  split; [|split].
  - rewrite map_size_insert_None by done. lia.
  - rewrite attach_nodes_with_tag by done. rewrite decide_True by done. lia.
  - intros e He Htag. unfold attach in He. apply elem_of_app in He as [He|He].
    + apply list_elem_of_lookup in He as [i Hi].
      rewrite list_lookup_alter in Hi.
      assert (∃ e1, e1 ∈ σ1 ∧ tag e1 = "topicref" ∧ attrib e1 = attrib e)
        as (e1 & He1 & Ht1 & Ha1).
      { case_decide; subst.
        - destruct (σ1 !! i) as [e1|] eqn:E1; simplify_eq/=.
          exists e1. split; [by eapply list_elem_of_lookup_2|done].
        - exists e. split; [by eapply list_elem_of_lookup_2|done]. }
      destruct (Hold e1 He1 Ht1) as (e0 & He0 & Ht0 & Ha0).
      destruct (Htargets e0 He0 Ht0) as (key & Hhref & Hkey).
      exists key. split; [congruence|].
      destruct (decide (safe = key)) as [->|Hne];
        [by rewrite lookup_insert_eq|by rewrite lookup_insert_ne].
    + unfold labelled in He. apply elem_of_cons in He as [->|He].
      * exists safe. cbn [attrib]. split; [by rewrite lookup_singleton_eq|].
        by rewrite lookup_insert_eq.
      * exfalso. list_cases He.
Qed.

(** The metadata bag is not touched by the loop, whatever the handlers. *)
Lemma convert_file_metadata reg c fn f c' fn' :
  convert_file reg root_folder c fn f = inr (c', fn') →
  c_metadata c' = c_metadata c.
Proof.
  unfold convert_file.
  destruct (find_handler_for_file reg f) as [e|[h|]];
    [done| |by intros [= <- <-]].
  cbn [mbind result_bind].
  intros (ctx & _ & H)%bind_inr. unfold merge_file, merge_context in H.
  destruct (merge_topics _ _ _) as [t rm].
  destruct (child_href ctx) as [[|a r]|]; try by injection H as <- <-.
  apply bind_inr in H as ([[parent σ] fn1] & _ & H).
  apply bind_inr in H as (σ2 & _ & H). by injection H as <- <-.
Qed.

Lemma convert_files_metadata reg files c fn c' fn' :
  convert_files reg root_folder files c fn = inr (c', fn') →
  c_metadata c' = c_metadata c.
Proof.
  revert c fn. induction files as [|f files IH]; intros c fn H.
  - by injection H as <- <-.
  - cbn [convert_files] in H. apply bind_inr in H as ([c1 fn1] & H1 & H).
    apply IH in H. apply convert_file_metadata in H1. congruence.
Qed.

Lemma convert_files_app reg pre post c fn :
  convert_files reg root_folder (pre ++ post) c fn
  = convert_files reg root_folder pre c fn
      ≫= λ '(c1, fn1), convert_files reg root_folder post c1 fn1.
Proof.
  revert c fn. induction pre as [|f pre IH]; intros c fn; [done|].
  cbn [app convert_files].
  destruct (convert_file reg root_folder c fn f) as [e|[c1 fn1]]; [done|].
  apply IH.
Qed.

(** Files without a handler leave no trace in the run. *)
Lemma convert_files_skip reg pre f post c fn :
  find_handler_for_file reg f = inr None →
  convert_files reg root_folder (pre ++ f :: post) c fn
  = convert_files reg root_folder (pre ++ post) c fn.
Proof.
  intros Hf. rewrite !convert_files_app.
  destruct (convert_files reg root_folder pre c fn) as [e|[c1 fn1]]; [done|].
  cbn [mbind result_bind convert_files]. unfold convert_file at 1.
  by rewrite Hf.
Qed.

Lemma convert_files_handled_only reg files c fn :
  convert_files reg root_folder files c fn
  = convert_files reg root_folder (handled reg files) c fn.
Proof.
  revert c fn. induction files as [|f files IH]; intros c fn; [done|].
  unfold handled. rewrite filter_cons.
  destruct (find_handler_for_file reg f) as [e|[h|]] eqn:Hf; cbn [passes_over].
  - rewrite decide_True by done. cbn [convert_files].
    unfold convert_file. by rewrite Hf.
  - rewrite decide_True by done. cbn [convert_files].
    destruct (convert_file _ _ c fn f) as [e|[c1 fn1]]; [done|]. apply IH.
  - rewrite decide_False by done. cbn [convert_files].
    unfold convert_file at 1. rewrite Hf. apply IH.
Qed.

(** In a run that does not raise, the files that the lookup does not pass
    over are the files that the video handler accepts. *)
Lemma handled_video files c fn r :
  convert_files (video_registry env cfg) root_folder files c fn = inr r →
  handled (video_registry env cfg) files = accepted env files.
Proof.
  unfold handled, accepted. revert c fn.
  induction files as [|f files IH]; intros c fn Hrun; [done|].
  cbn [convert_files] in Hrun.
  apply bind_inr in Hrun as ([c1 fn1] & H1 & Hrun).
  rewrite !filter_cons, (IH _ _ Hrun).
  unfold convert_file in H1. rewrite find_handler_video in *.
  destruct (video_can_handle env f) as [e|[|]]; cbn [passes_over].
  - destruct (lookup_error env f e); [done|]. cbn [passes_over].
    by rewrite !decide_False.
  - by rewrite !decide_True.
  - by rewrite !decide_False.
Qed.

(** The first accepted file whose conversion raises ends the run with
    that exception. *)
Lemma convert_files_abort reg pre f post c fn c1 fn1 h e :
  convert_files reg root_folder pre c fn = inr (c1, fn1) →
  find_handler_for_file reg f = inr (Some h) →
  convert_to_dita h f
    {[ "manual_title" := default "Videos" (c_metadata c !! "manual_title") ]}
  = inl e →
  convert_files reg root_folder (pre ++ f :: post) c fn = inl e.
Proof.
  intros Hpre Hf He. rewrite convert_files_app, Hpre.
  cbn [mbind result_bind convert_files]. unfold convert_file.
  rewrite Hf, (convert_files_metadata _ _ _ _ _ _ Hpre).
  cbn [mbind result_bind]. by rewrite He.
Qed.
End run.

(** Flat mode with any handlers: a file that is converted, and whose
    result brings a reference, adds one reference node below the root. *)
Lemma flat_refs_step reg c fn done f c' fn' :
  (∀ handler ctx,
     find_handler_for_file reg f = inr (Some handler) →
     convert_to_dita handler f
       {[ "manual_title" :=
            default "Videos" (c_metadata c !! "manual_title") ]} = inr ctx →
     ∃ a r, child_href ctx = Some (String a r)) →
  flat_refs c done →
  convert_file reg None c fn f = inr (c', fn') →
  flat_refs c' (done ++ handled reg [f]).
Proof.
  intros Href (Hroot & root_e & Hlook & Htag & Hall).
  unfold convert_file, handled. rewrite filter_cons, filter_nil.
  destruct (find_handler_for_file reg f) as [e|[h|]] eqn:Hf; [done| |];
    cbn [mbind result_bind passes_over].
  2:{ intros [= <- <-]. rewrite decide_False by done. rewrite app_nil_r.
      split; [done|]. by exists root_e. }
  rewrite decide_True by done.
  intros (ctx & Hconv & Hmerge)%bind_inr.
  destruct (Href h ctx eq_refl Hconv) as (a & r & Hhref).
  unfold merge_file in Hmerge.
  destruct (merge_context c ctx) as [c1 rm] eqn:Em.
  assert (c_elements c1 = c_elements c ∧ c_ditamap_root c1 = c_ditamap_root c
          ∧ renames_storable rm) as (He1 & Hr1 & Hrm).
  { unfold merge_context in Em.
    destruct (merge_topics (topics ctx) (c_topics c) ∅) as [t rm'] eqn:Et.
    injection Em as <- <-. split; [done|]. split; [done|].
    change rm' with (t, rm').2. rewrite <- Et. by apply merge_topics_storable. }
  rewrite Hhref in Hmerge. rewrite target_node_flat in Hmerge.
  cbn [mbind result_bind] in Hmerge.
  apply bind_inr in Hmerge as (σ2 & Happ & [= <- <-]).
  apply append_topicref_cases in Happ as (attrs & -> & _); [|done].
  rewrite Hr1, He1, Hroot. unfold flat_refs, with_elements.
  cbn [c_elements c_ditamap_root]. rewrite Hr1. split; [done|].
  exists (ET.add_child (List.length (c_elements c)) root_e). split; [|split].
  - rewrite attach_opt_lookup_old by by eapply lookup_lt_Some.
    rewrite decide_True by done. by rewrite Hlook.
  - done.
  - cbn [ET.add_child children]. apply Forall2_app.
    + eapply Forall2_impl; [exact Hall|]. intros id g Hl.
      eapply labelled_opt_at_grows; [apply attach_opt_grows|exact Hl].
    + constructor; [|constructor]. apply attach_opt_labelled_at.
Qed.

Lemma initial_elements plugin_id today :
  c_elements (initial_combined plugin_id today) = [ET.new_element "map"].
Proof. reflexivity. Qed.

Lemma initial_metadata_title plugin_id today :
  c_metadata (initial_combined plugin_id today) !! "manual_title"
  = Some "VIDEO-LIBRARY".
Proof. reflexivity. Qed.

Lemma convert_many_inr reg root_folder plugin_id today files p :
  _convert_many reg root_folder plugin_id today files = inr p →
  ∃ fn, convert_files reg root_folder files
          (initial_combined plugin_id today) ∅ = inr (p, fn).
Proof.
  unfold _convert_many. intros ([c fn] & H & [= <-])%bind_inr. by exists fn.
Qed.
(** ** The batch run *)

(** C9, as the code has it: the handler accepts a path exactly when
    [stat] finds an entry at it, of whatever kind, and its lowered suffix is
    one of the six video extensions.  When [stat] finds an entry the answer
    is that test of the suffix; when it finds none the path is refused, and
    a batch run passes over it as if it were not in the batch; when [stat]
    fails with another error, the check raises that error. *)
Theorem can_handle_existing_video env cfg (file_path : Path) :
  (video_can_handle env file_path = inr true
   ↔ (∃ kind, stat env file_path = Found kind)
     ∧ lower (suffix file_path)
       ∈ [".mp4"; ".avi"; ".mov"; ".wmv"; ".webm"; ".mkv"])
  ∧ (∀ kind, stat env file_path = Found kind →
       video_can_handle env file_path
       = inr (bool_decide (lower (suffix file_path)
                           ∈ [".mp4"; ".avi"; ".mov"; ".wmv"; ".webm"; ".mkv"])))
  ∧ (stat env file_path = NotFound →
     video_can_handle env file_path = inr false
     ∧ ∀ root_folder plugin_id today pre post,
         _convert_many (video_registry env cfg) root_folder plugin_id today
           (pre ++ file_path :: post)
         = _convert_many (video_registry env cfg) root_folder plugin_id today
             (pre ++ post))
  ∧ (∀ e, stat env file_path = StatError e →
       video_can_handle env file_path = inl e).
Proof.
  split; [|split; [|split]].
  - unfold video_can_handle, path_exists. split.
    + destruct (stat env file_path) as [kind| |e]; [|done..].
      cbn [mbind result_bind negb]. intros [= H%bool_decide_eq_true].
      split; [by eexists|done].
    + intros [[kind ->] Hext]. cbn [mbind result_bind negb].
      by rewrite bool_decide_eq_true_2.
  - unfold video_can_handle, path_exists. by intros kind ->.
  - intros Hno.
    assert (video_can_handle env file_path = inr false) as Hcan.
    { unfold video_can_handle, path_exists. by rewrite Hno. }
    split; [done|].
    intros root_folder plugin_id today pre post. unfold _convert_many.
    rewrite convert_files_skip; [done|].
    by rewrite find_handler_video, Hcan.
  - unfold video_can_handle, path_exists. by intros e ->.
Qed.

Lemma can_handle_existing_video_witness :
  video_can_handle sample_env (PurePosixPath "/R/a/Clip.MP4") = inr true
  ∧ video_can_handle sample_env (PurePosixPath "/R/missing.mp4") = inr false
  ∧ ∃ e, video_can_handle sample_env (PurePosixPath "/R/locked.mp4") = inl e.
Proof.
  split; [|split].
  - apply (can_handle_existing_video sample_env sample_cfg).
    split; [by eexists|]. vm_compute. repeat constructor.
  - apply (proj1 (proj2 (proj2 (can_handle_existing_video sample_env sample_cfg
                    (PurePosixPath "/R/missing.mp4"))))).
    reflexivity.
  - eexists.
    apply (proj2 (proj2 (proj2 (can_handle_existing_video sample_env sample_cfg
                    (PurePosixPath "/R/locked.mp4"))))).
    reflexivity.
Defined.

(** C9, as stated, fails: at [/R/dir.mp4] there is a directory and no
    file, and the handler accepts the path. *)
Lemma can_handle_accepts_directory :
  stat sample_env (PurePosixPath "/R/dir.mp4") = Found Directory
  ∧ ¬ (video_can_handle sample_env (PurePosixPath "/R/dir.mp4") = inr true
       ↔ stat sample_env (PurePosixPath "/R/dir.mp4") = Found RegularFile
         ∧ lower (suffix (PurePosixPath "/R/dir.mp4"))
           ∈ [".mp4"; ".avi"; ".mov"; ".wmv"; ".webm"; ".mkv"]).
Proof.
  split; [reflexivity|]. intros [H _].
  by destruct (H eq_refl) as [[=] _].
Qed.

(** C5: files without a handler are passed over and do not fail the run:
    with any registry, the run over a batch is the run over the files for
    which a handler is found; with this plugin's handler registered, a
    project that is returned holds one topic and one reference node for
    every such file. *)
Theorem unsupported_files_skipped root_folder plugin_id today files :
  (∀ service_registry,
     _convert_many service_registry root_folder plugin_id today files
     = _convert_many service_registry root_folder plugin_id today
         (handled service_registry files))
  ∧ (∀ env cfg p,
       Forall wf_path files →
       _convert_many (video_registry env cfg) root_folder plugin_id today
         files = inr p →
       size (c_topics p)
       = List.length (handled (video_registry env cfg) files)
       ∧ List.length (nodes_with_tag (c_elements p) "topicref")
         = List.length (handled (video_registry env cfg) files)).
Proof.
  split.
  - intros reg. unfold _convert_many. by rewrite convert_files_handled_only.
  - intros env cfg p Hwf [fn Hrun]%convert_many_inr.
    rewrite (handled_video _ _ _ _ _ _ _ Hrun).
    eapply (convert_files_invariant env cfg root_folder (λ c _ d, counted c d))
      with (done := []) in Hrun; [| |done|].
    + destruct Hrun as (? & ? & _). done.
    + intros c fn0 done f c' fn' Hc. by apply counted_step.
    + repeat split. intros e He. rewrite initial_elements in He.
      list_cases He.
Qed.

Lemma unsupported_files_skipped_witness :
  ∃ p, _convert_many (video_registry sample_env sample_cfg) (Some sample_root)
         "orlando-video-plugin" "2025-01-01" sample_files = inr p
       ∧ size (c_topics p) = 2
       ∧ List.length (nodes_with_tag (c_elements p) "topicref") = 2.
Proof.
  eexists. split; [vm_compute; reflexivity|].
  apply (proj2 (unsupported_files_skipped (Some sample_root)
                  "orlando-video-plugin" "2025-01-01" sample_files)
           sample_env sample_cfg);
    [repeat constructor; done|vm_compute; reflexivity].
Defined.

(** With this plugin's handler registered, after a run that returns a
    project the target of every reference node of the map is a key of the
    topics; and the node attached for an accepted file names the key under
    which the topic of that file was stored, which is the renamed one when
    the name was taken. *)
Lemma references_resolve env cfg root_folder plugin_id today files p :
  Forall wf_path files →
  _convert_many (video_registry env cfg) root_folder plugin_id today files
  = inr p →
  (∀ e, e ∈ c_elements p → tag e = "topicref" → target_exists (c_topics p) e)
  ∧ (∀ c fn f c' fn',
       wf_path f → video_can_handle env f = inr true →
       convert_file (video_registry env cfg) root_folder c fn f = inr (c', fn') →
       ∃ tid topic parent σ,
         let safe := _dedup_name (tid +:+ ".dita") (c_topics c) in
         _generate_topic_id (name f) = inr tid
         ∧ c_topics c' = <[safe := topic]> (c_topics c)
         ∧ c_elements c'
           = attach parent "topicref" {[ "href" := "topics/" +:+ safe ]}
               (stem f) σ).
Proof.
  intros Hwf [fn Hrun]%convert_many_inr. split.
  - eapply (convert_files_invariant env cfg root_folder (λ c _ d, counted c d))
      with (done := []) in Hrun; [| |done|].
    + by destruct Hrun as (_ & _ & ?).
    + intros c fn0 done f c' fn' Hc. by apply counted_step.
    + repeat split. intros e He. rewrite initial_elements in He.
      list_cases He.
  - intros c fn0 f c' fn' Hf Hcan Hconv.
    apply convert_file_accepted in Hconv
      as (tid & topic & vf & blob & parent & σ1 & _ & Htid & _ & ->); [|done..].
    by exists tid, topic, parent, σ1.
Qed.

(** C2 at two files that a handler of another plugin converts to the topic
    name [c.dita], the second with a stem that lxml refuses as text: the
    topic of the second file is stored as [c-2.dita] and the target of its
    reference node is set to that name, but the assignment of the label
    raises and the [except] branch puts the target back to [topics/c.dita],
    the topic of the first file.  No reference leads to [c-2.dita]. *)
Theorem renamed_topic_not_relinked :
  match _convert_many (registry_of [sanitising_handler]) None
          "orlando-video-plugin" "2025-01-01" control_char_files
  with
  | inr p =>
      size (c_topics p) = 2
      ∧ is_Some (c_topics p !! "c.dita")
      ∧ is_Some (c_topics p !! "c-2.dita")
      ∧ (λ e, attrib e !! "href") <$> nodes_with_tag (c_elements p) "topicref"
        = [Some "topics/c.dita"; Some "topics/c.dita"]
  | inl _ => False
  end.
Proof. vm_compute. repeat split; by eexists. Qed.

(** The loop in flat mode, with any handlers. *)
Lemma flat_refs_run reg files done c fn c' fn' :
  c_metadata c !! "manual_title" = Some "VIDEO-LIBRARY" →
  brings_reference reg files → flat_refs c done →
  convert_files reg None files c fn = inr (c', fn') →
  flat_refs c' (done ++ handled reg files).
Proof.
  revert done c fn.
  induction files as [|f files IH]; intros done c fn Hmd Href Hflat Hrun.
  - injection Hrun as <- <-. unfold handled. by rewrite filter_nil, app_nil_r.
  - cbn [convert_files] in Hrun.
    apply bind_inr in Hrun as ([c1 fn1] & H1 & Hrun).
    replace (handled reg (f :: files))
      with (handled reg [f] ++ handled reg files)
      by (unfold handled; by rewrite <- filter_app).
    rewrite app_assoc. eapply IH; [| | |exact Hrun].
    + by rewrite (convert_file_metadata _ _ _ _ _ _ _ H1).
    + intros g h ctx Hg. apply Href. by right.
    + eapply flat_refs_step; [|exact Hflat|exact H1].
      intros h ctx Hh. rewrite Hmd. cbn [default]. apply Href; [by left|done].
Qed.

(** The conversion results of this plugin's handler bring a reference. *)
Lemma video_brings_reference env cfg files :
  Forall wf_path files → brings_reference (video_registry env cfg) files.
Proof.
  intros Hwf f h ctx Hf Hh Hconv. rewrite Forall_forall in Hwf.
  rewrite find_handler_video in Hh.
  assert (h = VideoDocumentHandler env cfg) as ->.
  { destruct (video_can_handle env f) as [e|[|]]; [|by injection Hh|done].
    by destruct (lookup_error env f e). }
  apply video_convert_shape in Hconv
    as (tid & _ & _ & _ & _ & _ & _ & _ & _ & Hhref & _); [|by apply Hwf|done].
  rewrite !str_app_cons in Hhref. by do 2 eexists.
Qed.

(** C8, as the code has it: without a root directory, the children of the
    map root are reference nodes and nothing else, one for each file that
    the lookup does not pass over, in the order of the batch (with any
    handlers whose results bring a reference).  The label of each is the
    name of its file without the extension when lxml takes that as text,
    and the node has no label when it does not.  With this plugin's handler
    the results bring a reference and the labels of all accepted files are
    taken; their extensions are video extensions. *)
Theorem flat_mode_children plugin_id today files :
  (∀ service_registry p,
     brings_reference service_registry files →
     _convert_many service_registry None plugin_id today files = inr p →
     ∃ root_e,
       c_elements p !! c_ditamap_root p = Some root_e
       ∧ tag root_e = "map"
       ∧ Forall2 (λ id f,
                    tag <$> c_elements p !! id = Some "topicref"
                    ∧ without_extension (name f) (stem f)
                    ∧ navtitle (c_elements p) id
                      = if xml_compatible (stem f) then Some (stem f)
                        else None)
                 (children root_e) (handled service_registry files))
  ∧ (∀ env cfg p,
       Forall wf_path files →
       _convert_many (video_registry env cfg) None plugin_id today files
       = inr p →
       brings_reference (video_registry env cfg) files
       ∧ handled (video_registry env cfg) files = accepted env files
       ∧ Forall (λ f, xml_compatible (stem f) = true
                      ∧ lower (suffix f) ∈ _supported_extensions)
                (accepted env files)).
Proof.
  split.
  - intros reg p Href [fn Hrun]%convert_many_inr.
    eapply (flat_refs_run reg files []) in Hrun; [|done|done|].
    2:{ split; [done|]. exists (ET.new_element "map"). repeat split.
        constructor. }
    destruct Hrun as (Hroot & root_e & Hlook & Htag & Hall).
    exists root_e. rewrite Hroot. split; [done|]. split; [done|].
    cbn [app] in Hall. eapply Forall2_impl; [exact Hall|].
    intros id f Hl. apply labelled_opt_at_navtitle in Hl as [Ht Hn].
    split; [done|]. split; [apply stem_without_extension|done].
  - intros env cfg p Hwf [fn Hrun]%convert_many_inr.
    split; [by apply video_brings_reference|].
    split; [by eapply handled_video|].
    eapply (convert_files_invariant env cfg None
              (λ _ _ d, Forall (λ f, xml_compatible (stem f) = true
                                     ∧ lower (suffix f) ∈ _supported_extensions)
                               d))
      with (done := []) in Hrun; [done| |done|done].
    intros c fn0 done f c' fn' Hd Hf Hcan Hconv.
    apply Forall_app. split; [done|]. constructor; [|done].
    split; [|by apply (can_handle_suffix env)].
    revert Hconv. unfold convert_file. rewrite find_handler_accepts by done.
    cbn [mbind result_bind convert_to_dita VideoDocumentHandler].
    intros (ctx & Hconv & _)%bind_inr.
    by apply video_convert_shape in Hconv
      as (? & ? & ? & ? & _ & _ & _ & _ & _ & _ & ? & _);
      [|done|by rewrite lookup_singleton_ne].
Qed.

Lemma flat_mode_children_witness :
  ∃ p root_e,
    _convert_many (video_registry sample_env sample_cfg) None
      "orlando-video-plugin" "2025-01-01" sample_files = inr p
    ∧ c_elements p !! c_ditamap_root p = Some root_e
    ∧ (λ id, navtitle (c_elements p) id) <$> children root_e
      = [Some "clip"; Some "clip"].
Proof.
  destruct (_convert_many (video_registry sample_env sample_cfg) None
              "orlando-video-plugin" "2025-01-01" sample_files)
    as [e|p] eqn:Hrun; [vm_compute in Hrun; discriminate|].
  destruct (flat_mode_children "orlando-video-plugin" "2025-01-01"
              sample_files) as [Hany Hvideo].
  destruct (Hvideo sample_env sample_cfg p) as (Href & Hh & _);
    [repeat constructor; done|exact Hrun|].
  destruct (Hany _ p Href Hrun) as (root_e & Hlook & _ & Hall).
  exists p, root_e. split; [reflexivity|]. split; [exact Hlook|].
  rewrite Hh in Hall.
  change (accepted sample_env sample_files)
    with [PurePosixPath "/R/a/clip.mp4"; PurePosixPath "/R/b/clip.mp4"]
    in Hall.
  apply Forall2_cons_inv_r in Hall as (i1 & l1 & (_ & _ & H1) & Hall & ->).
  apply Forall2_cons_inv_r in Hall as (i2 & l2 & (_ & _ & H2) & Hall & ->).
  apply Forall2_nil_inv_r in Hall as ->.
  rewrite !fmap_cons, H1, H2. reflexivity.
Defined.

(** C8, as stated, fails: the second of the two files has a stem that lxml
    refuses as text; its reference node is the second child of the map
    root, and it has no label. *)
Lemma flat_mode_unlabelled_node :
  match _convert_many (registry_of [sanitising_handler]) None
          "orlando-video-plugin" "2025-01-01" control_char_files
  with
  | inr p =>
      ∃ root_e id,
        c_elements p !! c_ditamap_root p = Some root_e
        ∧ children root_e !! 1 = Some id
        ∧ tag <$> c_elements p !! id = Some "topicref"
        ∧ navtitle (c_elements p) id = None
        ∧ stem <$> control_char_files !! 1 = Some ("c" +:+ String "001" "")
  | inl _ => False
  end.
Proof. vm_compute. do 2 eexists. repeat split. Qed.

(** C4: with any registry, when a handler is found for a file and its
    conversion raises, the run returns an exception and no project; when
    the run over the files before it succeeds, the exception is that of the
    conversion.  For this plugin's handler (unless the exception comes from
    the host's existence check) its text holds the path of the file and the
    text of the cause. *)
Theorem conversion_failure_aborts service_registry root_folder plugin_id today
    pre f post handler e :
  find_handler_for_file service_registry f = inr (Some handler) →
  convert_to_dita handler f batch_metadata = inl e →
  (∃ e', _convert_many service_registry root_folder plugin_id today
           (pre ++ f :: post) = inl e')
  ∧ (∀ p, _convert_many service_registry root_folder plugin_id today pre
          = inr p →
          _convert_many service_registry root_folder plugin_id today
            (pre ++ f :: post) = inl e)
  ∧ (∀ env cfg,
       handler = VideoDocumentHandler env cfg →
       validate_file_exists env f = None →
       ∃ cause, convert_steps env cfg f batch_metadata = inl cause
                ∧ e = Exception ("Failed to convert video " +:+ path_str f
                                 +:+ ": " +:+ str_exn cause)).
Proof.
  intros Hf He.
  assert (∀ p, _convert_many service_registry root_folder plugin_id today pre
               = inr p →
               _convert_many service_registry root_folder plugin_id today
                 (pre ++ f :: post) = inl e) as Hfirst.
  { intros p [fn Hpre]%convert_many_inr. unfold _convert_many.
    erewrite convert_files_abort; [done|exact Hpre|exact Hf|].
    by rewrite initial_metadata_title. }
  split; [|split; [exact Hfirst|]].
  - destruct (_convert_many service_registry root_folder plugin_id today pre)
      as [e0|p] eqn:Hpre.
    + exists e0. unfold _convert_many in *. rewrite convert_files_app.
      destruct (convert_files _ _ pre _ _) as [e1|[c1 fn1]]; [|done].
      by injection Hpre as ->.
    + exists e. by eapply Hfirst.
  - intros env cfg -> Hv. cbn [convert_to_dita VideoDocumentHandler] in He.
    unfold video_convert_to_dita in He. rewrite Hv in He.
    destruct (convert_steps env cfg f batch_metadata) as [cause|]; [|done].
    exists cause. split; [done|]. by injection He as <-.
Qed.

Lemma conversion_failure_aborts_witness :
  _convert_many (video_registry sample_env sample_cfg) None
    "orlando-video-plugin" "2025-01-01"
    ([PurePosixPath "/R/a.mp4"] ++ PurePosixPath "/R/bad.mp4"
       :: [PurePosixPath "/R/c.mp4"])
  = inl (Exception
           "Failed to convert video /R/bad.mp4: Unsupported or corrupted video file: /R/bad.mp4").
Proof.
  eapply (proj1 (proj2 (conversion_failure_aborts
            (video_registry sample_env sample_cfg) None
            "orlando-video-plugin" "2025-01-01" [PurePosixPath "/R/a.mp4"]
            (PurePosixPath "/R/bad.mp4") [PurePosixPath "/R/c.mp4"]
            (VideoDocumentHandler sample_env sample_cfg) _
            eq_refl eq_refl))).
  vm_compute. reflexivity.
Defined.
(** ** The folder cache *)

Lemma join_snoc l p :
  l ≠ [] → join "/" (l ++ [p]) = join "/" l +:+ "/" +:+ p.
Proof.
  induction l as [|x l IH]; [done|]. intros _.
  destruct l as [|y l]; [done|].
  cbn [app join] in *. rewrite IH by done. by rewrite !str_app_assoc.
Qed.

Lemma join_snoc_ne l p : l ≠ [] → join "/" (l ++ [p]) ≠ join "/" l.
Proof.
  intros Hl E. rewrite join_snoc in E by done.
  apply (f_equal String.length) in E. rewrite !str_length_app in E.
  simpl in E. lia.
Qed.

Lemma split_join l :
  Forall is_segment l → l ≠ [] → split "/" (join "/" l) = l.
Proof.
  induction l as [|x l IH]; [done|]. intros [Hx Hl]%Forall_cons _.
  destruct l as [|y l].
  - simpl. apply split_no_sep. apply Hx.
  - cbn [join]. rewrite split_app_no_sep by apply Hx.
    f_equal. by apply IH.
Qed.

Lemma segments_join l : Forall is_segment l → l ≠ [] → segments (join "/" l) = l.
Proof.
  intros Hl Hne. unfold segments. rewrite split_join by done.
  induction Hl as [|x l Hx _ IH]; [done|].
  rewrite filter_cons, decide_True by apply Hx.
  destruct l; [done|]. f_equal. by apply IH.
Qed.

Lemma segments_are_segments rel_key : Forall is_segment (segments rel_key).
Proof.
  unfold segments. apply Forall_forall. intros x [Hne Hx]%list_elem_of_filter.
  split; [done|].
  pose proof (split_components "/" rel_key) as H.
  rewrite Forall_forall in H. by apply H.
Qed.

Lemma join_inj l1 l2 :
  Forall is_segment l1 → Forall is_segment l2 → l1 ≠ [] → l2 ≠ [] →
  join "/" l1 = join "/" l2 → l1 = l2.
Proof.
  intros H1 H2 N1 N2 E.
  by rewrite <- (split_join l1), <- (split_join l2), E.
Qed.

Lemma prefix_keys_from_snoc acc parts p :
  prefix_keys_from acc (parts ++ [p])
  = prefix_keys_from acc parts ++ [join "/" (acc ++ parts ++ [p])].
Proof.
  revert acc. induction parts as [|x parts IH]; intros acc; [done|].
  cbn [app prefix_keys_from]. rewrite IH. by rewrite <- !app_assoc.
Qed.

Lemma cached_folder_grows σ σ' (cache cache' : gmap string nat) key id :
  grows σ σ' → cache ⊆ cache' →
  cached_folder σ cache key id → cached_folder σ' cache' key id.
Proof.
  intros G Hsub (ps & p & -> & Hseg & Hl & Hparent).
  exists ps, p. split; [done|]. split; [done|].
  split; [by eapply labelled_at_grows|].
  destruct Hparent as [[-> Hc]|[Hne (pid & Hpid & Hc)]].
  - left. split; [done|]. by eapply is_child_grows.
  - right. split; [done|]. exists pid. split.
    + by eapply lookup_weaken.
    + by eapply is_child_grows.
Qed.

Lemma folder_inv_start : folder_inv [ET.new_element "map"] ∅.
Proof.
  split; [simpl; lia|].
  split; [intros key id H; by rewrite lookup_empty in H|].
  split; [done|].
  split; [intros k1 k2 id H; by rewrite lookup_empty in H|].
  intros key id H. by rewrite lookup_empty in H.
Qed.

Lemma folder_inv_attach_ref σ cache parent a label :
  folder_inv σ cache → folder_inv (attach parent "topicref" a label σ) cache.
Proof.
  intros (H0 & Hv & Hc & Hj & Hp).
  split; [rewrite attach_length; lia|].
  split; [intros key id H; rewrite attach_length; specialize (Hv _ _ H); lia|].
  split; [by rewrite attach_nodes_with_tag, decide_False, Nat.add_0_r|].
  split; [done|].
  intros key id H. eapply cached_folder_grows; [apply attach_grows|done|auto].
Qed.

(** A missing prefix: the new folder node is cached, and the cache still
    describes the tree. *)
Lemma folder_inv_attach_folder σ cache path_accum part parent :
  folder_inv σ cache → Forall is_segment (path_accum ++ [part]) →
  (path_accum = [] ∧ parent = 0)
  ∨ (path_accum ≠ [] ∧ cache !! join "/" path_accum = Some parent) →
  cache !! join "/" (path_accum ++ [part]) = None →
  folder_inv (attach parent "topichead" ∅ part σ)
             (<[join "/" (path_accum ++ [part]) := List.length σ]> cache).
Proof.
  intros (H0 & Hv & Hc & Hj & Hp) Hseg Hparent Hmiss.
  set (key := join "/" (path_accum ++ [part])) in *.
  assert (parent < List.length σ) as Hplt.
  { destruct Hparent as [[_ ->]|[_ H]]; [done|by eapply Hv]. }
  assert (cache ⊆ <[key := List.length σ]> cache) as Hsub
    by by apply insert_subseteq.
  split; [rewrite attach_length; lia|].
  split.
  { intros k id. rewrite attach_length, lookup_insert.
    case_decide; [intros [= <-]; lia|]. intros Hk. specialize (Hv _ _ Hk). lia. }
  split.
  { rewrite attach_nodes_with_tag, decide_True by done.
    rewrite map_size_insert_None by done. lia. }
  split.
  { intros k1 k2 id. rewrite !lookup_insert.
    repeat case_decide; subst; try done.
    - intros [= <-] Hk. specialize (Hv _ _ Hk). lia.
    - intros Hk [= <-]. specialize (Hv _ _ Hk). lia.
    - apply Hj. }
  intros k id. rewrite lookup_insert. case_decide as Hk.
  - intros [= <-]. subst k. exists path_accum, part.
    split; [done|]. split; [done|]. split; [apply attach_labelled_at|].
    destruct Hparent as [[-> ->]|[Hne Hpar]].
    + left. split; [done|]. by apply attach_is_child.
    + right. split; [done|]. exists parent. split.
      * rewrite lookup_insert_ne; [done|]. by apply join_snoc_ne.
      * by apply attach_is_child.
  - intros Hid. eapply cached_folder_grows; [apply attach_grows|done|auto].
Qed.

Lemma ensure_loop_inv parts path_accum parent σ cache node σ' cache' :
  folder_inv σ cache → Forall is_segment (path_accum ++ parts) →
  (path_accum = [] ∧ parent = 0)
  ∨ (path_accum ≠ [] ∧ cache !! join "/" path_accum = Some parent) →
  ensure_loop parts path_accum parent σ cache = inr (node, σ', cache') →
  folder_inv σ' cache' ∧ grows σ σ' ∧ cache ⊆ cache'
  ∧ dom cache' = dom cache ∪ list_to_set (prefix_keys_from path_accum parts)
  ∧ ((parts = [] ∧ node = parent)
     ∨ (parts ≠ [] ∧ cache' !! join "/" (path_accum ++ parts) = Some node)).
Proof.
  revert path_accum parent σ cache.
  induction parts as [|part rest IH]; intros acc parent σ cache Hinv Hseg Hpar H.
  - injection H as <- <- <-. split; [done|]. split; [apply grows_refl|].
    split; [done|]. split; [|by left].
    cbn [prefix_keys_from list_to_set]. by rewrite union_empty_r_L.
  - set (key := join "/" (acc ++ [part])).
    assert (Forall is_segment ((acc ++ [part]) ++ rest)) as Hseg'
      by by rewrite <- app_assoc.
    assert (Forall is_segment (acc ++ [part])) as Hseg1.
    { apply Forall_app in Hseg' as [? _]. done. }
    assert (acc ++ [part] ≠ []) as Hne by by destruct acc.
    destruct (cache !! key) as [hit|] eqn:Hc.
    + rewrite (ensure_loop_hit _ _ _ _ _ _ _ Hc) in H.
      apply IH in H as (Hinv' & G & Hsub & Hdom & Hnode);
        [|done|done|by right].
      split; [done|]. split; [done|]. split; [done|]. split.
      * rewrite Hdom. cbn [prefix_keys_from list_to_set]. fold key.
        assert (key ∈ dom cache) as Hin by by apply elem_of_dom.
        apply set_eq. intros x.
        rewrite !elem_of_union, elem_of_singleton.
        clear -Hin. intuition (subst; auto).
      * right. split; [done|].
        destruct Hnode as [[-> ->]|[_ Hn]].
        -- rewrite app_nil_r in *. by eapply lookup_weaken.
        -- by rewrite <- app_assoc in Hn.
    + rewrite (ensure_loop_miss _ _ _ _ _ _ Hc) in H.
      destruct (xml_compatible part); [|done].
      pose proof (folder_inv_attach_folder σ cache acc part parent
                    Hinv Hseg1 Hpar Hc) as Hinv1.
      apply IH in H as (Hinv' & G & Hsub & Hdom & Hnode);
        [|done|done|right; split; [done|by rewrite lookup_insert_eq]].
      split; [done|].
      split; [eapply grows_trans; [apply attach_grows|exact G]|].
      split; [etrans; [by apply insert_subseteq|exact Hsub]|].
      split.
      * rewrite Hdom, dom_insert_L. cbn [prefix_keys_from list_to_set].
        fold key. apply set_eq. intros x.
        rewrite !elem_of_union, elem_of_singleton. clear. tauto.
      * right. split; [done|].
        destruct Hnode as [[-> ->]|[_ Hn]].
        -- rewrite app_nil_r in *. eapply lookup_weaken; [|exact Hsub].
           by rewrite lookup_insert_eq.
        -- by rewrite <- app_assoc in Hn.
Qed.

(** When every prefix is cached, the loop only follows the cache. *)
Lemma ensure_loop_all_hits parts path_accum parent σ (cache : gmap string nat) :
  (∀ key, key ∈ prefix_keys_from path_accum parts → is_Some (cache !! key)) →
  ∃ node,
    ensure_loop parts path_accum parent σ cache = inr (node, σ, cache)
    ∧ ((parts = [] ∧ node = parent)
       ∨ (parts ≠ [] ∧ cache !! join "/" (path_accum ++ parts) = Some node)).
Proof.
  revert path_accum parent.
  induction parts as [|part rest IH]; intros acc parent Hall.
  - exists parent. split; [done|by left].
  - destruct (Hall (join "/" (acc ++ [part]))) as [hit Hhit]; [by left|].
    destruct (IH (acc ++ [part]) hit) as (node & Hrun & Hnode).
    { intros key Hk. apply Hall. by right. }
    exists node. rewrite (ensure_loop_hit _ _ _ _ _ _ _ Hhit).
    split; [done|]. right. split; [done|].
    destruct Hnode as [[-> ->]|[_ Hn]]; [done|].
    by rewrite <- app_assoc in Hn.
Qed.

(** The cache is closed under prefixes. *)
Lemma cached_prefixes σ cache l :
  folder_inv σ cache → Forall is_segment l → l ≠ [] →
  is_Some (cache !! join "/" l) →
  ∀ key, key ∈ prefix_keys l → is_Some (cache !! key).
Proof.
  intros (_ & _ & _ & _ & Hp).
  induction l as [|p ps IH] using rev_ind; [done|].
  intros Hseg _ [id Hid] key Hkey.
  destruct (Hp _ _ Hid) as (ps' & p' & E & Hseg' & _ & Hparent).
  apply join_inj in E; [|done|done|by destruct ps|by destruct ps'].
  apply app_inj_tail in E as [<- <-].
  unfold prefix_keys in *. rewrite prefix_keys_from_snoc in Hkey.
  apply elem_of_app in Hkey as [Hkey|Hkey].
  - destruct Hparent as [[-> _]|[Hne (pid & Hpid & _)]]; [by list_cases Hkey|].
    apply Forall_app in Hseg as [Hps _]. by apply IH.
  - list_cases Hkey.
Qed.

Lemma ensure_folder_nodes_inv σ cache rel_key node σ' cache' :
  folder_inv σ cache →
  _ensure_folder_nodes 0 cache rel_key σ = inr (node, σ', cache') →
  folder_inv σ' cache' ∧ grows σ σ' ∧ cache ⊆ cache'
  ∧ dom cache' = dom cache ∪ list_to_set (prefix_keys (segments rel_key))
  ∧ ((segments rel_key = [] ∧ node = 0)
     ∨ (segments rel_key ≠ []
        ∧ cache' !! join "/" (segments rel_key) = Some node))
  ∧ _ensure_folder_nodes 0 cache' rel_key σ' = inr (node, σ', cache').
Proof.
  intros Hinv H. unfold _ensure_folder_nodes in H.
  assert (∀ σ1 (cache1 : gmap string nat) id,
            folder_inv σ1 cache1 → cache1 !! rel_key = Some id →
            segments rel_key ≠ [] ∧ join "/" (segments rel_key) = rel_key)
    as Hnormal.
  { intros σ1 cache1 id (_ & _ & _ & _ & Hp) Hid.
    destruct (Hp _ _ Hid) as (ps & p & -> & Hseg & _).
    rewrite segments_join by (done || by destruct ps). split; [by destruct ps|done]. }
  assert (folder_inv σ' cache' ∧ grows σ σ' ∧ cache ⊆ cache'
          ∧ dom cache' = dom cache ∪ list_to_set (prefix_keys (segments rel_key))
          ∧ ((segments rel_key = [] ∧ node = 0)
             ∨ (segments rel_key ≠ []
                ∧ cache' !! join "/" (segments rel_key) = Some node)))
    as (Hinv' & G & Hsub & Hdom & Hnode).
  { destruct (cache !! rel_key) as [hit|] eqn:Hc.
    - injection H as <- <- <-.
      destruct (Hnormal _ _ _ Hinv Hc) as [Hne Hjoin].
      split; [done|]. split; [apply grows_refl|]. split; [done|]. split.
      + apply set_eq. intros x. rewrite elem_of_union, elem_of_list_to_set.
        split; [tauto|]. intros [?|Hx]; [done|]. apply elem_of_dom.
        eapply cached_prefixes; [done|apply segments_are_segments|done| |done].
        rewrite Hjoin. by eexists.
      + right. by rewrite Hjoin.
    - eapply ensure_loop_inv in H; [|done|apply segments_are_segments|by left].
      done. }
  repeat (split; [done|]).
  unfold _ensure_folder_nodes. fold (segments rel_key).
  destruct (cache' !! rel_key) as [hit|] eqn:Hc'.
  - destruct (Hnormal _ _ _ Hinv' Hc') as [Hne Hjoin].
    destruct Hnode as [[? _]|[_ Hn]]; [done|]. rewrite Hjoin in Hn. congruence.
  - destruct (ensure_loop_all_hits (segments rel_key) [] 0 σ' cache')
      as (node' & Hrun & Hnode').
    { intros key Hkey. apply elem_of_dom. rewrite Hdom.
      apply elem_of_union. right. by apply elem_of_list_to_set. }
    rewrite Hrun. f_equal. f_equal. f_equal.
    destruct Hnode as [[E ->]|[Hne Hn]], Hnode' as [[E' ->]|[Hne' Hn']];
      try done. cbn [app] in Hn'. congruence.
Qed.

Lemma run_state_inv σ cache : run_state σ cache → folder_inv σ cache.
Proof.
  induction 1 as [|σ cache rel_key node σ' cache' _ IH H|σ cache parent a label _ IH _].
  - apply folder_inv_start.
  - by apply (ensure_folder_nodes_inv _ _ _ _ _ _ IH H).
  - by apply folder_inv_attach_ref.
Qed.

(** C6: within one run, the resolver keeps one folder node for every
    distinct path prefix.  A call adds to the cache exactly the prefixes of
    its path that were not cached and leaves the others, and the nodes of
    the tree, as they were; the tree has as many folder nodes as the cache
    has keys, and no node is cached under two keys.  Every cached key
    spells segments (not empty, without a slash); its node is a folder node
    labelled with the last of them, and it hangs below the node cached for
    the segments before it (below the root when there is one segment).  The
    call returns the node of the whole path (the root when the path has no
    segment), and a second call with the same path returns the same node
    and leaves tree and cache as they are. *)
Theorem folder_nodes_memoized σ cache rel_key node σ' cache' :
  run_state σ cache →
  _ensure_folder_nodes 0 cache rel_key σ = inr (node, σ', cache') →
  let parts := segments rel_key in
  cache ⊆ cache'
  ∧ dom cache' = dom cache ∪ list_to_set (prefix_keys parts)
  ∧ grows σ σ'
  ∧ List.length (nodes_with_tag σ "topichead") = size cache
  ∧ List.length (nodes_with_tag σ' "topichead") = size cache'
  ∧ (∀ k1 k2 id, cache' !! k1 = Some id → cache' !! k2 = Some id → k1 = k2)
  ∧ (∀ key id, cache' !! key = Some id →
       ∃ ps p, key = join "/" (ps ++ [p])
               ∧ Forall is_segment (ps ++ [p])
               ∧ tag <$> σ' !! id = Some "topichead"
               ∧ navtitle σ' id = Some p
               ∧ ((ps = [] ∧ is_child σ' 0 id)
                  ∨ (ps ≠ [] ∧ ∃ pid, cache' !! join "/" ps = Some pid
                                      ∧ is_child σ' pid id)))
  ∧ ((parts = [] ∧ node = 0)
     ∨ (parts ≠ [] ∧ cache' !! join "/" parts = Some node))
  ∧ _ensure_folder_nodes 0 cache' rel_key σ' = inr (node, σ', cache').
Proof.
  intros Hrun%run_state_inv H parts.
  destruct (ensure_folder_nodes_inv _ _ _ _ _ _ Hrun H)
    as (Hinv' & _ & Hsub & Hdom & Hnode & Hagain).
  split; [done|]. split; [done|].
  split.
  { unfold _ensure_folder_nodes in H.
    destruct (cache !! rel_key); [injection H as <- <- <-; apply grows_refl|].
    by eapply ensure_loop_grows. }
  split; [by destruct Hrun as (_ & _ & ? & _)|].
  split; [by destruct Hinv' as (_ & _ & ? & _)|].
  split; [by destruct Hinv' as (_ & _ & _ & ? & _)|].
  split; [|done].
  intros key id Hid. destruct Hinv' as (_ & _ & _ & _ & Hp).
  destruct (Hp _ _ Hid) as (ps & p & -> & Hseg & Hl & Hparent).
  exists ps, p. split; [done|]. split; [done|].
  by destruct (labelled_at_navtitle _ _ _ _ Hl) as [-> ->].
Qed.

Lemma folder_nodes_memoized_witness :
  ∃ node σ' cache',
    _ensure_folder_nodes 0 ∅ "season1/intros" [ET.new_element "map"]
    = inr (node, σ', cache')
    ∧ List.length (nodes_with_tag σ' "topichead") = size cache'
    ∧ (∃ pid, cache' !! "season1" = Some pid ∧ is_child σ' pid node
              ∧ navtitle σ' node = Some "intros")
    ∧ _ensure_folder_nodes 0 cache' "season1/intros" σ' = inr (node, σ', cache').
Proof.
  destruct (_ensure_folder_nodes 0 ∅ "season1/intros" [ET.new_element "map"])
    as [e|[[node σ'] cache']] eqn:H; [vm_compute in H; discriminate|].
  exists node, σ', cache'. split; [reflexivity|].
  destruct (folder_nodes_memoized _ _ _ _ _ _ run_start H)
    as (_ & _ & _ & _ & H1 & _ & Hkeys & Hnode & H2).
  split; [exact H1|]. split; [|exact H2].
  destruct Hnode as [[Hno _]|[_ Hnode]]; [by vm_compute in Hno|].
  change (segments "season1/intros") with ["season1"; "intros"] in Hnode.
  change (join "/" ["season1"; "intros"]) with "season1/intros" in Hnode.
  destruct (Hkeys _ _ Hnode) as (ps & p & Hkey & Hseg & _ & Hnav & Hparent).
  assert (ps ++ [p] = ["season1"; "intros"]) as Hl.
  { apply join_inj; [done|repeat constructor; done|by destruct ps|done|].
    by rewrite <- Hkey. }
  assert (ps = ["season1"] ∧ p = "intros") as [-> ->].
  { destruct ps as [|a [|b ps]]; simplify_eq/=; [done|].
    by destruct ps. }
  destruct Hparent as [[? _]|[_ (pid & Hpid & Hchild)]]; [done|].
  exists pid. split; [exact Hpid|]. split; [exact Hchild|exact Hnav].
Defined.
(** ** Media and per-video metadata *)

Lemma lookup_same_dom {A B} (used1 : gmap string A) (used2 : gmap string B) k :
  dom used1 = dom used2 → is_Some (used1 !! k) ↔ is_Some (used2 !! k).
Proof. intros Hdom. by rewrite <- !elem_of_dom, Hdom. Qed.

Lemma dedup_loop_dom {A B} (used1 : gmap string A) (used2 : gmap string B)
    fuel base ext i :
  dom used1 = dom used2 →
  dedup_loop fuel base ext used1 i = dedup_loop fuel base ext used2 i.
Proof.
  intros Hdom. revert i. induction fuel as [|fuel IH]; intros i; simpl;
    pose proof (lookup_same_dom used1 used2 (candidate base ext i) Hdom) as Hk;
    destruct (used1 !! candidate base ext i) eqn:E1,
             (used2 !! candidate base ext i) eqn:E2; try done.
  - destruct Hk as [Hk _]. by destruct Hk.
  - destruct Hk as [_ Hk]. by destruct Hk.
Qed.

(** The name [_dedup_name] returns depends on the keys only. *)
Lemma dedup_name_dom {A B} (used1 : gmap string A) (used2 : gmap string B) nm :
  dom used1 = dom used2 → _dedup_name nm used1 = _dedup_name nm used2.
Proof.
  intros Hdom. unfold _dedup_name.
  assert (size used1 = size used2) as Hsize.
  { by rewrite <- (size_dom (D := gset string) used1),
               <- (size_dom (D := gset string) used2), Hdom. }
  pose proof (lookup_same_dom used1 used2 nm Hdom) as Hk.
  destruct (used1 !! nm) eqn:E1, (used2 !! nm) eqn:E2.
  - destruct (splitext nm). rewrite Hsize. by apply dedup_loop_dom.
  - destruct Hk as [Hk _]. by destruct Hk.
  - destruct Hk as [_ Hk]. by destruct Hk.
  - done.
Qed.

Lemma final_keys_dom {A B} (items1 : list (string * A))
    (items2 : list (string * B)) (dst1 : gmap string A) (dst2 : gmap string B) :
  items1.*1 = items2.*1 → dom dst1 = dom dst2 →
  final_keys items1 dst1 = final_keys items2 dst2
  ∧ dom (merge_items items1 dst1) = dom (merge_items items2 dst2).
Proof.
  revert items2 dst1 dst2.
  induction items1 as [|[k1 v1] items1 IH]; intros [|[k2 v2] items2] dst1 dst2 E Hdom;
    simplify_eq/=; [done|].
  rewrite (dedup_name_dom dst1 dst2 k2 Hdom).
  destruct (IH items2 (<[_dedup_name k2 dst2 := v1]> dst1)
              (<[_dedup_name k2 dst2 := v2]> dst2)) as [-> ->]; [done| |done].
  by rewrite !dom_insert_L, Hdom.
Qed.

(** Every merged item sits under the key the loop gave it; the key was free,
    and what was in the destination before is still there. *)
Lemma merge_items_stored {V} (items : list (string * V)) (dst : gmap string V) :
  dst ⊆ merge_items items dst
  ∧ Forall2 (λ key item, dst !! key = None
                         ∧ merge_items items dst !! key = Some item.2)
            (final_keys items dst) items.
Proof.
  revert dst. induction items as [|[k v] items IH]; intros dst; [done|].
  cbn [merge_items final_keys].
  set (key := _dedup_name k dst).
  pose proof (dedup_name_fresh k dst) as Hfresh. fold key in Hfresh.
  destruct (IH (<[key := v]> dst)) as [Hsub Hall].
  split; [etrans; [by apply insert_subseteq|exact Hsub]|].
  constructor.
  - split; [done|]. eapply lookup_weaken; [|exact Hsub].
    by rewrite lookup_insert_eq.
  - eapply Forall2_impl; [exact Hall|]. intros key' item [Hnone Hsome].
    split; [|done]. by apply lookup_insert_None in Hnone as [? _].
Qed.

(** What the merge does keep: the per-video metadata of a file is kept in the
    index, under keys reserved in the index's own namespace; the media blobs
    are stored under keys reserved in the media namespace; the two lists of
    keys are the same, and the namespaces stay aligned, when index and media
    held the same keys before the file and the file names its metadata as
    it names its media, in the same order. *)
Theorem aux_metadata_rekeyed (combined : Combined) (ctx : DitaContext) :
  let aux := default ∅ (c_video_info_map combined) in
  let combined' := (merge_context combined ctx).1 in
  let aux' := default ∅ (c_video_info_map combined') in
  aux ⊆ aux'
  ∧ Forall2 (λ key item, aux !! key = None ∧ aux' !! key = Some item.2)
            (final_keys (video_info_map ctx) aux) (video_info_map ctx)
  ∧ Forall2 (λ key item, c_videos combined !! key = None
                         ∧ c_videos combined' !! key = Some item.2)
            (final_keys (videos ctx) (c_videos combined)) (videos ctx)
  ∧ (dom aux = dom (c_videos combined) →
     (video_info_map ctx).*1 = (videos ctx).*1 →
     final_keys (video_info_map ctx) aux
     = final_keys (videos ctx) (c_videos combined)
     ∧ dom aux' = dom (c_videos combined')).
Proof.
  intros aux combined' aux'.
  assert (aux' = merge_items (video_info_map ctx) aux) as ->.
  { unfold aux', combined', merge_context.
    destruct (merge_topics _ _ _) as [t rm]. cbn [fst c_video_info_map].
    by destruct (video_info_map ctx). }
  assert (c_videos combined' = merge_items (videos ctx) (c_videos combined)) as ->.
  { unfold combined', merge_context. by destruct (merge_topics _ _ _). }
  destruct (merge_items_stored (video_info_map ctx) aux) as [Hsub Haux].
  destruct (merge_items_stored (videos ctx) (c_videos combined)) as [_ Hmedia].
  repeat (split; [done|]).
  intros Hdom Hnames. by apply final_keys_dom.
Qed.

Lemma aux_metadata_rekeyed_witness :
  final_keys [("clip.mp4", sample_info)]
    ({[ "clip.mp4" := sample_info ]} : gmap string (gmap string string))
  = final_keys [("clip.mp4", [Byte.x02])]
      ({[ "clip.mp4" := [Byte.x01] ]} : gmap string (list Byte.byte)).
Proof.
  pose (combined :=
    {| c_topics := ∅; c_images := ∅;
       c_videos := {[ "clip.mp4" := [Byte.x01] ]};
       c_metadata := ∅; c_source_plugin := "";
       c_video_info_map := Some {[ "clip.mp4" := sample_info ]};
       c_elements := []; c_ditamap_root := 0 |}).
  pose (ctx :=
    {| topics := []; images := []; videos := [("clip.mp4", [Byte.x02])];
       video_info_map := [("clip.mp4", sample_info)]; ditamap_root := None |}).
  destruct (aux_metadata_rekeyed combined ctx) as (_ & _ & _ & H).
  destruct H as [H _]; [vm_compute; reflexivity|reflexivity|exact H].
Defined.


(** *** Media references of the topics *)

Lemma dedup_name_absent {A} nm (used : gmap string A) :
  used !! nm = None → _dedup_name nm used = nm.
Proof. intros H. unfold _dedup_name. by rewrite H. Qed.

(** The merge stores the topic as the handler built it.  It refers to the
    media name the handler chose, while the blob of the file goes to the key
    that [_dedup_name] reserves: when the name is taken, the reference stays
    with the earlier blob. *)
Lemma media_rename_not_propagated env cfg root_folder c fn f c' fn' :
  wf_path f → video_can_handle env f = inr true →
  convert_file (video_registry env cfg) root_folder c fn f = inr (c', fn') →
  ∃ tid topic vf blob,
    read_bytes env f = inr blob
    ∧ c_topics c' !! _dedup_name (tid +:+ ".dita") (c_topics c) = Some topic
    ∧ media_refs topic = [vf]
    ∧ c_videos c' !! _dedup_name vf (c_videos c) = Some blob
    ∧ (∀ earlier, c_videos c !! vf = Some earlier →
         _dedup_name vf (c_videos c) ≠ vf ∧ c_videos c' !! vf = Some earlier).
Proof.
  intros Hwf Hcan Hconv.
  apply convert_file_accepted in Hconv
    as (tid & topic & vf & blob & parent & σ1 & [Hblob Hrefs] & _ & _ & ->);
    [|done..].
  exists tid, topic, vf, blob. cbn [c_topics c_videos].
  rewrite !lookup_insert_eq. repeat split; try done.
  - intros E. pose proof (dedup_name_fresh vf (c_videos c)) as Hfresh.
    rewrite E in Hfresh. congruence.
  - rewrite lookup_insert_ne; [done|].
    intros E. pose proof (dedup_name_fresh vf (c_videos c)) as Hfresh.
    rewrite E in Hfresh. congruence.
Qed.

Lemma media_resolve_step env cfg root_folder c fn f c' fn' :
  media_resolve c → wf_path f → video_can_handle env f = inr true →
  convert_file (video_registry env cfg) root_folder c fn f = inr (c', fn') →
  media_resolve c'.
Proof.
  intros Hinv Hwf Hcan Hconv.
  apply convert_file_accepted in Hconv
    as (tid & topic & vf & blob & parent & σ1 & [_ Hrefs] & _ & _ & ->);
    [|done..].
  intros k t r Hk Hr. cbn [c_topics c_videos] in *.
  assert (is_Some (c_videos c !! r) ∨ r = vf) as [[b Hold]| ->].
  { destruct (decide (_dedup_name (tid +:+ ".dita") (c_topics c) = k))
      as [<-|Hne].
    - rewrite lookup_insert_eq in Hk. injection Hk as <-.
      rewrite Hrefs in Hr. right. by apply list_elem_of_singleton.
    - rewrite lookup_insert_ne in Hk by done. left. by eapply Hinv. }
  - rewrite lookup_insert. case_decide; [done|]. by rewrite Hold.
  - destruct (c_videos c !! vf) as [b|] eqn:E.
    + rewrite lookup_insert. case_decide; [done|]. by rewrite E.
    + rewrite dedup_name_absent by done. by rewrite lookup_insert_eq.
Qed.

(** In a project that is returned, every media reference of every topic
    leads to a key of the videos. *)
Lemma media_references_resolve env cfg root_folder plugin_id today files p :
  Forall wf_path files →
  _convert_many (video_registry env cfg) root_folder plugin_id today files
  = inr p →
  media_resolve p.
Proof.
  intros Hwf [fn Hrun]%convert_many_inr.
  eapply (convert_files_invariant env cfg root_folder
            (λ c _ _, media_resolve c)) with (done := []) in Hrun;
    [done| |done|].
  - intros c fn0 done f c' fn' Hc. by apply media_resolve_step.
  - intros k t r Hk.
    change (c_topics _) with (∅ : gmap string xml) in Hk.
    by rewrite lookup_empty in Hk.
Qed.

(** C1 at two files that both yield the media name [clip.mp4]: the media
    map holds [clip.mp4] (the first file) and [clip-2.mp4] (the second),
    the topic of the second file is stored as [clip-2.dita] and the map
    refers to it under that name, but the media that topic embeds is still
    [clip.mp4], the blob of the first file. *)
Theorem renamed_media_not_relinked :
  match _convert_many (video_registry sample_env sample_cfg) (Some sample_root)
          "orlando-video-plugin" "2025-01-01" sample_files
  with
  | inr p =>
      c_videos p !! "clip.mp4" = Some [Byte.x01]
      ∧ c_videos p !! "clip-2.mp4" = Some [Byte.x02]
      ∧ size (c_videos p) = 2
      ∧ media_refs <$> c_topics p !! "clip.dita" = Some ["clip.mp4"]
      ∧ media_refs <$> c_topics p !! "clip-2.dita" = Some ["clip.mp4"]
      ∧ (λ e, attrib e !! "href") <$> nodes_with_tag (c_elements p) "topicref"
        = [Some "topics/clip.dita"; Some "topics/clip-2.dita"]
  | inl _ => False
  end.
Proof. vm_compute. done. Qed.

(** ** The arena is the tree *)

Lemma attach_connected parent t a label σ :
  parent < List.length σ → connected σ → connected (attach parent t a label σ).
Proof.
  intros Hp Hconn i Hi. rewrite attach_length in Hi.
  destruct (decide (i < List.length σ)) as [Hold|Hnew].
  - destruct (Hconn i) as (p & Hlt & Hc); [lia|].
    exists p. split; [done|]. eapply is_child_grows; [apply attach_grows|done].
  - destruct (attach_labelled_at parent t a label σ)
      as (e & m & v & He & _ & Hce & Hm & _ & Hcm & _).
    destruct (decide (i = List.length σ)) as [->|Hne].
    { exists parent. split; [done|]. by apply attach_is_child. }
    destruct (decide (i = S (List.length σ))) as [->|Hne'].
    { exists (List.length σ). split; [lia|]. exists e. split; [done|].
      destruct (children e); simplify_eq/=. by left. }
    assert (i = S (S (List.length σ))) as -> by lia.
    exists (S (List.length σ)). split; [lia|]. exists m. split; [done|].
    destruct (children m); simplify_eq/=. by left.
Qed.

(** Whatever attaching below an existing node preserves, the resolver
    preserves. *)
Lemma ensure_loop_preserves (Q : list element → Prop)
    parts path_accum parent σ cache node σ' cache' :
  (∀ parent t a label σ,
      parent < List.length σ → Q σ → Q (attach parent t a label σ)) →
  folder_inv σ cache → Forall is_segment (path_accum ++ parts) →
  (path_accum = [] ∧ parent = 0)
  ∨ (path_accum ≠ [] ∧ cache !! join "/" path_accum = Some parent) →
  Q σ →
  ensure_loop parts path_accum parent σ cache = inr (node, σ', cache') →
  Q σ'.
Proof.
  intros HQ. revert path_accum parent σ cache.
  induction parts as [|part rest IH];
    intros acc parent σ cache Hinv Hseg Hpar Hq H.
  - by injection H as <- <- <-.
  - assert (Forall is_segment ((acc ++ [part]) ++ rest)) as Hseg'
      by by rewrite <- app_assoc.
    assert (Forall is_segment (acc ++ [part])) as Hseg1.
    { apply Forall_app in Hseg' as [? _]. done. }
    assert (acc ++ [part] ≠ []) as Hne by by destruct acc.
    destruct (cache !! join "/" (acc ++ [part])) as [hit|] eqn:Hc.
    + rewrite (ensure_loop_hit _ _ _ _ _ _ _ Hc) in H.
      eapply IH; [done|done|by right|done|exact H].
    + rewrite (ensure_loop_miss _ _ _ _ _ _ Hc) in H.
      destruct (xml_compatible part); [|done].
      assert (parent < List.length σ) as Hplt.
      { destruct Hinv as (H0 & Hv & _).
        destruct Hpar as [[_ ->]|[_ Hl]]; [done|by eapply Hv]. }
      eapply IH; [|done| |by apply HQ|exact H].
      * by apply folder_inv_attach_folder.
      * right. split; [done|]. by rewrite lookup_insert_eq.
Qed.

Lemma run_state_connected σ cache : run_state σ cache → connected σ.
Proof.
  induction 1 as [|σ cache rel_key node σ' cache' Hrun IH H
                  |σ cache parent a label _ IH Hp].
  - intros i Hi. simpl in Hi. lia.
  - unfold _ensure_folder_nodes in H.
    destruct (cache !! rel_key); [by injection H as <- <- <-|].
    eapply (ensure_loop_preserves connected); [|by apply run_state_inv| | | |exact H].
    + intros. by apply attach_connected.
    + apply segments_are_segments.
    + by left.
    + done.
  - by apply attach_connected.
Qed.

(** The states of [_convert_many] are states of a run in the sense of
    [run_state]. *)
Lemma convert_files_run_state env cfg root_folder files c fn c' fn' :
  Forall wf_path files →
  c_ditamap_root c = 0 → run_state (c_elements c) fn →
  convert_files (video_registry env cfg) root_folder files c fn = inr (c', fn') →
  c_ditamap_root c' = 0 ∧ run_state (c_elements c') fn'.
Proof.
  intros Hwf Hroot Hrun Hconv.
  eapply (convert_files_invariant env cfg root_folder
            (λ c fn _, c_ditamap_root c = 0 ∧ run_state (c_elements c) fn))
    with (done := []) in Hconv; [done| |done|done].
  clear. intros c fn _ f c' fn' [Hroot Hrun] Hwf Hcan Hconv.
  apply convert_file_accepted in Hconv
    as (tid & topic & vf & blob & parent & σ1 & _ & _ & Htarget & ->); [|done..].
  split; [done|]. cbn [c_elements]. rewrite Hroot in Htarget.
  assert (run_state σ1 fn' ∧ parent < List.length σ1) as [Hrun1 Hp].
  { pose proof (run_state_inv _ _ Hrun) as Hinv.
    assert (0 < List.length (c_elements c)) as H0 by apply Hinv.
    unfold target_node in Htarget. destruct root_folder as [rf|];
      [|by injection Htarget as <- <- <-].
    apply bind_inr in Htarget as (rel & _ & Htarget).
    case_bool_decide; [|by injection Htarget as <- <- <-].
    split; [by eapply run_resolve|].
    destruct (ensure_folder_nodes_inv _ _ _ _ _ _ Hinv Htarget)
      as ((H0' & Hv & _) & _ & _ & _ & [[_ ->]|[_ Hn]] & _); [done|].
    by eapply Hv. }
  by apply run_attach.
Qed.

(** Every element of the arena a run returns is a node of its map. *)
Lemma convert_many_connected env cfg root_folder plugin_id today files p :
  Forall wf_path files →
  _convert_many (video_registry env cfg) root_folder plugin_id today files
  = inr p →
  c_ditamap_root p = 0 ∧ connected (c_elements p).
Proof.
  intros Hwf [fn Hrun]%convert_many_inr.
  apply convert_files_run_state in Hrun as [Hroot Hstate];
    [|done|done|apply run_start].
  split; [done|]. by eapply run_state_connected.
Qed.

(* ===================================================================== *)
(** * Further properties of the plugin *)
(* ===================================================================== *)

(** ** The preview panel: clock labels and seeking *)

Lemma split_app_sep sep s t :
  forall_str (λ c, negb (bool_decide (c = sep))) s = true →
  split sep (s +:+ String sep "" +:+ t) = s :: split sep t.
Proof.
  induction s as [|c s IH]; intros Hs.
  - rewrite str_app_nil_l, str_app_cons, str_app_nil_l. cbn [split].
    by rewrite bool_decide_eq_true_2.
  - simpl in Hs. apply andb_true_iff in Hs as [Hc Hs].
    rewrite str_app_cons. cbn [split]. apply negb_true_iff in Hc.
    rewrite Hc. by rewrite IH.
Qed.

Lemma digits_no_colon s :
  forall_str (in_range 48 57) s = true →
  forall_str (λ c, negb (bool_decide (c = ":"%char))) s = true.
Proof. apply forall_str_impl. intros c. each_char c. Qed.

Lemma fmt_02d_digits n : forall_str (in_range 48 57) (fmt_02d n) = true.
Proof.
  unfold fmt_02d. case_bool_decide; [|apply str_of_nat_digits].
  rewrite str_app_cons, str_app_nil_l. simpl. apply str_of_nat_digits.
Qed.

Lemma of_uint_D0 d : Nat.of_uint (Decimal.D0 d) = Nat.of_uint d.
Proof. reflexivity. Qed.

Lemma parse_field_fmt n : (0 ≤ n)%Z → parse_field (fmt_02d n) = Some n.
Proof.
  intros Hn. unfold fmt_02d, parse_field, str_of_nat.
  case_bool_decide.
  - rewrite str_app_cons, str_app_nil_l. cbn [NilEmpty.uint_of_string].
    rewrite NilEmpty.usu.
    change (Some (Z.of_nat (Nat.of_uint (Decimal.D0 (Nat.to_uint (Z.to_nat n)))))
            = Some n).
    rewrite of_uint_D0, Unsigned.of_to. f_equal. lia.
  - rewrite NilEmpty.usu.
    change (Some (Z.of_nat (Nat.of_uint (Nat.to_uint (Z.to_nat n)))) = Some n).
    rewrite Unsigned.of_to. f_equal. lia.
Qed.

Lemma fmt_02d_length n : (2 ≤ String.length (fmt_02d n))%nat.
Proof.
  unfold fmt_02d. case_bool_decide as H; [|lia].
  rewrite str_app_cons, str_app_nil_l. simpl.
  destruct (str_of_nat (Z.to_nat n)) eqn:E; [|simpl; lia].
  unfold str_of_nat in E. apply (f_equal NilEmpty.uint_of_string) in E.
  rewrite NilEmpty.usu in E. simpl in E. injection E as E.
  pose proof (Unsigned.to_of (Nat.to_uint (Z.to_nat n))) as U.
  rewrite Unsigned.of_to, E in U. discriminate.
Qed.

(** X1: a clock label reads back as the whole seconds it was made from, so
    two times get the same label exactly when they lie in the same second
    (times before the start count as the start); a label has at least the
    five characters of [00:00]. *)
Theorem format_ms_reads_back (ms : Z) :
  parse_clock (_format_ms ms) = Some (Z.max 0 (ms / 1000))
  ∧ (5 ≤ String.length (_format_ms ms))%nat
  ∧ ∀ ms', _format_ms ms = _format_ms ms'
           ↔ Z.max 0 (ms / 1000) = Z.max 0 (ms' / 1000)%Z.
Proof.
  assert (∀ x, parse_clock (_format_ms x) = Some (Z.max 0 (x / 1000))) as Hparse.
  { intros x. unfold _format_ms. set (t := Z.max 0 (x / 1000)).
    assert (0 ≤ t)%Z as Ht by lia.
    pose proof (Z.div_mod t 60 ltac:(lia)) as E1.
    pose proof (Z.mod_pos_bound t 60 ltac:(lia)) as B1.
    pose proof (Z.div_mod (t / 60) 60 ltac:(lia)) as E2.
    pose proof (Z.mod_pos_bound (t / 60) 60 ltac:(lia)) as B2.
    assert (0 ≤ t / 60)%Z as P1 by (apply Z.div_pos; lia).
    assert (0 ≤ t / 60 / 60)%Z as P2 by (apply Z.div_pos; lia).
    cbn zeta. unfold parse_clock. case_bool_decide as Hh.
    - rewrite !split_app_sep by apply digits_no_colon, fmt_02d_digits.
      rewrite split_no_sep by apply digits_no_colon, fmt_02d_digits.
      rewrite !parse_field_fmt by lia. simpl. f_equal. lia.
    - rewrite !split_app_sep by apply digits_no_colon, fmt_02d_digits.
      rewrite split_no_sep by apply digits_no_colon, fmt_02d_digits.
      rewrite !parse_field_fmt by lia. simpl. f_equal. lia. }
  split; [apply Hparse|]. split.
  - unfold _format_ms. cbn zeta. case_bool_decide;
      rewrite !str_length_app; simpl;
      repeat match goal with
             | |- context [String.length (fmt_02d ?n)] =>
                 pose proof (fmt_02d_length n); generalize dependent (fmt_02d n); intros
             end; lia.
  - intros ms'. split.
    + intros E. pose proof (Hparse ms) as H1. rewrite E, Hparse in H1.
      by injection H1.
    + intros E. unfold _format_ms. by rewrite E.
Qed.

Lemma format_ms_reads_back_witness :
  _format_ms 3723004%Z = "01:02:03" ∧ _format_ms 3723999%Z = "01:02:03".
Proof.
  split; [reflexivity|].
  symmetry. apply (proj2 (proj2 (format_ms_reads_back 3723004%Z))). reflexivity.
Defined.

Lemma clamp_time_bounds p ms :
  (0 ≤ _get_length_ms p)%Z
  ∧ (0 ≤ _clamp_time p ms)%Z
  ∧ (0 < _get_length_ms p → _clamp_time p ms ≤ _get_length_ms p)%Z
  ∧ _clamp_time p (_clamp_time p ms) = _clamp_time p ms.
Proof.
  assert (0 ≤ _get_length_ms p)%Z as Hlen.
  { unfold _get_length_ms. destruct p as [[[e|l] t]|]; simpl; lia. }
  unfold _clamp_time. repeat case_bool_decide; lia.
Qed.

(** X2: whatever the player answers, a time that [_seek_ms], [_nudge] or
    [_jump_to_end] hands to [set_time] is never negative and, once the
    length of the media is known, never beyond it; clamping it again changes
    nothing.  The jump to the end goes to 200 ms before the end, and to the
    start when the media is shorter than that. *)
Theorem seek_targets_in_range (_vlc_player : option Player) (t : Z) :
  (∃ ms, _seek_ms _vlc_player ms = Some t)
  ∨ (∃ delta_ms, _nudge _vlc_player delta_ms = Some t)
  ∨ _jump_to_end _vlc_player = Some t →
  (0 ≤ t)%Z
  ∧ (0 < _get_length_ms _vlc_player → t ≤ _get_length_ms _vlc_player)%Z
  ∧ _clamp_time _vlc_player t = t
  ∧ (_jump_to_end _vlc_player = Some t →
     t = Z.max 0 (_get_length_ms _vlc_player - 200)).
Proof.
  intros H.
  assert (∃ ms, t = _clamp_time _vlc_player ms) as [ms ->].
  { destruct H as [[ms H]|[[d H]|H]].
    - unfold _seek_ms in H. destruct _vlc_player; [|done].
      exists ms. by injection H.
    - unfold _nudge in H. destruct _vlc_player as [p|]; [|done].
      destruct (get_time p) as [|cur]; [done|].
      eexists. by injection H.
    - unfold _jump_to_end in H. case_bool_decide; [|done].
      eexists. by injection H. }
  destruct (clamp_time_bounds _vlc_player ms) as (H0 & H1 & H2 & H3).
  repeat split; try done.
  unfold _jump_to_end. case_bool_decide as Hl; [|done]. intros [= E].
  rewrite <- E. unfold _clamp_time. rewrite bool_decide_eq_false_2 by lia. lia.
Qed.

Lemma seek_targets_in_range_witness :
  _nudge (Some sample_player) 5000 = Some 90000%Z
  ∧ _clamp_time (Some sample_player) 90000 = 90000%Z.
Proof.
  split; [reflexivity|].
  apply (seek_targets_in_range (Some sample_player) 90000).
  right. left. by exists 5000%Z.
Defined.

(** ** The manual reference *)

Lemma has_double_hyphen_cons c r :
  has_double_hyphen (String c r)
  = (is_hyphen c && starts_hyphen r) || has_double_hyphen r.
Proof. destruct r; [by rewrite andb_false_r|done]. Qed.

Lemma sub_runs_keeps (q p : ascii → bool) b s :
  q "-"%char = true → forall_str q s = true →
  forall_str q (sub_runs p b s) = true.
Proof.
  intros Hq. revert b. induction s as [|c s IH]; intros b; simpl; [done|].
  intros [Hc Hs]%andb_true_iff.
  destruct (p c); [destruct b|]; simpl; rewrite ?Hq, ?Hc; simpl;
    by apply IH.
Qed.

Lemma sub_runs_class (q p : ascii → bool) b s :
  q "-"%char = true → (∀ c, p c = false → q c = true) →
  forall_str q (sub_runs p b s) = true.
Proof.
  intros Hq Hp. revert b. induction s as [|c s IH]; intros b; simpl; [done|].
  destruct (p c) eqn:Hc; [destruct b|]; simpl; rewrite ?Hq, ?(Hp c Hc);
    simpl; by apply IH.
Qed.

(** After [re.sub(p+, "-", s)] no two hyphens are adjacent, when the class
    [p] holds the hyphen. *)
Lemma sub_runs_no_pair (p : ascii → bool) b s :
  p "-"%char = true →
  has_double_hyphen (sub_runs p b s) = false
  ∧ (b = true → starts_hyphen (sub_runs p b s) = false).
Proof.
  intros Hp. revert b. induction s as [|c s IH]; intros b; simpl; [done|].
  destruct (p c) eqn:Hc.
  - destruct (IH true) as [IH1 IH2]. destruct b; [by split|].
    split; [|done]. rewrite has_double_hyphen_cons, IH1, IH2 by done.
    by rewrite andb_false_r.
  - destruct (IH false) as [IH1 _].
    assert (is_hyphen c = false) as Hh.
    { apply bool_decide_eq_false. intros ->. congruence. }
    split; [|done]. by rewrite has_double_hyphen_cons, IH1, Hh.
Qed.

Lemma has_double_hyphen_app s t :
  has_double_hyphen (s +:+ t) = false →
  has_double_hyphen s = false ∧ has_double_hyphen t = false.
Proof.
  induction s as [|c s IH]; [by rewrite str_app_nil_l|].
  rewrite str_app_cons, !has_double_hyphen_cons.
  intros [H1 H2]%orb_false_iff. destruct (IH H2) as [Hs Ht].
  split; [|done]. rewrite Hs, orb_false_r.
  destruct s as [|d s]; [apply andb_false_r|]. by rewrite str_app_cons in H1.
Qed.

Lemma lstrip_suffix p s : ∃ pre, s = pre +:+ lstrip p s.
Proof.
  induction s as [|c s [pre IH]]; simpl; [by exists ""|].
  destruct (p c); [|by exists ""].
  exists (String c pre). by rewrite str_app_cons, <- IH.
Qed.

Lemma strip_no_pair p s :
  has_double_hyphen s = false → has_double_hyphen (strip p s) = false.
Proof.
  intros H. unfold strip.
  destruct (lstrip_suffix p s) as [pre E]. rewrite E in H.
  apply has_double_hyphen_app in H as [_ H].
  destruct (rstrip_prefix p (lstrip p s)) as [rest E']. rewrite E' in H.
  by apply has_double_hyphen_app in H as [H _].
Qed.

Lemma lstrip_head p s : match lstrip p s with
                        | String c _ => p c = false
                        | "" => True
                        end.
Proof. induction s as [|c s IH]; simpl; [done|]. by destruct (p c) eqn:E. Qed.

Lemma rstrip_head p c s :
  p c = false → ∃ r, rstrip p (String c s) = String c r.
Proof. intros H. rewrite rstrip_cons_keep by done. by eexists. Qed.

Lemma upper_hyphen c : is_hyphen (upper_ascii c) = is_hyphen c.
Proof. each_char c. Qed.

Lemma upper_ref_char c :
  is_ascii_alnum c || is_hyphen c = true → ref_char (upper_ascii c) = true.
Proof. each_char c. Qed.

Lemma upper_starts_hyphen s : starts_hyphen (upper s) = starts_hyphen s.
Proof. destruct s; [done|]. apply upper_hyphen. Qed.

Lemma upper_no_pair s : has_double_hyphen (upper s) = has_double_hyphen s.
Proof.
  induction s as [|c s IH]; [done|].
  change (upper (String c s)) with (String (upper_ascii c) (upper s)).
  by rewrite !has_double_hyphen_cons, IH, upper_hyphen, upper_starts_hyphen.
Qed.

Lemma upper_last_char s : last_char (upper s) = upper_ascii <$> last_char s.
Proof.
  induction s as [|c s IH]; [done|].
  change (upper (String c s)) with (String (upper_ascii c) (upper s)).
  destruct s as [|d s]; [done|]. exact IH.
Qed.

Lemma rstrip_fixed p s :
  (∀ c, last_char s = Some c → p c = false) → rstrip p s = s.
Proof.
  induction s as [|c s IH]; [done|]. intros H.
  destruct s as [|d s].
  - simpl. by rewrite (H c).
  - change (rstrip p (String c (String d s)))
      with (if p c && bool_decide (rstrip p (String d s) = "")
            then "" else String c (rstrip p (String d s))).
    rewrite IH by exact H.
    by rewrite bool_decide_eq_false_2, andb_false_r.
Qed.

Lemma forall_str_last q s c :
  forall_str q s = true → last_char s = Some c → q c = true.
Proof.
  induction s as [|a s IH]; [done|]. simpl.
  intros [Ha Hs]%andb_true_iff. destruct s; [by intros [= <-]|by apply IH].
Qed.

(** A string of the shape of a manual reference: not empty, made of capital
    letters, digits and single hyphens, with no hyphen at either end. *)
Lemma ref_shape_fixed r :
  r ≠ "" → forall_str ref_char r = true → has_double_hyphen r = false →
  starts_hyphen r = false → last_char r ≠ Some "-"%char →
  _normalize_manual_reference (Some r) = r.
Proof.
  intros Hne Hchars Hpair Hfirst Hlast.
  assert (∀ p, (∀ c, ref_char c = true → is_hyphen c = false → p c = false) →
               strip p r = r) as Hstrip.
  { intros p Hp. unfold strip.
    assert (lstrip p r = r) as ->.
    { destruct r as [|c r]; [done|]. simpl in *.
      apply andb_true_iff in Hchars as [Hc _]. by rewrite (Hp c). }
    apply rstrip_fixed. intros c Hc. apply Hp.
    - by eapply forall_str_last.
    - apply bool_decide_eq_false. intros ->. done. }
  assert (∀ p, (∀ c, ref_char c = true → p c = is_hyphen c) →
               sub_runs p false r = r) as Hsub.
  { intros p Hp. clear Hne Hfirst Hlast Hstrip.
    induction r as [|c r IH]; [done|]. simpl in Hchars.
    apply andb_true_iff in Hchars as [Hc Hr].
    rewrite has_double_hyphen_cons in Hpair.
    apply orb_false_iff in Hpair as [Hcr Hpair].
    cbn [sub_runs]. rewrite (Hp c Hc).
    destruct (is_hyphen c) eqn:Hh.
    - apply bool_decide_eq_true in Hh as ->. f_equal.
      destruct r as [|d r]; [done|]. simpl in Hcr. simpl in Hr.
      apply andb_true_iff in Hr as [Hd Hr']. cbn [sub_runs].
      rewrite (Hp d Hd), Hcr. f_equal.
      specialize (IH ltac:(simpl; by rewrite Hd, Hr') Hpair).
      cbn [sub_runs] in IH. rewrite (Hp d Hd), Hcr in IH. by injection IH.
    - f_equal. by apply IH. }
  unfold _normalize_manual_reference. destruct r as [|c0 r0] eqn:Er; [done|].
  rewrite <- Er in *.
  rewrite (Hstrip isspace) by (intros c; each_char c).
  rewrite (Hsub (λ c, negb (is_ascii_alnum c))) by (intros c; each_char c).
  rewrite (Hsub is_hyphen) by done.
  rewrite (Hstrip is_hyphen) by (by intros c _ ->).
  assert (upper r = r) as ->.
  { clear -Hchars. induction r as [|c r IH]; [done|]. simpl in Hchars.
    apply andb_true_iff in Hchars as [Hc Hr].
    change (upper (String c r)) with (String (upper_ascii c) (upper r)).
    rewrite IH by done. f_equal. revert Hc. each_char c. }
  by rewrite Er.
Qed.

(** X3: whatever the title, the manual reference is not empty, consists of
    capital letters, digits and hyphens, has no two hyphens in a row and no
    hyphen at either end; normalising it again gives it back. *)
Theorem manual_reference_shape (title : option string) :
  let r := _normalize_manual_reference title in
  r ≠ ""
  ∧ forall_str ref_char r = true
  ∧ has_double_hyphen r = false
  ∧ starts_hyphen r = false
  ∧ last_char r ≠ Some "-"%char
  ∧ _normalize_manual_reference (Some r) = r.
Proof.
  assert (let r := _normalize_manual_reference title in
          r ≠ "" ∧ forall_str ref_char r = true ∧ has_double_hyphen r = false
          ∧ starts_hyphen r = false ∧ last_char r ≠ Some "-"%char) as H.
  { unfold _normalize_manual_reference.
    destruct title as [[|c0 t0]|]; [by vm_compute| |by vm_compute].
    set (n1 := strip isspace (String c0 t0)).
    set (n2 := sub_runs (λ c, negb (is_ascii_alnum c)) false n1).
    set (n3 := sub_runs is_hyphen false n2).
    set (n4 := strip is_hyphen n3).
    assert (forall_str (λ c, is_ascii_alnum c || is_hyphen c) n4 = true) as Hc.
    { apply forall_str_rstrip, forall_str_lstrip, sub_runs_keeps; [done|].
      apply sub_runs_class; [done|]. intros c Hc.
      apply negb_false_iff in Hc. by rewrite Hc. }
    assert (has_double_hyphen n4 = false) as Hp.
    { apply strip_no_pair. by apply sub_runs_no_pair. }
    assert (starts_hyphen n4 = false) as Hf.
    { unfold n4, strip. pose proof (lstrip_head is_hyphen n3) as Hh.
      destruct (lstrip is_hyphen n3) as [|c s]; [done|].
      by rewrite rstrip_cons_keep. }
    assert (last_char n4 ≠ Some "-"%char) as Hl.
    { intros E. by apply rstrip_last in E. }
    destruct (upper n4) as [|c1 r1] eqn:Eu; [by vm_compute|].
    cbn [or_else]. rewrite <- Eu. repeat split.
    - by rewrite Eu.
    - unfold upper. rewrite forall_str_map.
      eapply forall_str_impl; [|exact Hc]. apply upper_ref_char.
    - by rewrite upper_no_pair.
    - by rewrite upper_starts_hyphen.
    - rewrite upper_last_char. destruct (last_char n4) as [c|] eqn:E; [|done].
      simpl. intros [= Hup]. apply Hl. f_equal.
      pose proof (upper_hyphen c) as Hh. unfold is_hyphen in Hh at 1.
      rewrite Hup, bool_decide_eq_true_2 in Hh by done.
      symmetry in Hh. by apply bool_decide_eq_true in Hh. }
  cbn zeta in *. destruct H as (H1 & H2 & H3 & H4 & H5).
  repeat split; try done. by apply ref_shape_fixed.
Qed.

(** ** Suffixes and MIME types *)

Lemma lower_dot c : is_dot (lower_char c) = is_dot c.
Proof. each_char c. Qed.

Lemma lower_char_idem c : lower_char (lower_char c) = lower_char c.
Proof. each_char c. Qed.

Lemma lower_idem s : lower (lower s) = lower s.
Proof.
  induction s as [|c s IH]; [done|].
  change (lower (String c s)) with (String (lower_char c) (lower s)).
  change (lower (String (lower_char c) (lower s)))
    with (String (lower_char (lower_char c)) (lower (lower s))).
  by rewrite lower_char_idem, IH.
Qed.

Lemma lstrip_fixed p s :
  forall_str (λ c, negb (p c)) s = true → lstrip p s = s.
Proof.
  destruct s as [|c s]; [done|]. simpl.
  intros [Hc _]%andb_true_iff. apply negb_true_iff in Hc. by rewrite Hc.
Qed.

Lemma assoc_fmap {A B} (f : A → B) k (l : list (string * A)) :
  assoc k (prod_map id f <$> l) = f <$> assoc k l.
Proof.
  induction l as [|[k' v] l IH]; [done|]. csimpl. rewrite IH.
  by case_bool_decide.
Qed.

Lemma assoc_dotted {V} k (l : list (string * V)) :
  assoc (String "." k) (prod_map (String ".") id <$> l) = assoc k l.
Proof.
  induction l as [|[k' v] l IH]; [done|]. csimpl. rewrite IH.
  repeat case_bool_decide; by simplify_eq.
Qed.

Lemma assoc_is_Some {V} k (l : list (string * V)) :
  is_Some (assoc k l) ↔ k ∈ l.*1.
Proof.
  induction l as [|[k' v] l IH]; simpl.
  - split; [by intros [? ?]|by intros ?%elem_of_nil].
  - rewrite elem_of_cons. case_bool_decide as E.
    + split; [by left|by eauto].
    + rewrite IH. split; [by right|]. by intros [->|?].
Qed.

Lemma mime_type_lookup ext :
  _get_video_mime_type ext
  = default "video/unknown"
      (assoc (lstrip is_dot (lower ext))
         [("mp4", "video/mp4"); ("avi", "video/x-msvideo");
          ("mov", "video/quicktime"); ("wmv", "video/x-ms-wmv");
          ("webm", "video/webm"); ("mkv", "video/x-matroska")]).
Proof. reflexivity. Qed.

(** X4: the builder's MIME type depends on the extension only up to case and
    leading dots; it is one of the six video types exactly when the bare
    lowered extension is one of the six names, and [video/unknown]
    otherwise.  For a file that the handler accepts it is never
    [video/unknown]. *)
Theorem mime_type_known (ext : string) :
  (_get_video_mime_type ext ∈ video_mime_types
   ↔ lstrip is_dot (lower ext) ∈ ["mp4"; "avi"; "mov"; "wmv"; "webm"; "mkv"])
  ∧ (_get_video_mime_type ext ∉ video_mime_types →
     _get_video_mime_type ext = "video/unknown")
  ∧ _get_video_mime_type ("." +:+ ext) = _get_video_mime_type ext
  ∧ _get_video_mime_type (lower ext) = _get_video_mime_type ext
  ∧ ∀ env f vi,
      video_can_handle env f = inr true → extract_metadata env f = inr vi →
      _get_video_mime_type (extension vi) ∈ video_mime_types.
Proof.
  assert (∀ e, (_get_video_mime_type e ∈ video_mime_types
                ↔ lstrip is_dot (lower e)
                  ∈ ["mp4"; "avi"; "mov"; "wmv"; "webm"; "mkv"])
               ∧ (_get_video_mime_type e ∉ video_mime_types →
                  _get_video_mime_type e = "video/unknown")) as Hchar.
  { intros e. rewrite mime_type_lookup.
    set (k := lstrip is_dot (lower e)).
    destruct (decide (k ∈ ["mp4"; "avi"; "mov"; "wmv"; "webm"; "mkv"]))
      as [Hin|Hout].
    - assert (default "video/unknown"
                (assoc k [("mp4", "video/mp4"); ("avi", "video/x-msvideo");
                          ("mov", "video/quicktime"); ("wmv", "video/x-ms-wmv");
                          ("webm", "video/webm"); ("mkv", "video/x-matroska")])
              ∈ video_mime_types) as Hm.
      { repeat (apply elem_of_cons in Hin as [->|Hin];
                [vm_compute; repeat constructor|]).
        by apply elem_of_nil in Hin. }
      split; [done|]. by intros [].
    - assert (assoc k [("mp4", "video/mp4"); ("avi", "video/x-msvideo");
                       ("mov", "video/quicktime"); ("wmv", "video/x-ms-wmv");
                       ("webm", "video/webm"); ("mkv", "video/x-matroska")]
              = None) as ->.
      { apply eq_None_not_Some. by rewrite assoc_is_Some. }
      split; [|done]. split; [|done]. intros H. simpl in H.
      unfold video_mime_types in H. list_cases H. }
  split; [apply Hchar|]. split; [apply Hchar|]. split; [|split].
  - rewrite !mime_type_lookup. rewrite str_app_cons, str_app_nil_l.
    change (lower (String "." ext)) with (String "." (lower ext)).
    reflexivity.
  - rewrite !mime_type_lookup. by rewrite lower_idem.
  - intros env f vi Hcan Hvi. unfold extract_metadata in Hvi.
    destruct (extract_metadata_error env f); [done|]. injection Hvi as <-.
    cbn [extension]. apply can_handle_suffix in Hcan as Hext.
    unfold _supported_extensions in Hext.
    repeat (apply elem_of_cons in Hext as [->|Hext];
            [vm_compute; repeat constructor|]).
    by apply elem_of_nil in Hext.
Qed.

Lemma mime_type_known_witness :
  _get_video_mime_type "..MP4" ∈ video_mime_types.
Proof.
  apply (proj1 (mime_type_known "..MP4")). vm_compute. repeat constructor.
Defined.

(** X5: the MIME type in the processor's format table is, for every path,
    the one the builder writes for the extension that [extract_metadata]
    reports; the table knows a format exactly when the handler supports its
    extension. *)
Theorem format_tables_agree (video_path : Path) :
  format_mime_type video_path
  = _get_video_mime_type (lower (suffix video_path))
  ∧ (is_Some (known_format video_path)
     ↔ lower (suffix video_path) ∈ _supported_extensions).
Proof.
  split; [|apply assoc_is_Some].
  unfold format_mime_type, known_format.
  destruct (suffix_shape video_path) as [[-> _]|(b & -> & Hne & Hb & _)];
    [done|].
  rewrite mime_type_lookup, lower_idem.
  change (lower (String "." b)) with (String "." (lower b)).
  change (lstrip is_dot (String "." (lower b)))
    with (lstrip is_dot (lower b)).
  rewrite lstrip_fixed.
  2:{ unfold lower. rewrite forall_str_map.
      erewrite forall_str_impl; [done| |exact Hb].
      intros c. by rewrite lower_dot. }
  rewrite <- (assoc_dotted (lower b)).
  change (prod_map (String ".") id <$> _)
    with (prod_map id fi_mime_type <$> format_info_table).
  rewrite assoc_fmap.
  by destruct (assoc (String "." (lower b)) format_info_table).
Qed.

Lemma format_tables_agree_witness :
  is_Some (known_format (PurePosixPath "/R/a/Clip.MP4")).
Proof.
  apply (proj2 (format_tables_agree (PurePosixPath "/R/a/Clip.MP4"))).
  vm_compute. repeat constructor.
Defined.
(** ** The result of one conversion *)

Lemma generate_topic_id_head filename tid :
  _generate_topic_id filename = inr tid →
  ∃ c r, tid = String c r ∧ isalpha c = true.
Proof.
  unfold _generate_topic_id.
  destruct (collapse_hyphens _) as [|c0 r0]; [done|].
  set (t := if isalpha c0 then String c0 r0 else "video-" +:+ String c0 r0).
  assert (∃ c r, t = String c r ∧ isalpha c = true) as (c & r & Et & Hc).
  { unfold t. destruct (isalpha c0) eqn:E0; [by eauto|].
    exists "v"%char. eexists. by split. }
  set (t' := if bool_decide (50 < String.length t)%nat then str_take 50 t else t).
  assert (∃ r', t' = String c r') as [r' Et'].
  { unfold t'. rewrite Et. case_bool_decide; by eexists. }
  intros E. assert (tid = strip is_hyphen t') as -> by congruence.
  unfold strip. rewrite Et'. cbn [lstrip].
  rewrite (isalpha_not_hyphen c Hc).
  rewrite rstrip_cons_keep by by apply isalpha_not_hyphen.
  by eauto.
Qed.

(** What a successful conversion returns, whatever the metadata. *)
Lemma video_convert_result env cfg f md ctx :
  wf_path f →
  video_convert_to_dita env cfg f md = inr ctx →
  ∃ tid vf blob m title,
    _generate_topic_id (name f) = inr tid
    ∧ _get_video_media_filename cfg (name f) = inr vf
    ∧ read_bytes env f = inr blob
    ∧ _create_ditamap env md (tid +:+ ".dita")
        {| filename := name f; extension := lower (suffix f) |} = inr m
    ∧ title = (if xml_compatible (stem f) then Some (stem f) else None)
    ∧ (∀ t, title = Some t → xml_compatible t = true)
    ∧ xml_compatible (or_else (md !! "video_title") (stem f)) = true
    ∧ ctx = {| topics :=
                 [(tid +:+ ".dita",
                   video_topic tid title ("../media/" +:+ vf)
                     (_get_video_mime_type (lower (suffix f))))];
               images := [];
               videos := [(vf, blob)];
               video_info_map := [];
               ditamap_root := Some m |}.
Proof.
  intros Hwf. unfold video_convert_to_dita.
  destruct (validate_file_exists env f); [done|].
  destruct (convert_steps env cfg f md) as [|ctx'] eqn:Hsteps; [done|].
  intros [= ->]. unfold convert_steps in Hsteps.
  destruct (negb (validate_format env f)); [done|].
  apply bind_inr in Hsteps as (vi & Hvi & Hsteps).
  apply bind_inr in Hsteps as (context & Hctx & Hsteps).
  unfold extract_metadata in Hvi.
  destruct (extract_metadata_error env f); [done|]. injection Hvi as <-.
  cbn [filename extension] in *.
  unfold create_dita_context in Hctx. cbn [filename] in Hctx.
  apply bind_inr in Hctx as (tid & Htid & Hctx).
  apply bind_inr in Hctx as (topic & Htopic & Hctx).
  apply bind_inr in Hctx as (vf & Hvf & Hctx).
  apply bind_inr in Hctx as (blob & Hblob & Hctx).
  apply bind_inr in Hctx as (m & Hm & Hctx).
  injection Hctx as <-.
  apply build_video_topic_shape in Htopic as (vf' & Hvf' & Ht & ->).
  cbn [filename extension] in Hvf', Ht.
  assert (vf' = vf) as -> by congruence.
  rewrite stem_of_name in Ht by done.
  cbn [topics images videos video_info_map ditamap_root] in Hsteps.
  rewrite stem_of_name, retitle_all_video_topic in Hsteps by done.
  injection Hsteps as <-.
  exists tid, vf, blob, m. eexists. split; [done|]. split; [done|].
  split; [done|]. split; [done|]. split; [reflexivity|].
  split; [|done].
  intros t. destruct (xml_compatible (stem f)) eqn:Hs; [|done].
  by intros [= <-].
Qed.

Lemma panel_item_data t a x cs data :
  lower t ≠ "video" → assoc "data" a = Some data →
  name (PurePosixPath data) ≠ "" →
  panel_item (XML t a x cs)
  = let href := "media/" +:+ name (PurePosixPath data) in
    Some {| Panel.display :=
              stem (PurePosixPath (name (PurePosixPath href)));
            Panel.filename := name (PurePosixPath href);
            Panel.href := href |}.
Proof.
  intros Ht Ha Hn. unfold panel_item, xml_get. cbn [xml_tag xml_attrib].
  rewrite Ha. rewrite (bool_decide_eq_false_2 _ Ht).
  destruct data as [|c d]; [done|]. cbn [or_else].
  rewrite (bool_decide_eq_false_2 (String c d = "")) by done.
  rewrite (bool_decide_eq_false_2 _ Hn).
  rewrite !str_app_cons, str_app_nil_l.
  by rewrite bool_decide_eq_false_2.
Qed.

Lemma name_media x : is_component x → name (PurePosixPath ("media/" +:+ x)) = x.
Proof.
  intros (Hne & Hdot & Hsl). unfold name, PurePosixPath.
  rewrite !str_app_cons, str_app_nil_l. cbn [lstrip is_slash parts].
  change (split "/" _) with (split "/" ("media" +:+ "/" +:+ x)).
  rewrite split_app_no_sep by done. rewrite split_no_sep by done.
  rewrite !filter_cons, filter_nil. by rewrite !decide_True.
Qed.

Lemma strip_media_prefixed x : _strip_media ("media/" +:+ x) = x.
Proof.
  unfold _strip_media.
  assert (String.prefix "media/" ("media/" +:+ x) = true) as ->; [|done].
  apply String.prefix_correct. simpl. rewrite str_app_nil_l. by destruct x.
Qed.

Lemma media_item vf tid title mime :
  is_component vf →
  _populate_items (Some (video_topic tid title ("../media/" +:+ vf) mime))
  = [ {| Panel.display := stem (PurePosixPath vf);
         Panel.filename := vf;
         Panel.href := "media/" +:+ vf |} ].
Proof.
  intros Hvf.
  unfold _populate_items, video_topic. cbn [descendants app].
  rewrite !filter_cons, !filter_nil.
  repeat (rewrite decide_False by (by vm_compute)).
  rewrite decide_True by reflexivity.
  repeat (rewrite decide_False by (by vm_compute)).
  cbn [app omap list_omap].
  rewrite (panel_item_data _ _ _ _ ("../media/" +:+ vf));
    [|by vm_compute|done|rewrite name_media_path by done; by destruct Hvf].
  cbn zeta. by rewrite name_media_path, name_media.
Qed.

Lemma accepted_suffix env f : video_can_handle env f = inr true → suffix f ≠ "".
Proof.
  intros Hext%can_handle_suffix E.
  rewrite E in Hext. unfold _supported_extensions in Hext. list_cases Hext.
Qed.

Lemma id_char_not_dot c : id_char c = true → negb (is_dot c) = true.
Proof. each_char c. Qed.

Lemma id_char_no_slash c : id_char c = true → negb (is_slash c) = true.
Proof. each_char c. Qed.

Lemma topic_id_component filename tid :
  _generate_topic_id filename = inr tid →
  is_component tid ∧ forall_str (λ c, negb (is_dot c)) tid = true.
Proof.
  intros H. pose proof (generate_topic_id_chars _ _ H) as Hc.
  destruct (generate_topic_id_head _ _ H) as (c & r & -> & Ha).
  repeat split; [done| |..].
  - intros [= -> _]. done.
  - eapply forall_str_impl; [apply id_char_no_slash|done].
  - eapply forall_str_impl; [apply id_char_not_dot|done].
Qed.

Lemma suffix_of_component x :
  is_component x → suffix (PurePosixPath x) = suffix {| root := ""; parts := [x] |}.
Proof. intros H. by rewrite PurePosixPath_component. Qed.

(** X6: the name under which the builder files the media is one path
    component and has the suffix of the original file.  With
    [preserve_original_filenames] it is the original name; without, its
    stem is the topic identifier. *)
Theorem media_filename_keeps_suffix cfg f vf :
  wf_path f → name f ≠ "" →
  _get_video_media_filename cfg (name f) = inr vf →
  is_component vf
  ∧ suffix (PurePosixPath vf) = suffix f
  ∧ (preserve_original_filenames cfg = true → vf = name f)
  ∧ (preserve_original_filenames cfg = false →
     _generate_topic_id (name f) = inr (stem (PurePosixPath vf))).
Proof.
  intros Hwf Hname. unfold _get_video_media_filename.
  destruct (preserve_original_filenames cfg).
  { intros [= <-]. split; [by apply name_component|].
    split; [unfold suffix; by rewrite name_of_name|]. by split. }
  intros (tid & Htid & [= <-])%bind_inr.
  assert (suffix (PurePosixPath (name f)) = suffix f) as ->.
  { unfold suffix. by rewrite name_of_name. }
  destruct (topic_id_component _ _ Htid) as [Hcomp Hdots].
  destruct (generate_topic_id_head _ _ Htid) as (c & r & Etid & _).
  destruct (suffix_shape f) as [[-> _]|(b & -> & Hb & Hbd & Hnm & _)].
  - rewrite str_app_nil_r. split; [done|].
    rewrite PurePosixPath_component by done.
    assert (suffix_index tid = None) as Hi.
    { unfold suffix_index. rewrite rfind_absent by done.
      by rewrite bool_decide_eq_false_2 by lia. }
    unfold suffix, stem, name. cbn [parts List.last]. rewrite Hi.
    split; [done|]. by split.
  - assert (is_component (tid +:+ String "." b)) as Hvf.
    { destruct Hcomp as (_ & _ & Hsl).
      destruct (name_component _ Hwf Hname) as (_ & _ & Hnsl).
      rewrite Hnm, forall_str_app in Hnsl.
      apply andb_true_iff in Hnsl as [_ Hbsl].
      repeat split.
      - rewrite Etid. by rewrite str_app_cons.
      - rewrite Etid, str_app_cons. intros [= _ E].
        destruct r; by rewrite ?str_app_cons, ?str_app_nil_l in E.
      - rewrite forall_str_app. by rewrite Hsl, Hbsl. }
    split; [done|]. rewrite PurePosixPath_component by done.
    assert (suffix_index (tid +:+ String "." b)
            = Some (String.length tid)) as Hi.
    { unfold suffix_index. rewrite rfind_last by done.
      rewrite str_length_app. cbn [String.length].
      rewrite bool_decide_eq_true_2, Nat2Z.id; [done|].
      rewrite Etid. destruct b; [done|]. simpl. lia. }
    unfold suffix, stem, name. cbn [parts List.last]. rewrite Hi.
    rewrite str_drop_app, str_take_app. split; [done|]. by split.
Qed.

Lemma media_filename_keeps_suffix_witness :
  _get_video_media_filename {| preserve_original_filenames := false |}
    "My Clip_01.MP4" = inr "my-clip-01.MP4"
  ∧ suffix (PurePosixPath "my-clip-01.MP4") = ".MP4".
Proof.
  split; [reflexivity|].
  apply (media_filename_keeps_suffix {| preserve_original_filenames := false |}
           (PurePosixPath "/R/My Clip_01.MP4") "my-clip-01.MP4");
    [repeat constructor; done|done|reflexivity].
Defined.

(** X7: after the conversion of a file that the handler accepts, the preview
    panel lists one item for the topic of the file, and selecting it finds
    the bytes that were read from the file (unless the file is empty, which
    counts as media not found). *)
Theorem preview_finds_converted_media env cfg f md ctx :
  wf_path f → video_can_handle env f = inr true →
  video_convert_to_dita env cfg f md = inr ctx →
  ∃ tname topic vf blob,
    topics ctx = [(tname, topic)] ∧ videos ctx = [(vf, blob)]
    ∧ read_bytes env f = inr blob
    ∧ _populate_items (Some topic)
      = [ {| Panel.display := stem (PurePosixPath vf);
             Panel.filename := vf;
             Panel.href := "media/" +:+ vf |} ]
    ∧ ∀ item, item ∈ _populate_items (Some topic) →
        selected_media (list_to_map (videos ctx)) item
        = match blob with [] => None | _ => Some (vf, blob) end.
Proof.
  intros Hwf Hcan Hconv.
  apply video_convert_result in Hconv
    as (tid & vf & blob & m & title & Htid & Hvf & Hblob & _ & _ & _ & _ & ->);
    [|done].
  assert (is_component vf) as Hcomp.
  { eapply media_filename_component; [done| |done]. by eapply accepted_suffix. }
  do 4 eexists. cbn [topics videos]. split; [done|]. split; [done|].
  split; [done|]. rewrite media_item by done. split; [done|].
  intros item ->%list_elem_of_singleton.
  unfold selected_media. cbn [Panel.href]. rewrite strip_media_prefixed.
  cbn [list_to_map foldr]. rewrite lookup_insert_eq.
  by destruct blob.
Qed.

Lemma preview_finds_converted_media_witness :
  ∃ ctx topic,
    video_convert_to_dita sample_env sample_cfg (PurePosixPath "/R/a/clip.mp4")
      batch_metadata = inr ctx
    ∧ topics ctx = [("clip.dita", topic)]
    ∧ Panel.filename <$> _populate_items (Some topic) = ["clip.mp4"].
Proof.
  destruct (video_convert_to_dita sample_env sample_cfg
              (PurePosixPath "/R/a/clip.mp4") batch_metadata)
    as [e|ctx] eqn:H; [vm_compute in H; discriminate|].
  destruct (preview_finds_converted_media sample_env sample_cfg
              (PurePosixPath "/R/a/clip.mp4") batch_metadata ctx)
    as (tname & topic & vf & blob & Ht & Hv & _ & Hitems & _);
    [repeat constructor; done|reflexivity|exact H|].
  exists ctx, topic. split; [reflexivity|].
  assert (tname = "clip.dita" ∧ vf = "clip.mp4") as [-> ->].
  { vm_compute in H. injection H as <-. by simplify_eq/=. }
  split; [exact Ht|]. by rewrite Hitems.
Defined.

(** X8: whatever title the caller supplies as [video_title], the title of the
    converted topic is the stem of the file.  When the stem cannot be stored
    in XML, a conversion succeeds only on a supplied title, and the topic it
    returns has lost that title: its title is left without text. *)
Theorem topic_title_is_stem env cfg f md ctx :
  wf_path f →
  video_convert_to_dita env cfg f md = inr ctx →
  ∀ tname topic, (tname, topic) ∈ topics ctx →
    (xml_compatible (stem f) = true → topic_title topic = Some (stem f))
    ∧ (xml_compatible (stem f) = false →
       topic_title topic = None
       ∧ ∃ t, md !! "video_title" = Some t ∧ t ≠ ""
              ∧ xml_compatible t = true).
Proof.
  intros Hwf Hconv.
  apply video_convert_result in Hconv
    as (tid & vf & blob & m & title & _ & _ & _ & _ & -> & _ & Hvt & ->);
    [|done].
  intros tname topic [= -> ->]%list_elem_of_singleton.
  cbn [topic_title video_topic]. split; intros Hs; rewrite Hs; [done|].
  split; [done|].
  destruct (md !! "video_title") as [[|c t]|]; cbn [or_else] in *;
    try congruence.
  by exists (String c t).
Qed.

Lemma topic_title_is_stem_witness :
  (∃ ctx topic,
     video_convert_to_dita sample_env sample_cfg (PurePosixPath "/R/a/clip.mp4")
       {[ "video_title" := "My holiday" ]} = inr ctx
     ∧ topics ctx = [("clip.dita", topic)]
     ∧ topic_title topic = Some "clip")
  ∧ (∃ ctx topic,
       video_convert_to_dita sample_env
         {| preserve_original_filenames := false |}
         (PurePosixPath ("/R/c" +:+ String "001" ".mp4"))
         {[ "video_title" := "My holiday" ]} = inr ctx
       ∧ topics ctx = [("c.dita", topic)]
       ∧ topic_title topic = None).
Proof.
  split.
  - destruct (video_convert_to_dita sample_env sample_cfg
                (PurePosixPath "/R/a/clip.mp4")
                {[ "video_title" := "My holiday" ]})
      as [e|ctx] eqn:H; [vm_compute in H; discriminate|].
    assert (∃ topic, topics ctx = [("clip.dita", topic)]) as [topic Ht].
    { vm_compute in H. injection H as <-. by eexists. }
    exists ctx, topic. split; [reflexivity|]. split; [exact Ht|].
    apply (topic_title_is_stem sample_env sample_cfg
             (PurePosixPath "/R/a/clip.mp4") {[ "video_title" := "My holiday" ]}
             ctx ltac:(repeat constructor; done) H "clip.dita" topic);
      [rewrite Ht; by left|reflexivity].
  - destruct (video_convert_to_dita sample_env
                {| preserve_original_filenames := false |}
                (PurePosixPath ("/R/c" +:+ String "001" ".mp4"))
                {[ "video_title" := "My holiday" ]})
      as [e|ctx] eqn:H; [vm_compute in H; discriminate|].
    assert (∃ topic, topics ctx = [("c.dita", topic)]) as [topic Ht].
    { vm_compute in H. injection H as <-. by eexists. }
    exists ctx, topic. split; [reflexivity|]. split; [exact Ht|].
    apply (topic_title_is_stem sample_env
             {| preserve_original_filenames := false |}
             (PurePosixPath ("/R/c" +:+ String "001" ".mp4"))
             {[ "video_title" := "My holiday" ]}
             ctx ltac:(repeat constructor; done) H "c.dita" topic);
      [rewrite Ht; by left|reflexivity].
Defined.

(** ** What a run stores *)

(** The topic and the blob that the conversion of an accepted file adds to
    the project. *)
Lemma convert_file_topic env cfg root_folder c fn f c' fn' :
  wf_path f → video_can_handle env f = inr true →
  convert_file (video_registry env cfg) root_folder c fn f = inr (c', fn') →
  ∃ tid vf blob title,
    is_component vf
    ∧ c_topics c'
      = <[_dedup_name (tid +:+ ".dita") (c_topics c) :=
            video_topic tid title ("../media/" +:+ vf)
              (_get_video_mime_type (lower (suffix f)))]> (c_topics c)
    ∧ c_videos c' = <[_dedup_name vf (c_videos c) := blob]> (c_videos c)
    ∧ c_images c' = c_images c
    ∧ c_video_info_map c' = c_video_info_map c.
Proof.
  intros Hwf Hcan. unfold convert_file. rewrite find_handler_accepts by done.
  cbn [mbind result_bind convert_to_dita VideoDocumentHandler].
  intros (ctx & Hconv & Hmerge)%bind_inr.
  apply video_convert_result in Hconv
    as (tid & vf & blob & m & title & Htid & Hvf & Hblob & _ & _ & _ & _ & ->);
    [|done].
  exists tid, vf, blob, title. split.
  { eapply media_filename_component; [done| |done]. by eapply accepted_suffix. }
  unfold merge_file, merge_context in Hmerge.
  cbn [topics images videos video_info_map merge_topics merge_items] in Hmerge.
  destruct (child_href _) as [[|a r]|].
  - by injection Hmerge as <- <-.
  - apply bind_inr in Hmerge as ([[parent σ1] fn1] & _ & Hmerge).
    apply bind_inr in Hmerge as (σ2 & _ & Hmerge).
    by injection Hmerge as <- <-.
  - by injection Hmerge as <- <-.
Qed.

(** X9: in a project that a run returns, the preview panel lists one video
    for every topic, and the media that this item names is in the project's
    videos: selecting it never ends in a missing key. *)
Theorem preview_items_resolve env cfg root_folder plugin_id today files p :
  Forall wf_path files →
  _convert_many (video_registry env cfg) root_folder plugin_id today files
  = inr p →
  ∀ tname topic, c_topics p !! tname = Some topic →
    ∃ item, _populate_items (Some topic) = [item]
            ∧ is_Some (c_videos p !! _strip_media (Panel.href item)).
Proof.
  intros Hwf [fn Hrun]%convert_many_inr.
  set (I := λ (c : Combined) (_ : gmap string nat) (_ : list Path),
         ∀ tname topic, c_topics c !! tname = Some topic →
           ∃ item, _populate_items (Some topic) = [item]
                   ∧ is_Some (c_videos c !! _strip_media (Panel.href item))).
  assert (I (initial_combined plugin_id today) ∅ []) as Hinit.
  { intros tname topic Hl.
    change (c_topics _) with (∅ : gmap string xml) in Hl.
    by rewrite lookup_empty in Hl. }
  refine (convert_files_invariant env cfg root_folder I _ files [] _ _ _ _
            Hwf Hinit Hrun).
  intros c fn0 done f c' fn' Hinv Hf Hcan Hconv.
  apply convert_file_topic in Hconv
    as (tid & vf & blob & title & Hvf & Ht & Hv & _); [|done..].
  intros tname topic Hl. rewrite Ht in Hl. rewrite Hv.
  destruct (decide (_dedup_name (tid +:+ ".dita") (c_topics c) = tname))
    as [<-|Hne].
  - rewrite lookup_insert_eq in Hl. injection Hl as <-.
    rewrite media_item by done. eexists. split; [done|].
    cbn [Panel.href]. rewrite strip_media_prefixed.
    destruct (c_videos c !! vf) as [b|] eqn:E.
    + rewrite lookup_insert. case_decide; [done|]. by rewrite E.
    + rewrite dedup_name_absent by done. by rewrite lookup_insert_eq.
  - rewrite lookup_insert_ne in Hl by done.
    destruct (Hinv _ _ Hl) as (item & Hitem & [b Hb]).
    exists item. split; [done|]. rewrite lookup_insert.
    case_decide; [done|]. by rewrite Hb.
Qed.

Lemma preview_items_resolve_witness :
  ∃ p topic,
    _convert_many (video_registry sample_env sample_cfg) (Some sample_root)
      "orlando-video-plugin" "2025-01-01" sample_files = inr p
    ∧ c_topics p !! "clip-2.dita" = Some topic
    ∧ ∃ item, _populate_items (Some topic) = [item]
              ∧ is_Some (c_videos p !! _strip_media (Panel.href item)).
Proof.
  destruct (_convert_many (video_registry sample_env sample_cfg)
              (Some sample_root) "orlando-video-plugin" "2025-01-01"
              sample_files) as [e|p] eqn:H; [vm_compute in H; discriminate|].
  destruct (c_topics p !! "clip-2.dita") as [topic|] eqn:Ht.
  2:{ exfalso. vm_compute in H. injection H as <-. vm_compute in Ht.
      discriminate. }
  exists p, topic. split; [reflexivity|]. split; [exact Ht|].
  apply (preview_items_resolve sample_env sample_cfg (Some sample_root)
           "orlando-video-plugin" "2025-01-01" sample_files p
           ltac:(repeat constructor; done) H "clip-2.dita" topic Ht).
Defined.

(** X10: with this plugin's handler, a project that a run returns holds one
    video blob for every accepted file, also when media names collide; it
    holds no image and no per-video metadata index. *)
Theorem one_blob_per_file env cfg root_folder plugin_id today files p :
  Forall wf_path files →
  _convert_many (video_registry env cfg) root_folder plugin_id today files
  = inr p →
  size (c_videos p) = List.length (accepted env files)
  ∧ c_images p = ∅
  ∧ c_video_info_map p = None.
Proof.
  intros Hwf [fn Hrun]%convert_many_inr.
  refine (convert_files_invariant env cfg root_folder
            (λ c _ done, size (c_videos c) = List.length done
                         ∧ c_images c = ∅ ∧ c_video_info_map c = None)
            _ files [] _ _ _ _ Hwf _ Hrun); [|done].
  intros c fn0 done f c' fn' (Hsize & Himg & Haux) Hf Hcan Hconv.
  apply convert_file_topic in Hconv
    as (tid & vf & blob & title & _ & _ & Hv & Hi & Ha); [|done..].
  rewrite Hv, Hi, Ha, length_app. split; [|done].
  rewrite map_size_insert_None by apply dedup_name_fresh. simpl. lia.
Qed.

Lemma one_blob_per_file_witness :
  ∃ p, _convert_many (video_registry sample_env sample_cfg) (Some sample_root)
         "orlando-video-plugin" "2025-01-01" sample_files = inr p
       ∧ size (c_videos p) = 2.
Proof.
  eexists. split; [vm_compute; reflexivity|].
  apply (one_blob_per_file sample_env sample_cfg (Some sample_root)
           "orlando-video-plugin" "2025-01-01" sample_files);
    [repeat constructor; done|vm_compute; reflexivity].
Defined.

(** ** Earlier results are kept *)

Lemma grows_length σ σ' : grows σ σ' → List.length σ ≤ List.length σ'.
Proof.
  intros G. destruct (decide (List.length σ = 0)) as [|Hne]; [lia|].
  destruct (lookup_lt_is_Some_2 σ (List.length σ - 1)) as [e He]; [lia|].
  destruct (G _ _ He) as (e' & He' & _). apply lookup_lt_Some in He'. lia.
Qed.

Lemma grows_alter_new σ σ1 (g : element → element) el :
  grows σ σ1 → List.length σ ≤ el → grows σ (alter g el σ1).
Proof.
  intros G Hel i e Hi. pose proof (lookup_lt_Some _ _ _ Hi).
  rewrite list_lookup_alter_ne by lia. by apply G.
Qed.

Lemma grows_SubElement σ σ1 parent t :
  grows σ σ1 → grows σ (ET.SubElement parent t σ1).2.
Proof.
  intros G i e Hi. destruct (G _ _ Hi) as (e1 & H1 & Ht & Ha & Hx & Hc).
  rewrite SubElement_eq. cbn [snd].
  rewrite lookup_app_l by (rewrite length_alter; by eapply lookup_lt_Some).
  rewrite list_lookup_alter. case_decide as Hp.
  - subst i. rewrite H1. simpl. eexists. split; [done|].
    repeat split; try done. simpl. by apply prefix_app_r.
  - exists e1. by repeat split.
Qed.

Lemma SubElement_fst parent t σ : (ET.SubElement parent t σ).1 = List.length σ.
Proof. reflexivity. Qed.

Lemma SubElement_length parent t σ :
  List.length (ET.SubElement parent t σ).2 = S (List.length σ).
Proof.
  rewrite SubElement_eq. cbn [snd]. rewrite length_app, length_alter.
  simpl. lia.
Qed.

Lemma set_grows_new σ σ1 el k v σ2 :
  grows σ σ1 → List.length σ ≤ el → ET.set el k v σ1 = inr σ2 → grows σ σ2.
Proof.
  intros G Hel. unfold ET.set.
  destruct (negb _); [done|]. destruct (negb _); [done|].
  intros [= <-]. by apply grows_alter_new.
Qed.

Lemma set_text_grows_new σ σ1 el v σ2 :
  grows σ σ1 → List.length σ ≤ el → ET.set_text el v σ1 = inr σ2 → grows σ σ2.
Proof.
  intros G Hel. unfold ET.set_text. destruct (negb _); [done|].
  intros [= <-]. by apply grows_alter_new.
Qed.

Lemma set_length el k v σ σ' :
  ET.set el k v σ = inr σ' → List.length σ' = List.length σ.
Proof.
  unfold ET.set. destruct (negb _); [done|]. destruct (negb _); [done|].
  intros [= <-]. apply length_alter.
Qed.

(** Whatever the reference and the rename map, a reference node that is
    appended leaves the nodes that were there as they were. *)
Lemma append_topicref_grows f hrf rm parent σ σ' :
  append_topicref f hrf rm parent σ = inr σ' → grows σ σ'.
Proof.
  unfold append_topicref.
  destruct (ET.SubElement parent "topicref" σ) as [tref σ1] eqn:E1.
  assert (tref = List.length σ ∧ grows σ σ1) as [-> G1].
  { pose proof (SubElement_fst parent "topicref" σ) as H1.
    pose proof (grows_SubElement σ σ parent "topicref" (grows_refl σ)) as H2.
    rewrite E1 in H1, H2. by split. }
  destruct (ET.set (List.length σ) "href" _ σ1) as [e|σ2] eqn:E2.
  { intros H. by eapply set_grows_new. }
  pose proof (set_grows_new _ _ _ _ _ _ G1 (le_n _) E2) as G2.
  destruct (ET.SubElement (List.length σ) "topicmeta" σ2) as [meta σ3] eqn:E3.
  pose proof (grows_SubElement σ σ2 (List.length σ) "topicmeta" G2) as G3.
  pose proof (SubElement_fst (List.length σ) "topicmeta" σ2) as F3.
  rewrite E3 in G3, F3. cbn [fst snd] in G3, F3.
  destruct (ET.SubElement meta "navtitle" σ3) as [nav σ4] eqn:E4.
  pose proof (grows_SubElement σ σ3 meta "navtitle" G3) as G4.
  pose proof (SubElement_fst meta "navtitle" σ3) as F4.
  rewrite E4 in G4, F4. cbn [fst snd] in G4, F4.
  destruct (ET.set_text nav (stem f) σ4) as [e|σ5] eqn:E5.
  { intros H. by eapply set_grows_new. }
  intros [= <-]. eapply set_text_grows_new; [exact G4| |exact E5].
  subst nav. pose proof (grows_length _ _ G3). lia.
Qed.

Lemma merge_topics_mono items dst rm :
  dst ⊆ (merge_topics items dst rm).1.
Proof.
  revert dst rm. induction items as [|[k v] items IH]; intros dst rm; [done|].
  cbn [merge_topics]. etrans; [|apply IH].
  apply insert_subseteq, dedup_name_fresh.
Qed.

Lemma merge_items_mono {V} (items : list (string * V)) dst :
  dst ⊆ merge_items items dst.
Proof. apply merge_items_stored. Qed.

Lemma convert_file_mono reg root_folder c fn f c' fn' :
  convert_file reg root_folder c fn f = inr (c', fn') →
  c_topics c ⊆ c_topics c' ∧ c_images c ⊆ c_images c'
  ∧ c_videos c ⊆ c_videos c'
  ∧ default ∅ (c_video_info_map c) ⊆ default ∅ (c_video_info_map c')
  ∧ grows (c_elements c) (c_elements c')
  ∧ c_metadata c' = c_metadata c ∧ c_source_plugin c' = c_source_plugin c.
Proof.
  unfold convert_file.
  destruct (find_handler_for_file reg f) as [e|[h|]]; [done| |].
  2:{ intros [= <- <-]. repeat split; try done. apply grows_refl. }
  cbn [mbind result_bind].
  intros (ctx & _ & H)%bind_inr. unfold merge_file in H.
  destruct (merge_context c ctx) as [c1 rm] eqn:Em.
  assert (c_topics c ⊆ c_topics c1 ∧ c_images c ⊆ c_images c1
          ∧ c_videos c ⊆ c_videos c1
          ∧ default ∅ (c_video_info_map c) ⊆ default ∅ (c_video_info_map c1)
          ∧ c_elements c1 = c_elements c
          ∧ c_metadata c1 = c_metadata c
          ∧ c_source_plugin c1 = c_source_plugin c) as (Ht & Hi & Hv & Ha & He & Hm & Hs).
  { unfold merge_context in Em.
    pose proof (merge_topics_mono (topics ctx) (c_topics c) ∅) as Hmt.
    destruct (merge_topics _ _ _) as [t rm']. injection Em as <- <-.
    cbn [c_topics c_images c_videos c_video_info_map c_elements c_metadata
         c_source_plugin].
    split; [done|]. split; [apply merge_items_mono|].
    split; [apply merge_items_mono|]. split; [|done].
    destruct (video_info_map ctx) as [|kv l]; [done|].
    exact (merge_items_mono (kv :: l) _). }
  destruct (child_href ctx) as [[|a r]|].
  - injection H as <- <-. repeat split; try done. rewrite He. apply grows_refl.
  - apply bind_inr in H as ([[parent σ1] fn1] & Htarget & H).
    apply bind_inr in H as (σ2 & Happ & H). injection H as <- <-.
    cbn [with_elements c_topics c_images c_videos c_video_info_map c_elements
         c_metadata c_source_plugin].
    repeat split; try done. rewrite <- He.
    eapply grows_trans; [by eapply target_node_grows|].
    by eapply append_topicref_grows.
  - injection H as <- <-. repeat split; try done. rewrite He. apply grows_refl.
Qed.

Lemma convert_files_mono reg root_folder files c fn c' fn' :
  convert_files reg root_folder files c fn = inr (c', fn') →
  c_topics c ⊆ c_topics c' ∧ c_images c ⊆ c_images c'
  ∧ c_videos c ⊆ c_videos c'
  ∧ default ∅ (c_video_info_map c) ⊆ default ∅ (c_video_info_map c')
  ∧ grows (c_elements c) (c_elements c')
  ∧ c_metadata c' = c_metadata c ∧ c_source_plugin c' = c_source_plugin c.
Proof.
  revert c fn. induction files as [|f files IH]; intros c fn H.
  - injection H as <- <-. repeat split; try done. apply grows_refl.
  - cbn [convert_files] in H. apply bind_inr in H as ([c1 fn1] & H1 & H).
    apply convert_file_mono in H1 as (A1 & A2 & A3 & A4 & A5 & A6 & A7).
    apply IH in H as (B1 & B2 & B3 & B4 & B5 & B6 & B7).
    repeat split; try (by etrans); try congruence.
    by eapply grows_trans.
Qed.

(** X11: with any handlers, a run over a longer batch keeps what the run over
    its first files produced: the run over the first files succeeds too,
    every topic, image, video and per-video metadata entry it stored is in
    the larger project under the same key, and the nodes of its map are
    nodes of the larger map with the same tag, attributes and text, their
    children followed by new ones. *)
Theorem earlier_results_kept service_registry root_folder plugin_id today
    pre post p :
  _convert_many service_registry root_folder plugin_id today (pre ++ post)
  = inr p →
  ∃ p0,
    _convert_many service_registry root_folder plugin_id today pre = inr p0
    ∧ c_topics p0 ⊆ c_topics p ∧ c_images p0 ⊆ c_images p
    ∧ c_videos p0 ⊆ c_videos p
    ∧ default ∅ (c_video_info_map p0) ⊆ default ∅ (c_video_info_map p)
    ∧ grows (c_elements p0) (c_elements p).
Proof.
  intros [fn Hrun]%convert_many_inr. rewrite convert_files_app in Hrun.
  apply bind_inr in Hrun as ([p0 fn0] & Hpre & Hpost).
  exists p0. split; [unfold _convert_many; by rewrite Hpre|].
  apply convert_files_mono in Hpost as (? & ? & ? & ? & ? & _). done.
Qed.

Lemma earlier_results_kept_witness :
  ∃ p, _convert_many (video_registry sample_env sample_cfg) (Some sample_root)
         "orlando-video-plugin" "2025-01-01" sample_files = inr p
       ∧ ∃ p0,
           _convert_many (video_registry sample_env sample_cfg)
             (Some sample_root) "orlando-video-plugin" "2025-01-01"
             [PurePosixPath "/R/a/clip.mp4"] = inr p0
           ∧ c_videos p0 ⊆ c_videos p.
Proof.
  eexists. split; [vm_compute; reflexivity|].
  edestruct (earlier_results_kept (video_registry sample_env sample_cfg)
               (Some sample_root) "orlando-video-plugin" "2025-01-01"
               [PurePosixPath "/R/a/clip.mp4"]
               [PurePosixPath "/R/notes.txt"; PurePosixPath "/R/b/clip.mp4"])
    as (p0 & H0 & _ & _ & Hv & _); [vm_compute; reflexivity|].
  exists p0. split; [exact H0|exact Hv].
Defined.

(** X12: with any handlers, a run never touches the metadata of the project or
    its provenance tag: a project that is returned carries the manual title
    [VIDEO-LIBRARY], the date of the run, the two DOCTYPE hints and nothing
    else, and the identifier of the plugin that made it. *)
Theorem project_metadata_fixed service_registry root_folder plugin_id today
    files p :
  _convert_many service_registry root_folder plugin_id today files = inr p →
  c_metadata p
  = <["doctype_concept" := doctype_concept]>
      (<["doctype_map" := doctype_map]>
         (<["revision_date" := today]> {[ "manual_title" := "VIDEO-LIBRARY" ]}))
  ∧ size (c_metadata p) = 4
  ∧ c_source_plugin p = plugin_id.
Proof.
  intros [fn Hrun]%convert_many_inr.
  apply convert_files_mono in Hrun as (_ & _ & _ & _ & _ & Hm & Hs).
  rewrite Hm, Hs. split; [done|]. split; [|done].
  change (c_metadata _) with
    (<["doctype_concept" := doctype_concept]>
       (<["doctype_map" := doctype_map]>
          (<["revision_date" := today]>
             ({[ "manual_title" := "VIDEO-LIBRARY" ]} : gmap string string)))).
  rewrite !map_size_insert_None, map_size_singleton; [done|..];
    by rewrite ?lookup_insert_ne, ?lookup_singleton_ne.
Qed.

Lemma project_metadata_fixed_witness :
  ∃ p, _convert_many (registry_of [tooltip_handler]) None "orlando-video-plugin"
         "2025-01-01" sample_files = inr p
       ∧ size (c_metadata p) = 4.
Proof.
  eexists. split; [vm_compute; reflexivity|].
  apply (project_metadata_fixed (registry_of [tooltip_handler]) None "orlando-video-plugin"
           "2025-01-01" sample_files).
  vm_compute. reflexivity.
Defined.
(** ** Folder mode: the map mirrors the directories *)

Lemma strip_prefix_Some pre l rest :
  strip_prefix pre l = Some rest ↔ l = pre ++ rest.
Proof.
  revert l. induction pre as [|a pre IH]; intros l; simpl.
  - split; [by intros [= ->]|by intros ->].
  - destruct l as [|b l]; [by split|].
    case_bool_decide as E.
    + subst b. rewrite IH. split; [by intros ->|by intros [= ->]].
    + split; [done|]. intros [= ? _]. done.
Qed.

Lemma relative_to_inr p other rel :
  relative_to p other = inr rel ↔
  root p = root other ∧ ∃ rest, parts p = parts other ++ rest
                                ∧ rel = {| root := ""; parts := rest |}.
Proof.
  unfold relative_to. case_bool_decide as Hr.
  - destruct (strip_prefix (parts other) (parts p)) as [rest|] eqn:E.
    + apply strip_prefix_Some in E. split.
      * intros [= <-]. split; [done|]. by exists rest.
      * intros (_ & rest' & E' & ->). rewrite E in E'.
        by apply app_inv_head in E' as ->.
    + split; [done|]. intros (_ & rest & E' & _).
      apply strip_prefix_Some in E'. congruence.
  - split; [done|]. by intros [? _].
Qed.

Lemma relative_to_inl p other :
  ¬ (root p = root other ∧ parts other `prefix_of` parts p) →
  ∃ msg, relative_to p other = inl (ValueError msg).
Proof.
  intros H. destruct (relative_to p other) as [e|rel] eqn:E.
  - unfold relative_to in E. destruct (if bool_decide _ then _ else _); [done|].
    injection E as <-. by eexists.
  - apply relative_to_inr in E as (Hr & rest & Hp & _).
    destruct H. split; [done|]. by exists rest.
Qed.

Lemma join_cons_ne x l : x ≠ "" → join "/" (x :: l) ≠ "".
Proof.
  intros Hx. destruct l; simpl; [done|].
  destruct x; [done|]. by rewrite str_app_cons.
Qed.

Lemma join_not_dot l :
  Forall is_component l → l ≠ [] → join "/" l ≠ "." ∧ join "/" l ≠ "".
Proof.
  intros Hl Hne. destruct l as [|x l]; [done|].
  apply Forall_cons in Hl as [(Hx & Hdot & _) _].
  split; [|by apply join_cons_ne].
  destruct l as [|y l]; [done|]. cbn [join].
  destruct x as [|c x]; [done|]. rewrite str_app_cons. intros [= -> E].
  destruct x; [|done]. by rewrite str_app_nil_l, str_app_cons in E.
Qed.

Lemma component_segment x : is_component x → is_segment x.
Proof. intros (? & _ & ?). by split. Qed.

Lemma Forall_removelast {A} (P : A → Prop) l :
  Forall P l → Forall P (removelast l).
Proof.
  induction l as [|x l IH]; [done|]. intros [Hx Hl]%Forall_cons.
  destruct l; [constructor|]. cbn [removelast]. constructor; auto.
Qed.

(** The node below which the reference of [f] goes, in folder mode: the
    root for a file directly in the root folder, the folder node of the
    directories in between otherwise. *)
Lemma target_node_dirs r f σ fn node σ' fn' :
  wf_path f →
  target_node (Some r) f 0 σ fn = inr (node, σ', fn') →
  ∃ rest,
    root f = root r ∧ parts f = parts r ++ rest
    ∧ Forall is_component rest
    ∧ ((removelast rest = [] ∧ node = 0 ∧ σ' = σ ∧ fn' = fn)
       ∨ (removelast rest ≠ []
          ∧ _ensure_folder_nodes 0 fn (join "/" (removelast rest)) σ
            = inr (node, σ', fn'))).
Proof.
  intros Hwf. unfold target_node.
  intros (rel & Hrel & H)%bind_inr.
  apply relative_to_inr in Hrel as (Hroot & rest & Hparts & ->).
  exists rest. split; [done|]. split; [done|].
  assert (Forall is_component rest) as Hrest.
  { unfold wf_path in Hwf. rewrite Hparts in Hwf.
    by apply Forall_app in Hwf as [_ ?]. }
  split; [done|].
  unfold parent in H. cbn [root parts] in H.
  unfold path_str in H. cbn [root parts] in H.
  destruct (removelast rest) as [|d ds] eqn:Ed.
  - left. split; [done|]. by injection H as <- <- <-.
  - right. split; [done|].
    assert (Forall is_component (d :: ds)) as Hds.
    { rewrite <- Ed. by apply Forall_removelast. }
    destruct (join_not_dot (d :: ds) Hds) as [Hdot Hne]; [done|].
    rewrite str_app_nil_l in H.
    rewrite (bool_decide_eq_true_2 _ Hdot) in H.
    by rewrite (bool_decide_eq_true_2 _ Hne) in H.
Qed.

Lemma reaches_grows σ σ' node dirs :
  grows σ σ' → reaches σ node dirs → reaches σ' node dirs.
Proof.
  intros G. induction 1 as [|node dirs d child _ IH Hc Hl]; [constructor|].
  econstructor; [exact IH|by eapply is_child_grows|by eapply labelled_at_grows].
Qed.

(** A cached folder node is reached from the root through the folders that
    its key spells. *)
Lemma cached_reaches σ cache l id :
  folder_inv σ cache → Forall is_segment l → l ≠ [] →
  cache !! join "/" l = Some id → reaches σ id l.
Proof.
  intros Hinv. revert id. induction l as [|x l IH] using rev_ind; [done|].
  intros id Hl _ Hid.
  destruct Hinv as (_ & _ & _ & _ & Hcached).
  destruct (Hcached _ _ Hid) as (ps & p & Hkey & Hseg & Hlab & Hpar).
  apply join_inj in Hkey; [|done|done|by destruct l|by destruct ps].
  apply app_inj_tail in Hkey as [<- <-].
  destruct Hpar as [[-> Hc]|(Hne & pid & Hpid & Hc)].
  - apply (reaches_dir σ 0 [] x id); [constructor|done..].
  - apply (reaches_dir σ pid l x id); [|done..].
    apply IH; [|done..]. by apply Forall_app in Hl as [? _].
Qed.

Lemma placed_grows r σ σ' f : grows σ σ' → placed r σ f → placed r σ' f.
Proof.
  intros G (rest & parent & ref & Hr & Hp & Hreach & Hc & Hl).
  exists rest, parent, ref. split; [done|]. split; [done|].
  split; [by eapply reaches_grows|].
  split; [by eapply is_child_grows|by eapply labelled_at_grows].
Qed.

Lemma folder_step env cfg r c fn f c' fn' :
  c_ditamap_root c = 0 → run_state (c_elements c) fn →
  wf_path f → video_can_handle env f = inr true →
  convert_file (video_registry env cfg) (Some r) c fn f = inr (c', fn') →
  placed r (c_elements c') f ∧ grows (c_elements c) (c_elements c').
Proof.
  intros Hroot Hrun Hwf Hcan Hconv.
  apply convert_file_accepted in Hconv
    as (tid & topic & vf & blob & parent & σ1 & _ & _ & Htarget & ->);
    [|done..].
  cbn [c_elements]. rewrite Hroot in Htarget.
  pose proof (run_state_inv _ _ Hrun) as Hinv.
  pose proof (target_node_grows _ _ _ _ _ _ _ _ Htarget) as [G _].
  split; [|eapply grows_trans; [exact G|apply attach_grows]].
  apply target_node_dirs in Htarget as (rest & Hr & Hp & Hrest & Hcase);
    [|done].
  destruct Hcase as [(Hd & -> & -> & ->)|(Hd & Hens)].
  - exists rest, 0, (List.length (c_elements c)).
    split; [done|]. split; [done|]. rewrite Hd.
    split; [constructor|]. split; [|apply attach_labelled_at].
    apply attach_is_child. by destruct Hinv as [? _].
  - destruct (ensure_folder_nodes_inv _ _ _ _ _ _ Hinv Hens)
      as (Hinv' & _ & _ & _ & Hnode & _).
    assert (Forall is_segment (removelast rest)) as Hseg.
    { eapply Forall_impl; [by apply Forall_removelast|].
      apply component_segment. }
    rewrite segments_join in Hnode by done.
    destruct Hnode as [[? _]|[_ Hnode]]; [done|].
    exists rest, parent, (List.length σ1).
    split; [done|]. split; [done|].
    split; [|split; [|apply attach_labelled_at]].
    + eapply reaches_grows; [apply attach_grows|].
      by eapply cached_reaches.
    + apply attach_is_child. destruct Hinv' as (_ & Hlt & _). by eapply Hlt.
Qed.

(** X13: in folder mode the map mirrors the directories: in a project that a
    run returns, the reference node of every accepted file is labelled with
    the stem of the file and hangs below the chain of folder nodes whose
    labels are, in order, the directories between the root folder and the
    file (directly below the map root for a file in the root folder). *)
Theorem folder_mode_placement env cfg root_folder plugin_id today files p :
  Forall wf_path files →
  _convert_many (video_registry env cfg) (Some root_folder) plugin_id today
    files = inr p →
  ∀ f, f ∈ accepted env files → placed root_folder (c_elements p) f.
Proof.
  intros Hwf [fn Hrun]%convert_many_inr.
  set (I := λ (c : Combined) (fn : gmap string nat) (done : list Path),
         c_ditamap_root c = 0 ∧ run_state (c_elements c) fn
         ∧ ∀ f, f ∈ done → placed root_folder (c_elements c) f).
  assert (I (initial_combined plugin_id today) ∅ []) as Hinit.
  { split; [done|]. split; [rewrite initial_elements; constructor|].
    by intros f ?%elem_of_nil. }
  assert (I p fn ([] ++ accepted env files)) as (_ & _ & H); [|exact H].
  refine (convert_files_invariant env cfg (Some root_folder) I _ files [] _ _ _ _
            Hwf Hinit Hrun).
  intros c fn0 done f c' fn' (Hroot & Hstate & Hdone) Hf Hcan Hconv.
  destruct (convert_files_run_state env cfg (Some root_folder) [f] c fn0 c' fn')
    as [Hroot' Hstate']; [by repeat constructor|done|done| |].
  { cbn [convert_files]. by rewrite Hconv. }
  destruct (folder_step env cfg root_folder c fn0 f c' fn') as [Hpl G];
    [done..|].
  split; [done|]. split; [done|].
  intros g [Hg| ->%list_elem_of_singleton]%elem_of_app; [|done].
  eapply placed_grows; [exact G|by apply Hdone].
Qed.

Lemma folder_mode_placement_witness :
  ∃ p, _convert_many (video_registry sample_env sample_cfg) (Some sample_root)
         "orlando-video-plugin" "2025-01-01" sample_files = inr p
       ∧ placed sample_root (c_elements p) (PurePosixPath "/R/b/clip.mp4").
Proof.
  eexists. split; [vm_compute; reflexivity|].
  apply (folder_mode_placement sample_env sample_cfg sample_root
           "orlando-video-plugin" "2025-01-01" sample_files);
    [repeat constructor; done|vm_compute; reflexivity|].
  vm_compute. repeat constructor.
Defined.

(** X14: in folder mode a file that does not lie below the root folder ends
    the run: when the files before it pass and the file itself is accepted
    and converted, the run raises the [ValueError] of [relative_to] and no
    project is returned. *)
Theorem file_outside_root_aborts env cfg root_folder plugin_id today
    pre f post p0 ctx :
  wf_path f → video_can_handle env f = inr true →
  ¬ (root f = root root_folder ∧ parts root_folder `prefix_of` parts f) →
  _convert_many (video_registry env cfg) (Some root_folder) plugin_id today pre
  = inr p0 →
  video_convert_to_dita env cfg f batch_metadata = inr ctx →
  ∃ msg,
    _convert_many (video_registry env cfg) (Some root_folder) plugin_id today
      (pre ++ f :: post) = inl (ValueError msg).
Proof.
  intros Hwf Hcan Hout [fn Hpre]%convert_many_inr Hconv.
  destruct (relative_to_inl f root_folder Hout) as [msg Hrel].
  exists msg. unfold _convert_many. rewrite convert_files_app, Hpre.
  cbn [mbind result_bind convert_files]. unfold convert_file.
  rewrite find_handler_video, Hcan.
  rewrite (convert_files_metadata _ _ _ _ _ _ _ Hpre).
  rewrite initial_metadata_title. cbn [default].
  cbn [mbind result_bind convert_to_dita VideoDocumentHandler].
  change (video_convert_to_dita env cfg f _)
    with (video_convert_to_dita env cfg f batch_metadata).
  rewrite Hconv. cbn [mbind result_bind].
  apply video_convert_shape in Hconv
    as (tid & topic & vf & blob & _ & _ & _ & _ & _ & Hhref & _);
    [|done|done].
  unfold merge_file. destruct (merge_context p0 ctx) as [c1 rm].
  rewrite Hhref. rewrite !str_app_cons, str_app_nil_l.
  unfold target_node. by rewrite Hrel.
Qed.

Lemma file_outside_root_aborts_witness :
  ∃ msg,
    _convert_many (video_registry sample_env sample_cfg) (Some sample_root)
      "orlando-video-plugin" "2025-01-01"
      ([PurePosixPath "/R/a/clip.mp4"] ++ PurePosixPath "/S/clip.mp4" :: [])
    = inl (ValueError msg).
Proof.
  eapply (file_outside_root_aborts sample_env sample_cfg sample_root
            "orlando-video-plugin" "2025-01-01" [PurePosixPath "/R/a/clip.mp4"]
            (PurePosixPath "/S/clip.mp4") []);
    [repeat constructor; done|reflexivity| |vm_compute; reflexivity
    |vm_compute; reflexivity].
  intros [_ [k Hk]]. vm_compute in Hk. discriminate.
Defined.


(** ** The folder resolver reads its key by segments *)

Lemma cached_key_segments σ cache key id :
  folder_inv σ cache → cache !! key = Some id →
  segments key ≠ [] ∧ Forall is_segment (segments key)
  ∧ key = join "/" (segments key).
Proof.
  intros (_ & _ & _ & _ & Hcached) Hid.
  destruct (Hcached _ _ Hid) as (ps & p & -> & Hseg & _).
  rewrite segments_join by (done || by destruct ps).
  split; [by destruct ps|]. by split.
Qed.

Lemma ensure_cached σ cache key id k :
  folder_inv σ cache → cache !! key = Some id → segments k = segments key →
  _ensure_folder_nodes 0 cache k σ = inr (id, σ, cache).
Proof.
  intros Hinv Hid Hseg.
  destruct (cached_key_segments _ _ _ _ Hinv Hid) as (Hne & Hl & Hkey).
  unfold _ensure_folder_nodes.
  destruct (cache !! k) as [id'|] eqn:Hk.
  - destruct (cached_key_segments _ _ _ _ Hinv Hk) as (_ & _ & Hkey').
    rewrite Hseg, <- Hkey in Hkey'. subst k. congruence.
  - fold (segments k). rewrite Hseg.
    destruct (ensure_loop_all_hits (segments key) [] 0 σ cache)
      as (node & -> & [[? _]|[_ Hnode]]); [|done|].
    + eapply cached_prefixes; [done..|]. rewrite <- Hkey. by eexists.
    + cbn [app] in Hnode. rewrite <- Hkey in Hnode. congruence.
Qed.

(** X15: the folder resolver reads its key by its non-empty segments: within
    a run, two keys with the same segments (whatever their slashes at the
    ends or doubled in between) resolve to the same node with the same
    effect on map and cache, and a key without segments resolves to the map
    root and changes nothing. *)
Theorem folder_key_by_segments σ cache k1 k2 :
  run_state σ cache → segments k1 = segments k2 →
  _ensure_folder_nodes 0 cache k1 σ = _ensure_folder_nodes 0 cache k2 σ
  ∧ (segments k1 = [] →
     _ensure_folder_nodes 0 cache k1 σ = inr (0, σ, cache)).
Proof.
  intros Hinv%run_state_inv Hseg. split.
  - destruct (cache !! k1) as [id1|] eqn:H1.
    { rewrite (ensure_cached σ cache k1 id1 k1), (ensure_cached σ cache k1 id1 k2);
        done. }
    destruct (cache !! k2) as [id2|] eqn:H2.
    { rewrite (ensure_cached σ cache k2 id2 k1), (ensure_cached σ cache k2 id2 k2);
        done. }
    unfold _ensure_folder_nodes. rewrite H1, H2.
    fold (segments k1). fold (segments k2). by rewrite Hseg.
  - intros Hnil. unfold _ensure_folder_nodes.
    destruct (cache !! k1) as [id1|] eqn:H1.
    { by destruct (cached_key_segments _ _ _ _ Hinv H1) as [? _]. }
    fold (segments k1). by rewrite Hnil.
Qed.

Lemma folder_key_by_segments_witness :
  ∃ node σ' cache',
    _ensure_folder_nodes 0 ∅ "season1/intros" [ET.new_element "map"]
    = inr (node, σ', cache')
    ∧ _ensure_folder_nodes 0 cache' "/season1//intros/" σ'
      = inr (node, σ', cache').
Proof.
  destruct (_ensure_folder_nodes 0 ∅ "season1/intros" [ET.new_element "map"])
    as [e|[[node σ'] cache']] eqn:H; [vm_compute in H; discriminate|].
  exists node, σ', cache'. split; [reflexivity|].
  destruct (folder_key_by_segments σ' cache' "/season1//intros/"
              "season1/intros") as [-> _].
  - by eapply run_resolve; [apply run_start|exact H].
  - reflexivity.
  - destruct (ensure_folder_nodes_inv _ _ _ _ _ _ folder_inv_start H)
      as (_ & _ & _ & _ & _ & Hagain).
    exact Hagain.
Defined.

(** ** A renamed file keeps its extension *)

Lemma rfind_app_absent c s t :
  forall_str ((λ x, negb (bool_decide (x = c)))) t = true → rfind c (s +:+ t) = rfind c s.
Proof.
  intros Ht. unfold rfind. rewrite rfind_from_app.
  by apply rfind_from_absent.
Qed.

Lemma rfind_bounds c s : (-1 ≤ rfind c s < Z.of_nat (String.length s))%Z.
Proof.
  destruct (last_occurrence c s) as [Hno|(a & b & -> & Hb)].
  - rewrite rfind_absent by done. lia.
  - rewrite rfind_last by done. rewrite str_length_app. simpl. lia.
Qed.

Lemma rfind_lt_free c u v :
  (rfind c (u +:+ v) < Z.of_nat (String.length u))%Z →
  forall_str ((λ x, negb (bool_decide (x = c)))) v = true.
Proof.
  intros H. destruct (last_occurrence c v) as [Hno|(a & b & -> & Hb)]; [done|].
  rewrite <- str_app_assoc, rfind_last in H by done.
  rewrite str_length_app in H. lia.
Qed.

Lemma str_drop_app_le n s t :
  n ≤ String.length s → str_drop n (s +:+ t) = str_drop n s +:+ t.
Proof.
  revert s. induction n as [|n IH]; intros s Hn.
  - by destruct s; [destruct t|].
  - destruct s as [|c s]; simpl in Hn; [lia|].
    rewrite str_app_cons. simpl. apply IH. lia.
Qed.

Lemma str_take_app_le n s t :
  n ≤ String.length s → str_take n (s +:+ t) = str_take n s.
Proof.
  revert s. induction n as [|n IH]; intros s Hn.
  - by destruct s; [destruct t|].
  - destruct s as [|c s]; simpl in Hn; [lia|].
    rewrite str_app_cons. simpl. rewrite IH; [done|lia].
Qed.

Lemma exists_str_app p s t :
  exists_str p (s +:+ t) = exists_str p s || exists_str p t.
Proof. str_induction s; [done|]. by rewrite IHs, orb_assoc. Qed.

Lemma digit_not_dot_slash c :
  in_range 48 57 c = true → (λ x, negb (bool_decide (x = "."%char))) c = true ∧ (λ x, negb (bool_decide (x = "/"%char))) c = true.
Proof. each_char c. Qed.

Lemma counter_free i :
  forall_str ((λ x, negb (bool_decide (x = "."%char)))) ("-" +:+ str_of_nat i) = true
  ∧ forall_str ((λ x, negb (bool_decide (x = "/"%char)))) ("-" +:+ str_of_nat i) = true.
Proof.
  rewrite str_app_cons, str_app_nil_l. cbn [forall_str].
  split; (apply andb_true_iff; split; [done|]);
    (eapply forall_str_impl; [|apply str_of_nat_digits]);
    intros c Hc; by apply digit_not_dot_slash.
Qed.

Lemma splitext_with_ext a b :
  forall_str (λ x, negb (bool_decide (x = "."%char))) b = true →
  forall_str (λ x, negb (bool_decide (x = "/"%char))) (String "." b) = true →
  exists_str (λ c, negb (bool_decide (c = "."%char)))
    (str_drop (Z.to_nat (rfind "/" a + 1)) a) = true →
  splitext (a +:+ String "." b) = (a, String "." b).
Proof.
  intros Hb Hbs Hex. unfold splitext.
  rewrite (rfind_app_absent "/") by done. rewrite rfind_last by done.
  pose proof (rfind_bounds "/" a) as Bs. set (sep := rfind "/" a) in *.
  rewrite Nat2Z.id, str_take_app, str_drop_app.
  rewrite bool_decide_eq_true_2 by lia.
  rewrite str_drop_app_le by lia.
  assert (Z.to_nat (Z.of_nat (String.length a) - (sep + 1))
          = String.length (str_drop (Z.to_nat (sep + 1)) a)) as ->.
  { rewrite str_drop_length. lia. }
  by rewrite str_take_app, Hex.
Qed.

(** How [os.path.splitext] splits: off an extension that is a dot and
    characters without dot or slash, or not at all; in the second case it
    does not split the name with a dot-free and slash-free tail either. *)
Lemma splitext_shape name :
  (∃ a b, splitext name = (a, String "." b)
          ∧ forall_str (λ x, negb (bool_decide (x = "."%char))) b = true
          ∧ forall_str (λ x, negb (bool_decide (x = "/"%char))) (String "." b)
            = true)
  ∨ (splitext name = (name, "")
     ∧ ∀ t, forall_str (λ x, negb (bool_decide (x = "."%char))) t = true →
            forall_str (λ x, negb (bool_decide (x = "/"%char))) t = true →
            splitext (name +:+ t) = (name +:+ t, "")).
Proof.
  pose proof (rfind_bounds "/" name) as Bs.
  pose proof (rfind_bounds "." name) as Bd.
  unfold splitext at 1 2.
  set (sep := rfind "/" name) in *. set (dot := rfind "." name) in *.
  destruct (bool_decide (dot > sep)%Z
            && exists_str (λ c, negb (bool_decide (c = "."%char)))
                 (str_take (Z.to_nat (dot - (sep + 1)))
                    (str_drop (Z.to_nat (sep + 1)) name))) eqn:Hcond.
  - left. apply andb_true_iff in Hcond as [Hgt%bool_decide_eq_true _].
    destruct (last_occurrence "." name) as [Hno|(a & b & E & Hb)].
    { unfold dot in Hgt. rewrite rfind_absent in Hgt by done. lia. }
    assert (dot = Z.of_nat (String.length a)) as Hdot.
    { unfold dot. rewrite E. by apply rfind_last. }
    exists a, b. rewrite Hdot, Nat2Z.id, E, str_take_app, str_drop_app.
    split; [done|]. split; [done|].
    apply (rfind_lt_free "/" a). rewrite <- E. fold sep. lia.
  - right. split; [done|]. intros t Htd Hts. unfold splitext.
    rewrite !rfind_app_absent by done. fold sep dot.
    destruct (decide (dot > sep)%Z) as [Hgt|Hle].
    + rewrite bool_decide_eq_true_2 in Hcond by done.
      rewrite bool_decide_eq_true_2 by done. cbn [andb] in *.
      rewrite str_drop_app_le by lia.
      rewrite str_take_app_le by (rewrite str_drop_length; lia).
      by rewrite Hcond.
    + by rewrite bool_decide_eq_false_2.
Qed.

(** The candidate names split as the name does: the counter goes to the
    base, the extension stays. *)
Lemma splitext_candidate name i :
  splitext (candidate (splitext name).1 (splitext name).2 i)
  = ((splitext name).1 +:+ "-" +:+ str_of_nat i, (splitext name).2).
Proof.
  destruct (counter_free i) as [Hmd Hms].
  unfold candidate.
  destruct (splitext_shape name) as [(a & b & -> & Hb & Hbs)|[-> Hext]];
    cbn [fst snd].
  - replace (a +:+ "-" +:+ str_of_nat i +:+ String "." b)
      with ((a +:+ "-" +:+ str_of_nat i) +:+ String "." b)
      by (by rewrite !str_app_assoc).
    apply splitext_with_ext; [done..|].
    rewrite (rfind_app_absent "/") by done.
    pose proof (rfind_bounds "/" a).
    rewrite str_drop_app_le by lia. rewrite exists_str_app.
    apply orb_true_iff. by right.
  - replace (name +:+ "-" +:+ str_of_nat i +:+ "")
      with (name +:+ "-" +:+ str_of_nat i)
      by (by rewrite <- !str_app_assoc, str_app_nil_r).
    by apply Hext.
Qed.

(** X16: a name that the naming policy changes keeps its extension: the
    result splits, as [os.path.splitext] splits it, into the base of the
    name followed by the counter, and the extension of the name. *)
Theorem dedup_name_keeps_extension {A} (name : string) (used : gmap string A) :
  (splitext (_dedup_name name used)).2 = (splitext name).2
  ∧ (_dedup_name name used ≠ name →
     ∃ i, (splitext (_dedup_name name used)).1
          = (splitext name).1 +:+ "-" +:+ str_of_nat i).
Proof.
  destruct (dedup_name_is_candidate name used) as [_ [->|[i ->]]].
  - by split.
  - rewrite splitext_candidate. cbn [fst snd]. split; [done|].
    intros _. by exists i.
Qed.

Lemma dedup_name_keeps_extension_witness :
  _dedup_name "a.b/clip.MP4" ({[ "a.b/clip.MP4" := 1 ]} : gmap string nat)
  = "a.b/clip-2.MP4"
  ∧ ∃ i, (splitext (_dedup_name "a.b/clip.MP4"
                      ({[ "a.b/clip.MP4" := 1 ]} : gmap string nat))).1
         = (splitext "a.b/clip.MP4").1 +:+ "-" +:+ str_of_nat i.
Proof.
  split; [reflexivity|].
  apply (proj2 (dedup_name_keeps_extension "a.b/clip.MP4"
                  ({[ "a.b/clip.MP4" := 1 ]} : gmap string nat))).
  vm_compute. discriminate.
Defined.
(** ** The files of a batch *)

Lemma lower_nonempty s : s ≠ "" → lower s ≠ "".
Proof. by destruct s. Qed.

Lemma sorted_set_spec l :
  Sorted str_le (sorted_set l)
  ∧ NoDup (sorted_set l)
  ∧ ∀ e, e ∈ sorted_set l ↔ e ∈ l.
Proof.
  unfold sorted_set. split; [apply Sorted_merge_sort, _|].
  pose proof (merge_sort_Permutation str_le
                (remove_dups l)) as HP.
  split.
  - rewrite HP. apply NoDup_remove_dups.
  - intros e. rewrite HP. apply elem_of_remove_dups.
Qed.

Lemma elem_of_sorted_set e l : e ∈ sorted_set l ↔ e ∈ l.
Proof. apply sorted_set_spec. Qed.

(** X17: the extension list of the plugin is sorted, free of duplicates and
    of empty strings, and lower-case.  When the metadata of the plugin names
    extensions, the list holds exactly these, lowered, and no handler is
    asked; when any question to the plugin manager raises, the list is
    empty. *)
Theorem supported_extensions_sorted (host : Host) (plugin_id : string) :
  let exts := _get_supported_extensions_for_plugin host plugin_id in
  Sorted str_le exts
  ∧ NoDup exts
  ∧ (∀ e, e ∈ exts → e ≠ "" ∧ lower e = e)
  ∧ (∀ formats,
       supported_formats host plugin_id = inr (Some formats) →
       omap truthy_extension formats ≠ [] →
       ∀ e, e ∈ exts ↔ ∃ x, x ∈ omap truthy_extension formats ∧ e = lower x)
  ∧ (∀ err, supported_formats host plugin_id = inl err → exts = []).
Proof.
  cbn zeta. unfold _get_supported_extensions_for_plugin.
  split; [|split; [|split; [|split]]].
  - destruct (_ ≫= _) as [|l] eqn:E; [constructor|].
    apply bind_inr in E as (formats & _ & E).
    apply bind_inr in E as (exts & _ & [= <-]). apply sorted_set_spec.
  - destruct (_ ≫= _) as [|l] eqn:E; [constructor|].
    apply bind_inr in E as (formats & _ & E).
    apply bind_inr in E as (exts & _ & [= <-]). apply sorted_set_spec.
  - intros e. destruct (_ ≫= _) as [|l] eqn:E; [by intros ?%elem_of_nil|].
    apply bind_inr in E as (formats & _ & E).
    apply bind_inr in E as (exts & _ & [= <-]).
    intros He. rewrite elem_of_sorted_set in He.
    apply list_elem_of_fmap in He as (x & -> & [Hx _]%list_elem_of_filter).
    split; [by apply lower_nonempty|apply lower_idem].
  - intros formats Hf Hne e. rewrite Hf. cbn [mbind result_bind default].
    change (id formats) with formats.
    destruct (omap truthy_extension formats) as [|x0 xs] eqn:Ex; [done|].
    cbn [mbind result_bind]. rewrite elem_of_sorted_set.
    rewrite list_elem_of_fmap. split.
    + intros (x & -> & [_ Hx]%list_elem_of_filter). by exists x.
    + intros (x & Hx & ->). exists x. split; [done|].
      apply list_elem_of_filter. split; [|done].
      rewrite <- Ex in Hx. apply list_elem_of_omap in Hx as (f & _ & Hf').
      destruct f as [|[[|c r]|]]; simplify_eq/=. done.
  - intros err ->. done.
Qed.

Lemma supported_extensions_sorted_witness :
  _get_supported_extensions_for_plugin sample_host "orlando-video-plugin"
  = [".avi"; ".mkv"; ".mov"; ".mp4"; ".webm"; ".wmv"]
  ∧ lower ".avi" = ".avi".
Proof.
  split; [vm_compute; reflexivity|].
  apply (proj1 (proj2 (proj2 (supported_extensions_sorted sample_host
                                "orlando-video-plugin"))) ".avi").
  vm_compute. repeat constructor.
Defined.

Lemma joinpath_wf p s : wf_path p → wf_path (joinpath p s).
Proof.
  intros Hp. unfold joinpath. case_bool_decide; [apply PurePosixPath_wf|].
  unfold wf_path. cbn [parts]. apply Forall_app. split; [done|].
  apply PurePosixPath_wf.
Qed.

Lemma elem_of_folder_flow_files f walk exts :
  f ∈ folder_flow_files walk exts ↔
  ∃ dirpath filenames name,
    (dirpath, filenames) ∈ walk ∧ name ∈ filenames
    ∧ f = joinpath (PurePosixPath dirpath) name
    ∧ lower (suffix f) ∈ exts.
Proof.
  unfold folder_flow_files. rewrite list_elem_of_bind. split.
  - intros ([dirpath filenames] & Hf & Hw).
    apply list_elem_of_bind in Hf as (name & Hf & Hn).
    case_bool_decide as He; [|by apply elem_of_nil in Hf].
    apply list_elem_of_singleton in Hf as ->.
    by exists dirpath, filenames, name.
  - intros (dirpath & filenames & name & Hw & Hn & -> & He).
    exists (dirpath, filenames). split; [|done].
    apply list_elem_of_bind. exists name. split; [|done].
    rewrite bool_decide_eq_true_2 by done. by apply list_elem_of_singleton.
Qed.

(** X18: the files that the folder flow hands to the conversion are ready for
    it.  Each is a well-formed path whose lowered suffix is in the extension
    list, whatever that list is; when the list holds only extensions of the
    handler, the handler answers for the file what [Path.exists()] answers;
    and when [os.walk] stays below the root folder the file has a path
    relative to the root, so that its place in the map can be found. *)
Theorem folder_flow_files_ready env root_folder walk exts f :
  f ∈ folder_flow_files walk exts →
  (wf_path f ∧ lower (suffix f) ∈ exts)
  ∧ ((∀ e, e ∈ exts → e ∈ _supported_extensions) →
     video_can_handle env f = path_exists env f)
  ∧ ((∀ dirpath filenames, (dirpath, filenames) ∈ walk →
        root (PurePosixPath dirpath) = root root_folder
        ∧ parts root_folder `prefix_of` parts (PurePosixPath dirpath)
        ∧ Forall (λ name, root (PurePosixPath name) = "") filenames) →
     ∃ rel, relative_to f root_folder = inr rel).
Proof.
  intros (dirpath & filenames & name & Hw & Hn & -> & He)%elem_of_folder_flow_files.
  split; [|split].
  - split; [apply joinpath_wf, PurePosixPath_wf|done].
  - intros Hexts. apply Hexts in He.
    unfold video_can_handle. rewrite (bool_decide_eq_true_2 _ He).
    by destruct (path_exists env _) as [e|[|]].
  - intros Hwalk.
    destruct (Hwalk _ _ Hw) as (Hroot & [rest Hparts] & Hnames).
    rewrite Forall_forall in Hnames. specialize (Hnames _ Hn).
    unfold joinpath. rewrite bool_decide_eq_false_2 by (by intros []).
    eexists. apply relative_to_inr. cbn [root parts]. split; [done|].
    exists (rest ++ parts (PurePosixPath name)). split; [|done].
    by rewrite Hparts, app_assoc.
Qed.

Lemma folder_flow_files_ready_witness :
  folder_flow_files [("/R", ["notes.txt"]); ("/R/a", ["Clip.MP4"])]
    (_get_supported_extensions_for_plugin sample_host "orlando-video-plugin")
  = [PurePosixPath "/R/a/Clip.MP4"]
  ∧ video_can_handle sample_env (PurePosixPath "/R/a/Clip.MP4") = inr true
  ∧ ∃ rel, relative_to (PurePosixPath "/R/a/Clip.MP4") sample_root = inr rel.
Proof.
  split; [vm_compute; reflexivity|].
  destruct (folder_flow_files_ready sample_env sample_root
              [("/R", ["notes.txt"]); ("/R/a", ["Clip.MP4"])]
              (_get_supported_extensions_for_plugin sample_host
                 "orlando-video-plugin")
              (PurePosixPath "/R/a/Clip.MP4"))
    as (_ & Hcan & Hrel); [vm_compute; repeat constructor|].
  split.
  - rewrite Hcan; [reflexivity|]. intros e.
    change (_get_supported_extensions_for_plugin _ _)
      with [".avi"; ".mkv"; ".mov"; ".mp4"; ".webm"; ".wmv"].
    unfold _supported_extensions. rewrite !elem_of_cons, !elem_of_nil. tauto.
  - apply Hrel. intros dirpath filenames H.
    repeat (apply elem_of_cons in H as [[= -> ->]|H];
            [split; [reflexivity|];
             split; [by eexists|repeat constructor]|]).
    by apply elem_of_nil in H.
Defined.


(** ** The result of one conversion, as the launcher reads it *)

(** X19: whatever the metadata, a conversion that succeeds returns one topic,
    filed as the topic identifier followed by [.dita] and carrying that
    identifier, one video with the bytes of the file, no image and no
    per-video metadata.  The launcher finds the reference of the per-file
    map, and the final component of that reference is the key of the topic,
    so that the rename map is asked for the right name. *)
Theorem conversion_result_shape env cfg f md ctx :
  wf_path f →
  video_convert_to_dita env cfg f md = inr ctx →
  ∃ tid topic vf blob,
    _generate_topic_id (name f) = inr tid
    ∧ topics ctx = [(tid +:+ ".dita", topic)]
    ∧ xml_get "id" topic = Some tid
    ∧ images ctx = []
    ∧ videos ctx = [(vf, blob)]
    ∧ read_bytes env f = inr blob
    ∧ video_info_map ctx = []
    ∧ child_href ctx = Some ("topics/" +:+ tid +:+ ".dita")
    ∧ basename ("topics/" +:+ tid +:+ ".dita") = tid +:+ ".dita".
Proof.
  intros Hwf Hconv.
  apply video_convert_result in Hconv
    as (tid & vf & blob & m & title & Htid & Hvf & Hblob & Hm & _ & _ & _ & ->);
    [|done].
  exists tid. eexists. exists vf, blob.
  cbn [topics images videos video_info_map].
  split; [done|]. split; [done|]. split; [done|]. split; [done|].
  split; [done|]. split; [done|]. split; [done|]. split.
  - unfold child_href. cbn [ditamap_root mbind option_bind].
    by rewrite (create_ditamap_href _ _ _ _ _ Hm).
  - apply basename_topics.
    eapply forall_str_impl; [apply name_char_not_slash|].
    by eapply topic_filename_chars.
Qed.

Lemma conversion_result_shape_witness :
  ∃ ctx,
    video_convert_to_dita sample_env sample_cfg
      (PurePosixPath "/R/a/My Clip_01.mp4") batch_metadata = inr ctx
    ∧ ∃ topic, topics ctx = [("my-clip-01.dita", topic)]
               ∧ xml_get "id" topic = Some "my-clip-01".
Proof.
  destruct (video_convert_to_dita sample_env sample_cfg
              (PurePosixPath "/R/a/My Clip_01.mp4") batch_metadata)
    as [e|ctx] eqn:H; [vm_compute in H; discriminate|].
  exists ctx. split; [reflexivity|].
  destruct (conversion_result_shape sample_env sample_cfg
              (PurePosixPath "/R/a/My Clip_01.mp4") batch_metadata ctx)
    as (tid & topic & vf & blob & Htid & Ht & Hid & _);
    [repeat constructor; done|exact H|].
  assert (tid = "my-clip-01") as -> by (vm_compute in Htid; congruence).
  by exists topic.
Defined.

(** ** Folder names that XML cannot hold *)

Lemma ensure_loop_storable parts path_accum parent σ cache node σ' cache' :
  storable_keys cache → Forall is_segment (path_accum ++ parts) →
  Forall (λ part, xml_compatible part = true) path_accum →
  ensure_loop parts path_accum parent σ cache = inr (node, σ', cache') →
  storable_keys cache'.
Proof.
  revert path_accum parent σ cache.
  induction parts as [|part rest IH]; intros acc parent σ cache Hinv Hseg Hacc.
  - by intros [= _ _ <-].
  - assert (Forall is_segment ((acc ++ [part]) ++ rest)) as Hseg'
      by by rewrite <- app_assoc.
    assert (Forall is_segment (acc ++ [part])) as Hsegk
      by by apply Forall_app in Hseg' as [? _].
    destruct (cache !! join "/" (acc ++ [part])) as [hit|] eqn:Hc.
    + rewrite (ensure_loop_hit _ _ _ _ _ _ _ Hc).
      apply IH; [done..|].
      destruct (Hinv _ _ Hc) as (l & Hl & Hne & Hls & Hlc).
      apply join_inj in Hl; [by subst l|done|done|by destruct acc|done].
    + rewrite (ensure_loop_miss _ _ _ _ _ _ Hc).
      destruct (xml_compatible part) eqn:Hp; [|done].
      assert (Forall (λ part, xml_compatible part = true) (acc ++ [part]))
        as Hacc' by (apply Forall_app; by repeat constructor).
      apply IH; [|done..].
      intros key id Hk. destruct (decide (join "/" (acc ++ [part]) = key))
        as [<-|Hne].
      * exists (acc ++ [part]). split; [done|]. split; [by destruct acc|done].
      * rewrite lookup_insert_ne in Hk by done. by eapply Hinv.
Qed.

Lemma run_state_storable σ cache : run_state σ cache → storable_keys cache.
Proof.
  induction 1 as [|σ cache rel_key node σ' cache' _ IH H|]; [|..|done].
  - intros key id Hk. by rewrite lookup_empty in Hk.
  - unfold _ensure_folder_nodes in H.
    destruct (cache !! rel_key); [by injection H as _ _ <-|].
    eapply ensure_loop_storable; [exact IH| |constructor|exact H].
    apply segments_are_segments.
Qed.

Lemma ensure_loop_unstorable parts path_accum parent σ cache :
  storable_keys cache → Forall is_segment (path_accum ++ parts) →
  Forall (λ part, xml_compatible part = true) path_accum →
  Exists (λ part, xml_compatible part = false) parts →
  ensure_loop parts path_accum parent σ cache = inl xml_value_error.
Proof.
  revert path_accum parent σ cache.
  induction parts as [|part rest IH];
    intros acc parent σ cache Hinv Hseg Hacc Hbad;
    [by apply Exists_nil in Hbad|].
  assert (Forall is_segment ((acc ++ [part]) ++ rest)) as Hseg'
    by by rewrite <- app_assoc.
  assert (Forall is_segment (acc ++ [part])) as Hsegk
    by by apply Forall_app in Hseg' as [? _].
  destruct (cache !! join "/" (acc ++ [part])) as [hit|] eqn:Hc.
  - destruct (Hinv _ _ Hc) as (l & Hl & Hne & Hls & Hlc).
    apply join_inj in Hl; [|done|done|by destruct acc|done]. subst l.
    rewrite (ensure_loop_hit _ _ _ _ _ _ _ Hc).
    apply IH; [done..|].
    apply Exists_cons in Hbad as [Hbad|Hbad]; [|done].
    apply Forall_app in Hlc as [_ Hp]. rewrite Forall_singleton in Hp.
    congruence.
  - rewrite (ensure_loop_miss _ _ _ _ _ _ Hc).
    destruct (xml_compatible part) eqn:Hp; [|done].
    apply Exists_cons in Hbad as [Hbad|Hbad]; [congruence|].
    apply IH; [|done| |done].
    + intros key id Hk. destruct (decide (join "/" (acc ++ [part]) = key))
        as [<-|Hne].
      * exists (acc ++ [part]). split; [done|]. split; [by destruct acc|].
        split; [done|]. apply Forall_app. by repeat constructor.
      * rewrite lookup_insert_ne in Hk by done. by eapply Hinv.
    + apply Forall_app. by repeat constructor.
Qed.

(** X20: a directory whose name holds a character that XML cannot hold (a
    control character other than tab, line feed and carriage return) cannot
    become a folder node: within a run the resolver raises lxml's
    [ValueError] for every key with such a segment, whatever is cached. *)
Theorem unstorable_folder_raises σ cache rel_key :
  run_state σ cache →
  Exists (λ part, xml_compatible part = false) (segments rel_key) →
  _ensure_folder_nodes 0 cache rel_key σ = inl xml_value_error.
Proof.
  intros Hrun Hbad. pose proof (run_state_storable _ _ Hrun) as Hinv.
  unfold _ensure_folder_nodes.
  destruct (cache !! rel_key) as [id|] eqn:Hc.
  - destruct (Hinv _ _ Hc) as (l & -> & Hne & Hls & Hlc).
    rewrite segments_join in Hbad by done.
    apply Exists_exists in Hbad as (part & Hin & Hp).
    rewrite Forall_forall in Hlc. specialize (Hlc _ Hin). congruence.
  - fold (segments rel_key).
    apply ensure_loop_unstorable; [done| |constructor|done].
    apply segments_are_segments.
Qed.

Lemma unstorable_folder_raises_witness :
  _ensure_folder_nodes 0 ∅ ("ok/" +:+ String "001" "") [ET.new_element "map"]
  = inl xml_value_error.
Proof.
  apply unstorable_folder_raises; [apply run_start|].
  vm_compute. apply Exists_cons_tl, Exists_cons_hd. reflexivity.
Defined.

(** ** Labels and titles *)

Lemma elem_of_concat_replicate {A} k (l : list A) x :
  x ∈ concat (replicate k l) → x ∈ l.
Proof.
  induction k as [|k IH]; simpl; [by intros ?%elem_of_nil|].
  intros [?|?]%elem_of_app; auto.
Qed.

(** The topic and the reference node that the conversion of an accepted
    file adds, with the title of the one and the label of the other. *)
Lemma convert_file_title env cfg root_folder c fn f c' fn' :
  wf_path f → video_can_handle env f = inr true →
  convert_file (video_registry env cfg) root_folder c fn f = inr (c', fn') →
  ∃ tid topic parent σ1 k,
    let safe := _dedup_name (tid +:+ ".dita") (c_topics c) in
    topic_title topic = Some (stem f)
    ∧ c_topics c' = <[safe := topic]> (c_topics c)
    ∧ grows (c_elements c) σ1
    ∧ tag <$> σ1 = (tag <$> c_elements c) ++ concat (replicate k folder_tags)
    ∧ c_elements c'
      = attach parent "topicref" {[ "href" := "topics/" +:+ safe ]} (stem f) σ1.
Proof.
  intros Hwf Hcan Hconv.
  assert (∃ tid vf title,
            c_topics c'
            = <[_dedup_name (tid +:+ ".dita") (c_topics c) :=
                  video_topic tid (Some (stem f)) ("../media/" +:+ vf) title]>
                (c_topics c)) as (tid0 & vf0 & mime & Htopic).
  { revert Hconv. unfold convert_file. rewrite find_handler_accepts by done.
    cbn [mbind result_bind convert_to_dita VideoDocumentHandler].
    intros (ctx & Hc & Hmerge)%bind_inr.
    apply video_convert_result in Hc
      as (tid & vf & blob & m & title & _ & _ & _ & _ & Ht & _ & Hs & ->);
      [|done].
    rewrite lookup_singleton_ne in Hs by done. cbn [or_else] in Hs.
    rewrite Hs in Ht. subst title.
    exists tid, vf. eexists.
    unfold merge_file, merge_context in Hmerge.
    cbn [topics images videos video_info_map merge_topics merge_items]
      in Hmerge.
    destruct (child_href _) as [[|a r]|].
    - by injection Hmerge as <- <-.
    - apply bind_inr in Hmerge as ([[parent σ1] fn1] & _ & Hmerge).
      apply bind_inr in Hmerge as (σ2 & _ & Hmerge).
      by injection Hmerge as <- <-.
    - by injection Hmerge as <- <-. }
  apply convert_file_accepted in Hconv
    as (tid & topic & vf & blob & parent & σ1 & _ & _ & Htarget & ->);
    [|done..].
  apply target_node_grows in Htarget as [G [k Hk]].
  cbn [c_topics c_elements] in *.
  exists tid, topic, parent, σ1, k. cbn zeta.
  split; [|by repeat split].
  set (safe := _dedup_name (tid +:+ ".dita") (c_topics c)) in *.
  assert (∃ t, topic = video_topic t (Some (stem f)) ("../media/" +:+ vf0) mime)
    as [t ->]; [|done].
  destruct (decide (_dedup_name (tid0 +:+ ".dita") (c_topics c) = safe))
    as [E|Hne].
  - rewrite E in Htopic. apply (f_equal (lookup safe)) in Htopic.
    rewrite !lookup_insert_eq in Htopic. injection Htopic as ->. by eexists.
  - apply (f_equal (lookup safe)) in Htopic.
    rewrite lookup_insert_eq, lookup_insert_ne in Htopic by done.
    unfold safe in Htopic. by rewrite dedup_name_fresh in Htopic.
Qed.

(** X21: in a project that a run returns, every reference node of the map
    points to a topic of the project, and its label (the text of its
    [navtitle]) is the title of that topic. *)
Theorem labels_match_titles env cfg root_folder plugin_id today files p :
  Forall wf_path files →
  _convert_many (video_registry env cfg) root_folder plugin_id today files
  = inr p →
  labels_are_titles p.
Proof.
  intros Hwf [fn Hrun]%convert_many_inr.
  set (I := λ (c : Combined) (_ : gmap string nat) (_ : list Path),
         ∀ id e, c_elements c !! id = Some e → tag e = "topicref" →
           ∃ k topic title,
             attrib e !! "href" = Some ("topics/" +:+ k)
             ∧ c_topics c !! k = Some topic
             ∧ topic_title topic = Some title
             ∧ labelled_at (c_elements c) id "topicref" title).
  assert (I (initial_combined plugin_id today) ∅ []) as Hinit.
  { intros id e He Ht. rewrite initial_elements in He.
    destruct id; simplify_eq/=. }
  assert (I p fn ([] ++ accepted env files)) as H.
  2:{ intros id e He Ht.
      destruct (H id e He Ht) as (k & topic & title & ? & ? & ? & Hl).
      exists k, topic, title. repeat split; try done.
      by apply labelled_at_navtitle in Hl as [_ ?]. }
  refine (convert_files_invariant env cfg root_folder I _ files [] _ _ _ _
            Hwf Hinit Hrun).
  intros c fn0 done f c' fn' Hinv Hf Hcan Hconv.
  apply convert_file_title in Hconv
    as (tid & topic & parent & σ1 & k & Htitle & Ht & G & Htags & He);
    [|done..].
  cbn zeta in *.
  set (safe := _dedup_name (tid +:+ ".dita") (c_topics c)) in *.
  intros id e Hid Htag. rewrite He in Hid. rewrite He, Ht.
  destruct (decide (id < List.length σ1)) as [Hlt|Hge].
  - rewrite attach_lookup_old in Hid by done.
    destruct (σ1 !! id) as [e1|] eqn:H1.
    2:{ by case_decide. }
    assert (tag e1 = "topicref" ∧ attrib e1 = attrib e) as [Ht1 Ha1].
    { case_decide; simplify_eq/=; done. }
    assert (id < List.length (c_elements c)) as Hold.
    { destruct (decide (id < List.length (c_elements c))); [done|].
      exfalso.
      assert ((tag <$> σ1) !! id = Some "topicref") as Hl
        by by rewrite list_lookup_fmap, H1; simpl; f_equal.
      rewrite Htags, lookup_app_r in Hl by (rewrite length_fmap; lia).
      apply list_elem_of_lookup_2, elem_of_concat_replicate in Hl.
      unfold folder_tags in Hl. list_cases Hl. }
    destruct (lookup_lt_is_Some_2 _ _ Hold) as [e0 H0].
    destruct (G _ _ H0) as (e1' & H1' & Ht0 & Ha0 & _).
    assert (e1' = e1) as -> by congruence.
    destruct (Hinv id e0 H0 ltac:(congruence))
      as (key & tp & title & Hhref & Hkey & Htl & Hlab).
    exists key, tp, title. split; [congruence|]. split.
    { rewrite lookup_insert_ne; [done|]. intros <-.
      unfold safe in Hkey. by rewrite dedup_name_fresh in Hkey. }
    split; [done|].
    eapply labelled_at_grows; [apply attach_grows|].
    by eapply labelled_at_grows.
  - assert (∃ j, id = List.length σ1 + j) as [j ->] by (exists (id - List.length σ1); lia).
    rewrite attach_lookup_new in Hid.
    destruct j as [|[|[|j]]]; simplify_eq/=.
    exists safe, topic, (stem f). cbn [attrib].
    split; [by rewrite lookup_singleton_eq|].
    split; [by rewrite lookup_insert_eq|]. split; [done|].
    rewrite Nat.add_0_r. apply attach_labelled_at.
Qed.

Lemma labels_match_titles_witness :
  ∃ p, _convert_many (video_registry sample_env sample_cfg) (Some sample_root)
         "orlando-video-plugin" "2025-01-01" sample_files = inr p
       ∧ labels_are_titles p.
Proof.
  eexists. split; [vm_compute; reflexivity|].
  apply (labels_match_titles sample_env sample_cfg (Some sample_root)
           "orlando-video-plugin" "2025-01-01" sample_files);
    [repeat constructor; done|vm_compute; reflexivity].
Defined.
